(** * comp_L: impedance of a capacitor or inductor from scope measurements

    A shallow embedding of [comp_L.c]: the engineering-notation formatter
    [eng] and the computation of [main].

    Numbers.  A C [double] is modelled by the type [double] below: a real
    number, or one of the IEEE 754 special values +inf, -inf and NaN.  The
    arithmetic on finite values is exact (no rounding to 53 bits, no overflow
    and no underflow) and the sign of a zero is not tracked (a zero divisor
    acts as +0.0); the special values follow IEEE 754, so that a division by
    zero gives an infinity and [isnormal] rejects zero, infinities and NaN.
    [M_PI] is the real number pi.  C [int] and [long] values are carried as
    [Z]: inside [eng] they stay far from the limits of [int] (the decimal
    exponent of a normal double is between -308 and 308).

    Where the compiled program departs from the exact arithmetic.  The
    products with [pow(10.0, n)] in [eng] are rounded to 53 bits, and
    [pow] overflows for [n >= 309]: 1e-306 at 4 digits comes out as
    "infe-306", 1e-21 as "1000.0 y" (the product of line 114 is
    999.9999999999999, just under the 1000.0 of line 115), and 6.2555,
    a double just below the tie, as "6.256" at 4 digits (the product of
    line 101 is 6255.5).  The subtraction under the square root of line
    189 cancels when [V_dut] is close to [V_in], and the clamped phase is
    a double near pi/2 - 1e-15, not that number.  A property that depends
    on this round-off is stated with the range and the tolerance it
    needs. *)

From Stdlib Require Import Reals Zfloor Lra Lia ZArith Bool List.
From Stdlib Require Import String Ascii DecimalString.
Import ListNotations.

Local Open Scope Z_scope.
Local Open Scope R_scope.

(** ** The [double] model *)

Module Dbl.

Inductive double : Type :=
| Fin (x : R)
| PInf
| NInf
| NaN.

Definition Rcompare (x y : R) : comparison :=
  match total_order_T x y with
  | inleft (left _) => Lt
  | inleft (right _) => Eq
  | inright _ => Gt
  end.

(** IEEE comparison: [None] when one side is a NaN (unordered). *)
Definition dcompare (a b : double) : option comparison :=
  match a, b with
  | NaN, _ => None
  | _, NaN => None
  | Fin x, Fin y => Some (Rcompare x y)
  | Fin _, PInf => Some Lt
  | Fin _, NInf => Some Gt
  | PInf, PInf => Some Eq
  | PInf, _ => Some Gt
  | NInf, NInf => Some Eq
  | NInf, _ => Some Lt
  end.

Definition dlt (a b : double) : bool :=
  match dcompare a b with Some Lt => true | _ => false end.

Definition dgt (a b : double) : bool :=
  match dcompare a b with Some Gt => true | _ => false end.

Definition dle (a b : double) : bool :=
  match dcompare a b with Some Lt | Some Eq => true | _ => false end.

Definition dge (a b : double) : bool :=
  match dcompare a b with Some Gt | Some Eq => true | _ => false end.

(** The infinity with the sign of [x]; NaN for [x = 0] (as in [0 * inf]
    and [0 / 0]). *)
Definition inf_of_sign (x : R) : double :=
  match Rcompare x 0 with
  | Gt => PInf
  | Lt => NInf
  | Eq => NaN
  end.

Definition dneg (a : double) : double :=
  match a with
  | Fin x => Fin (- x)
  | PInf => NInf
  | NInf => PInf
  | NaN => NaN
  end.

Definition dadd (a b : double) : double :=
  match a, b with
  | NaN, _ => NaN
  | _, NaN => NaN
  | Fin x, Fin y => Fin (x + y)
  | PInf, NInf => NaN
  | NInf, PInf => NaN
  | PInf, _ => PInf
  | _, PInf => PInf
  | NInf, _ => NInf
  | _, NInf => NInf
  end.

Definition dsub (a b : double) : double := dadd a (dneg b).

Definition dmul (a b : double) : double :=
  match a, b with
  | NaN, _ => NaN
  | _, NaN => NaN
  | Fin x, Fin y => Fin (x * y)
  | Fin x, PInf => inf_of_sign x
  | Fin x, NInf => inf_of_sign (- x)
  | PInf, Fin y => inf_of_sign y
  | NInf, Fin y => inf_of_sign (- y)
  | PInf, PInf => PInf
  | NInf, NInf => PInf
  | PInf, NInf => NInf
  | NInf, PInf => NInf
  end.

Definition ddiv (a b : double) : double :=
  match a, b with
  | NaN, _ => NaN
  | _, NaN => NaN
  | Fin x, Fin y =>
      match Rcompare y 0 with
      | Eq => inf_of_sign x
      | _ => Fin (x / y)
      end
  | Fin _, _ => Fin 0
  | PInf, Fin y => match Rcompare y 0 with Lt => NInf | _ => PInf end
  | NInf, Fin y => match Rcompare y 0 with Lt => PInf | _ => NInf end
  | _, _ => NaN
  end.

Definition dfabs (a : double) : double :=
  match a with
  | Fin x => Fin (Rabs x)
  | PInf => PInf
  | NInf => PInf
  | NaN => NaN
  end.

Definition dsqrt (a : double) : double :=
  match a with
  | Fin x => match Rcompare x 0 with Lt => NaN | _ => Fin (sqrt x) end
  | PInf => PInf
  | _ => NaN
  end.

Definition dsin (a : double) : double :=
  match a with Fin x => Fin (sin x) | _ => NaN end.

Definition dcos (a : double) : double :=
  match a with Fin x => Fin (cos x) | _ => NaN end.

(** [atan2(y, x)], with the results C (Annex F) gives at infinities. *)
Definition datan2 (y x : double) : double :=
  match y, x with
  | NaN, _ => NaN
  | _, NaN => NaN
  | Fin y, Fin x =>
      match Rcompare x 0 with
      | Gt => Fin (atan (y / x))
      | Lt => match Rcompare y 0 with
              | Lt => Fin (atan (y / x) - PI)
              | _ => Fin (atan (y / x) + PI)
              end
      | Eq => match Rcompare y 0 with
              | Gt => Fin (PI / 2)
              | Lt => Fin (- PI / 2)
              | Eq => Fin 0
              end
      end
  | Fin _, PInf => Fin 0
  | Fin y, NInf => match Rcompare y 0 with Lt => Fin (- PI) | _ => Fin PI end
  | PInf, Fin _ => Fin (PI / 2)
  | NInf, Fin _ => Fin (- PI / 2)
  | PInf, PInf => Fin (PI / 4)
  | PInf, NInf => Fin (3 * PI / 4)
  | NInf, PInf => Fin (- PI / 4)
  | NInf, NInf => Fin (- 3 * PI / 4)
  end.

Definition dlog10 (a : double) : double :=
  match a with
  | Fin x => match Rcompare x 0 with
             | Gt => Fin (ln x / ln 10)
             | Eq => NInf
             | Lt => NaN
             end
  | PInf => PInf
  | _ => NaN
  end.

Definition dfloor (a : double) : double :=
  match a with
  | Fin x => Fin (IZR (Zfloor x))
  | _ => a
  end.

(** Round to the nearest integer, ties to even (the default rounding
    direction, used by [lrint] and by [printf]). *)
Definition round_half_even (x : R) : Z :=
  let f := Zfloor x in
  match Rcompare (x - IZR f) (1 / 2) with
  | Lt => f
  | Gt => (f + 1)%Z
  | Eq => if Z.even f then f else (f + 1)%Z
  end.

(** [lrint]: for a value that is not finite the C result is unspecified;
    x86-64 returns [LONG_MIN]. *)
Definition lrint (a : double) : Z :=
  match a with
  | Fin x => round_half_even x
  | _ => (- 2 ^ 63)%Z
  end.

(** [modf(value, &display)]: the pair (fractional part, integral part), the
    integral part being [value] truncated toward zero. *)
Definition dmodf (a : double) : double * double :=
  match a with
  | Fin x =>
      let ip := match Rcompare x 0 with
                | Lt => IZR (Zceil x)
                | _ => IZR (Zfloor x)
                end in
      (Fin (x - ip), Fin ip)
  | NaN => (NaN, NaN)
  | _ => (Fin 0, a)
  end.

(** [pow(10.0, n)] for an [int] n, the only use [eng] makes of [pow]. *)
Definition pow10 (n : Z) : double := Fin (powerRZ 10 n).

Definition M_PI : double := Fin PI.

Definition DBL_MIN : R := powerRZ 2 (-1022).
Definition DBL_MAX : R := (2 - powerRZ 2 (-52)) * powerRZ 2 1023.

(** [isnormal]: finite, not zero, and of a magnitude in the normal range. *)
Definition isnormal (a : double) : bool :=
  match a with
  | Fin x =>
      match Rcompare (Rabs x) DBL_MIN, Rcompare (Rabs x) DBL_MAX with
      | Lt, _ => false
      | _, Gt => false
      | _, _ => true
      end
  | _ => false
  end.

Definition isfinite (a : double) : bool :=
  match a with Fin _ => true | _ => false end.

End Dbl.

Export Dbl.

(** ** What [printf] and [snprintf] write *)

Local Open Scope string_scope.

Fixpoint zeros (n : nat) : string :=
  match n with
  | O => ""
  | S k => String "0" (zeros k)
  end.

(** Decimal digits of a natural number given as a [Z]. *)
Definition dec (n : Z) : string := NilZero.string_of_int (Z.to_int n).

(** ["%d"] *)
Definition fmt_d (n : Z) : string := dec n.

(** The digits of the integer [n = round (|x| * 10^p)] laid out with [p]
    digits after the point. *)
Definition fixed (p : Z) (n : Z) : string :=
  if (p =? 0)%Z then dec n
  else
    let q := (n / 10 ^ p)%Z in
    let r := (n mod 10 ^ p)%Z in
    dec q ++ "." ++ zeros (Z.to_nat p - String.length (dec r)) ++ dec r.

(** ["%.*f"] with precision argument [prec]: a negative precision counts as
    omitted, which means 6 digits. *)
Definition fmt_f (prec : Z) (a : double) : string :=
  match a with
  | Fin x =>
      let p := if (prec <? 0)%Z then 6%Z else prec in
      let n := round_half_even (Rabs x * powerRZ 10 p) in
      (match Rcompare x 0 with Lt => "-" | _ => "" end) ++ fixed p n
  | PInf => "inf"
  | NInf => "-inf"
  | NaN => "nan"
  end.

(** [snprintf(result, rlen, ...)] where the directives produce [text]: at most
    [rlen - 1] characters are stored; nothing is stored for [rlen = 0], and
    the buffer keeps its content.  [rlen] is a [char] converted to [size_t]:
    a negative one becomes a huge bound. *)
Definition snprintf (result : string) (rlen : Z) (text : string) : string :=
  if (rlen =? 0)%Z then result
  else if (rlen <? 0)%Z then text
  else substring 0 (Z.to_nat (rlen - 1)) text.

(** ** The formatter [eng] *)

Definition PREFIX_START : Z := (-24)%Z.

Definition prefix : list string :=
  [ "y"; "z"; "a"; "f"; "p"; "n"; "u"; "m"; "";
    "k"; "M"; "G"; "T"; "P"; "E"; "Z"; "Y" ].

Definition PREFIX_END : Z :=
  (PREFIX_START + (Z.of_nat (List.length prefix) - 1) * 3)%Z.

(** How a call ends: normally with a value, by a failed [assert] (the
    process aborts), or in undefined behaviour (a read outside [prefix]). *)
Inductive outcome (A : Type) : Type :=
| Ok (a : A)
| Abort
| Undefined.

Arguments Ok {A} a.
Arguments Abort {A}.
Arguments Undefined {A}.

(** [prefix[i]] *)
Definition prefix_at (i : Z) : outcome string :=
  if (i <? 0)%Z then Undefined
  else match nth_error prefix (Z.to_nat i) with
       | Some s => Ok s
       | None => Undefined
       end.

(** The state of [eng] when it reaches the final [if]: the sign text, the
    mantissa [value], the exponent [expof10] and the adjusted [digits]. *)
Record eng_state : Type := Eng_state {
  es_sign : string;
  es_value : double;
  es_expof10 : Z;
  es_digits : Z
}.

(** Lines 92-97: sign and magnitude. *)
Definition eng_sign (value : double) : string * double :=
  if dlt value (Fin 0) then ("-", dneg value) else ("", value).

(** Lines 100-106: round to [digits] significant digits.  Returns the
    exponent [expof10] and the rounded [value]. *)
Definition eng_round (value : double) (digits : Z) : Z * double :=
  let expof10 := lrint (dfloor (dlog10 value)) in
  let value := dmul value (pow10 (digits - 1 - expof10)) in
  let (fract, display) := dmodf value in
  let display := if dge fract (Fin (1 / 2)) then dadd display (Fin 1)
                 else display in
  (expof10, dmul display (pow10 (expof10 - digits + 1))).

(** Lines 109-112: the exponent snapped to a multiple of 3 ([/] of C
    truncates, as [Z.quot]). *)
Definition eng_align (expof10 : Z) : Z :=
  if (expof10 >? 0)%Z then ((expof10 ÷ 3) * 3)%Z
  else (((- expof10 + 3) ÷ 3) * (-3))%Z.

(** Lines 114-122: mantissa for the aligned exponent, carry, digit count. *)
Definition eng_carry (sign : string) (value : double) (expof10 digits : Z)
  : eng_state :=
  let value := dmul value (pow10 (- expof10)) in
  if dge value (Fin 1000) then
    Eng_state sign (ddiv value (Fin 1000)) (expof10 + 3) digits
  else if dge value (Fin 100) then
    Eng_state sign value expof10 (digits - 2)
  else if dge value (Fin 10) then
    Eng_state sign value expof10 (digits - 1)
  else
    Eng_state sign value expof10 digits.

Definition eng_prepare (value : double) (digits : Z) : eng_state :=
  let (sign, value) := eng_sign value in
  let (expof10, value) := eng_round value digits in
  eng_carry sign value (eng_align expof10) digits.

(** The condition of line 124. *)
Definition use_exponent (numeric : Z) (expof10 : Z) : bool :=
  negb (numeric =? 0)%Z || (expof10 <? PREFIX_START)%Z
  || (expof10 >? PREFIX_END)%Z.

(** Lines 124-128: the text the chosen format directive produces. *)
Definition eng_text (numeric : Z) (s : eng_state) : outcome string :=
  if use_exponent numeric (es_expof10 s) then
    Ok (es_sign s ++ fmt_f (es_digits s - 1) (es_value s) ++ "e"
        ++ fmt_d (es_expof10 s))
  else
    match prefix_at ((es_expof10 s - PREFIX_START) ÷ 3) with
    | Ok p => Ok (es_sign s ++ fmt_f (es_digits s - 1) (es_value s) ++ " "
                  ++ p)
    | Abort => Abort
    | Undefined => Undefined
    end.

(** [eng(value, digits, numeric, result, rlen)]: the content of [result]
    when the call returns. *)
Definition eng (value : double) (digits : Z) (numeric : Z)
  (result : string) (rlen : Z) : outcome string :=
  if isnormal value then
    match eng_text numeric (eng_prepare value digits) with
    | Ok text => Ok (snprintf result rlen text)
    | Abort => Abort
    | Undefined => Undefined
    end
  else Abort.

(** ** The program [main] *)

(** One call of [printf] (or of [fprintf(stderr, ...)]): the format string,
    spelled as in the source, and the values of its arguments. *)
Inductive arg : Type :=
| AStr (s : string)
| ADbl (d : double).

Inductive line : Type :=
| Printf (fmt : string) (args : list arg)
| Eprintf (fmt : string).

(** A run of a piece of [main]: what was printed, and how the piece ended
    ([Exited] is a call of [exit]). *)
Inductive ending (A : Type) : Type :=
| Returns (a : A)
| Aborted
| Exited (status : Z)
| Undef.

Arguments Returns {A} a.
Arguments Aborted {A}.
Arguments Exited {A} status.
Arguments Undef {A}.

Definition run (A : Type) : Type := list line * ending A.

Definition ret {A : Type} (a : A) : run A := ([], Returns a).

Definition bind {A B : Type} (m : run A) (k : A -> run B) : run B :=
  match m with
  | (out, Returns a) => let (out', e) := k a in ((out ++ out')%list, e)
  | (out, Aborted) => (out, Aborted)
  | (out, Exited s) => (out, Exited s)
  | (out, Undef) => (out, Undef)
  end.

Notation "x <- m ;; k" := (bind m (fun x => k))
  (at level 61, m at next level, right associativity).
Notation "m ;;; k" := (bind m (fun _ => k))
  (at level 61, right associativity).

Definition printf (fmt : string) (args : list arg) : run unit :=
  ([Printf fmt args], Returns tt).

Definition call {A : Type} (o : outcome A) : run A :=
  match o with
  | Ok a => ([], Returns a)
  | Abort => ([], Aborted)
  | Undefined => ([], Undef)
  end.

Definition EXIT_SUCCESS : Z := 0%Z.
Definition EXIT_FAILURE : Z := 1%Z.

Definition usage {A : Type} : run A :=
  ([Eprintf "usage: comp [-r resistor_val] freq delta_t V_in V_dut\n";
    Eprintf "  delta_t: time from V_dut to V_in zero crossings\n"],
   Exited EXIT_FAILURE).

(** The values [main] computes in lines 172-192. *)
Record quantities : Type := Quantities {
  q_theta : double;
  q_phi : double;
  q_Z : double;
  q_Resr : double;
  q_X : double;
  q_Q : double
}.

Definition two_pi : double := dmul (Fin 2) M_PI.

(** Line 172. *)
Definition theta_of (freq delta_t : double) : double :=
  dmul (dmul two_pi freq) delta_t.

(** Line 173: the phase before it is clamped. *)
Definition phi_raw (theta V_in V_dut : double) : double :=
  dsub theta
    (datan2 (dmul (dneg V_dut) (dsin theta))
            (dsub V_in (dmul V_dut (dcos theta)))).

Definition fudge : double := Fin (1 / 10 ^ 15).

(** Lines 178-187. *)
Definition clamp_phi (phi : double) : run double :=
  phi <- (if dlt phi (ddiv (dneg M_PI) (Fin 2)) then
            printf "  **Warning: phi < -pi/2 by %le rad.\n"
                   [ADbl (dadd phi (ddiv M_PI (Fin 2)))] ;;;
            printf "  ** Setting it to -pi/2\n" [] ;;;
            ret (dadd (ddiv (dneg M_PI) (Fin 2)) fudge)
          else ret phi) ;;
  if dgt phi (ddiv M_PI (Fin 2)) then
    printf "  **Warning: phi > pi/2 by %le rad.\n"
           [ADbl (dsub phi (ddiv M_PI (Fin 2)))] ;;;
    printf "  ** Setting it to pi/2\n" [] ;;;
    ret (dsub (ddiv M_PI (Fin 2)) fudge)
  else ret phi.

(** Line 189. *)
Definition Z_of (Rref theta V_in V_dut : double) : double :=
  ddiv (dmul V_dut Rref)
    (dsqrt (dadd (dsub (dmul V_in V_in)
                       (dmul (dmul (dmul (Fin 2) V_in) V_dut) (dcos theta)))
                 (dmul V_dut V_dut))).

(** Lines 172-192. *)
Definition compute (Rref freq delta_t V_in V_dut : double) : run quantities :=
  let theta := theta_of freq delta_t in
  let phi := phi_raw theta V_in V_dut in
  phi <- clamp_phi phi ;;
  let Z := Z_of Rref theta V_in V_dut in
  let Resr := dmul Z (dcos phi) in
  let X := dmul Z (dsin phi) in
  let Q := ddiv (dfabs X) Resr in
  ret (Quantities theta phi Z Resr X Q).

(** The buffer [res] of [main] has 32 bytes; every call of [eng] in [main]
    asks for 4 digits and prefixes. *)
Definition eng4 (value : double) (res : string) : run string :=
  call (eng value 4 0 res 32).

(** [1 + 1/Q/Q] *)
Definition one_plus_inv_Q2 (Q : double) : double :=
  dadd (Fin 1) (ddiv (ddiv (Fin 1) Q) Q).

Definition Ls_of (X freq : double) : double := ddiv X (dmul two_pi freq).

Definition Cs_of (X freq : double) : double :=
  ddiv (Fin (-1)) (dmul (dmul two_pi freq) X).

(** Lines 197-205. *)
Definition report_reactive (freq : double) (q : quantities) (res : string)
  : run string :=
  if dgt (q_phi q) (Fin 0) then
    let Ls := Ls_of (q_X q) freq in
    res <- eng4 Ls res ;;
    printf "  Ls: %sH\n" [AStr res] ;;;
    res <- eng4 (dmul Ls (one_plus_inv_Q2 (q_Q q))) res ;;
    printf "  Lp: %sH\n" [AStr res] ;;;
    ret res
  else
    let Cs := Cs_of (q_X q) freq in
    res <- eng4 Cs res ;;
    printf "  Cs: %sF\n" [AStr res] ;;;
    res <- eng4 (ddiv Cs (one_plus_inv_Q2 (q_Q q))) res ;;
    printf "  Cp: %sF\n" [AStr res] ;;;
    ret res.

(** Lines 163-211, from the parsed arguments on.  [res] is the content of
    the buffer when [main] starts. *)
Definition main_body (Rref freq delta_t V_in V_dut : double) (res : string)
  : run Z :=
  printf "Inputs:\n" [] ;;;
  res <- eng4 Rref res ;;
  printf "  Rref: %sOhms\n" [AStr res] ;;;
  res <- eng4 freq res ;;
  printf "  freq: %sHz\n" [AStr res] ;;;
  res <- eng4 delta_t res ;;
  printf "  delta_t: %sSec\n" [AStr res] ;;;
  res <- eng4 V_in res ;;
  printf "  V_in: %sV\n" [AStr res] ;;;
  res <- eng4 V_dut res ;;
  printf "  V_dut: %sV\n" [AStr res] ;;;
  printf "Outputs:\n" [] ;;;
  q <- compute Rref freq delta_t V_in V_dut ;;
  printf "  theta: %lf rad (%lf deg)\n"
    [ADbl (q_theta q); ADbl (ddiv (dmul (q_theta q) (Fin 360)) two_pi)] ;;;
  printf "  phi: %lf rad (%lf deg)\n"
    [ADbl (q_phi q); ADbl (ddiv (dmul (q_phi q) (Fin 360)) two_pi)] ;;;
  res <- eng4 (q_Z q) res ;;
  printf "  Z: %sOhms\n" [AStr res] ;;;
  res <- report_reactive freq q res ;;
  res <- eng4 (q_Resr q) res ;;
  printf "  Rs (Resr): %sOhms\n" [AStr res] ;;;
  res <- eng4 (dmul (q_Resr q) (dadd (Fin 1) (dmul (q_Q q) (q_Q q)))) res ;;
  printf "  Rp: %sOhms\n" [AStr res] ;;;
  res <- eng4 (q_X q) res ;;
  printf "  X: %sOhms\n" [AStr res] ;;;
  printf "  Q: %lf\n" [ADbl (q_Q q)] ;;;
  ret EXIT_SUCCESS.

Section Main.

(** [atof] of the C library. *)
Variable atof : string -> double.

(** [strncmp(s, "-r", 2) == 0] *)
Definition is_dash_r (s : string) : bool :=
  String.eqb (substring 0 2 s) "-r".

(** [main(argc, argv)], with [argc] the length of [argv]; [res] is not
    initialised, its first content is arbitrary. *)
Definition main (argv : list string) (res : string) : run Z :=
  let argc := Z.of_nat (List.length argv) in
  let arg i := nth i argv "" in
  st <- (if (argc =? 7)%Z then
           if is_dash_r (arg 1%nat) then ret (3%nat, atof (arg 2%nat))
           else usage
         else ret (1%nat, Fin (9923 / 10))) ;;
  let (option_index, Rref) := (st : nat * double) in
  if negb (argc - Z.of_nat option_index =? 4)%Z then usage
  else
    main_body Rref (atof (arg option_index))
      (atof (arg (option_index + 1)%nat))
      (atof (arg (option_index + 2)%nat))
      (atof (arg (option_index + 3)%nat)) res.

End Main.

(** * Vocabulary of the properties *)

(** ** What [main] computes and prints *)

(** The quantities [compute] returns when the clamped phase is [ph]. *)
Definition quantities_at (Rref freq delta_t V_in V_dut ph : double)
  : quantities :=
  let th := theta_of freq delta_t in
  let z := Z_of Rref th V_in V_dut in
  Quantities th ph z (dmul z (dcos ph)) (dmul z (dsin ph))
    (ddiv (dfabs (dmul z (dsin ph))) (dmul z (dcos ph))).




(** The values that [main] hands to [eng], in the order of the calls
    (lines 164-168 and 196-208). *)
Definition formatted (Rref freq delta_t V_in V_dut : double)
  (q : quantities) : list double :=
  [Rref; freq; delta_t; V_in; V_dut; q_Z q]
  ++ (if dgt (q_phi q) (Fin 0) then
        [Ls_of (q_X q) freq;
         dmul (Ls_of (q_X q) freq) (one_plus_inv_Q2 (q_Q q))]
      else
        [Cs_of (q_X q) freq;
         ddiv (Cs_of (q_X q) freq) (one_plus_inv_Q2 (q_Q q))])
  ++ [q_Resr q;
      dmul (q_Resr q) (dadd (Fin 1) (dmul (q_Q q) (q_Q q)));
      q_X q].

(** ** The steps of [eng] on real numbers *)

(** [floor(log10(a))] *)
Definition ilog10 (a : R) : Z := Zfloor (ln a / ln 10).

(** Rounding to the nearest integer, a tie going up. *)
Definition round_half_up (s : R) : Z := Zfloor (s + 1 / 2).

Definition sign_text (v : R) : string :=
  match Rcompare v 0 with Lt => "-" | _ => "" end.

(** The rounded magnitude of lines 100-106 for the magnitude [a]. *)
Definition rounded (a : R) (digits : Z) : R :=
  IZR (round_half_up (a * powerRZ 10 (digits - 1 - ilog10 a)))
  * powerRZ 10 (ilog10 a - digits + 1).

(** ** Partial sums of the sine and cosine series *)

(** Partial sum of the alternating series whose first term is [t] and
    whose next term is [- t * x2 / ((d + 1) * (d + 2))]: the cosine series
    for [d = 0], [t = 1], the sine series for [d = 1], [t = x]. *)
Fixpoint tsum (x2 d t : R) (n : nat) : R :=
  match n with
  | O => t
  | S n' => t + tsum x2 (d + 2) (- t * x2 / ((d + 1) * (d + 2))) n'
  end.

(** ** The worked example of the source header

    [./comp_L -r 327.8 1e3 217e-6 8.81 0.17827]: Rref = 327.8 Ohms,
    freq = 1 kHz, delta_t = 217 us, V_in = 8.81 V, V_dut = 0.17827 V.  The
    real numbers that lines 172-207 compute from these inputs. *)

(** Line 172. *)
Definition ex_theta : R := 2 * PI * 1000 * (217 / 1000000).

(** [pi/2 - theta], a small angle. *)
Definition ex_beta : R := 66 / 1000 * PI.

(** Line 173: the second argument of [atan2], and the quotient of the
    first by the second, sign dropped. *)
Definition ex_x : R := 881 / 100 - 17827 / 100000 * cos ex_theta.

Definition ex_u : R := 17827 / 100000 * sin ex_theta / ex_x.

Definition ex_phi : R :=
  ex_theta - atan (- (17827 / 100000) * sin ex_theta / ex_x).

(** Line 189: the argument of [sqrt], and Z. *)
Definition ex_S : R :=
  881 / 100 * (881 / 100) - 2 * (881 / 100) * (17827 / 100000) * cos ex_theta
  + 17827 / 100000 * (17827 / 100000).

Definition ex_Z : R := 17827 / 100000 * (3278 / 10) / sqrt ex_S.

(** Lines 190-192. *)
Definition ex_Resr : R := ex_Z * cos ex_phi.

Definition ex_X : R := ex_Z * sin ex_phi.

Definition ex_Q : R := Rabs ex_X / ex_Resr.

(** Lines 198, 200 and 207. *)
Definition ex_Ls : R := ex_X / (2 * PI * 1000).

Definition ex_Lp : R := ex_Ls * (1 + 1 / ex_Q / ex_Q).

Definition ex_Rp : R := ex_Resr * (1 + ex_Q * ex_Q).

(** * Properties *)

(** ** Comparisons *)

Lemma Rcompare_Lt (x y : R) : x < y -> Rcompare x y = Lt.
Proof.
  intros H. unfold Rcompare.
  destruct (total_order_T x y) as [[H1 | H1] | H1]; try reflexivity; lra.
Qed.

Lemma Rcompare_Eq (x y : R) : x = y -> Rcompare x y = Eq.
Proof.
  intros H. unfold Rcompare.
  destruct (total_order_T x y) as [[H1 | H1] | H1]; try reflexivity; lra.
Qed.

Lemma Rcompare_Gt (x y : R) : y < x -> Rcompare x y = Gt.
Proof.
  intros H. unfold Rcompare.
  destruct (total_order_T x y) as [[H1 | H1] | H1]; try reflexivity; lra.
Qed.

Lemma Rcompare_spec (x y : R) :
  CompareSpec (x = y) (x < y) (y < x) (Rcompare x y).
Proof.
  unfold Rcompare.
  destruct (total_order_T x y) as [[H1 | H1] | H1]; constructor; assumption.
Qed.

Lemma dlt_Fin (x y : R) : dlt (Fin x) (Fin y) = true <-> x < y.
Proof.
  unfold dlt, dcompare. destruct (Rcompare_spec x y); split; intros;
    try reflexivity; try discriminate; lra.
Qed.

Lemma dgt_Fin (x y : R) : dgt (Fin x) (Fin y) = true <-> y < x.
Proof.
  unfold dgt, dcompare. destruct (Rcompare_spec x y); split; intros;
    try reflexivity; try discriminate; lra.
Qed.

Lemma dle_Fin (x y : R) : dle (Fin x) (Fin y) = true <-> x <= y.
Proof.
  unfold dle, dcompare. destruct (Rcompare_spec x y); split; intros;
    try reflexivity; try discriminate; lra.
Qed.

Lemma dge_Fin (x y : R) : dge (Fin x) (Fin y) = true <-> y <= x.
Proof.
  unfold dge, dcompare. destruct (Rcompare_spec x y); split; intros;
    try reflexivity; try discriminate; lra.
Qed.

Lemma dlt_Fin_false (x y : R) : dlt (Fin x) (Fin y) = false <-> y <= x.
Proof.
  unfold dlt, dcompare. destruct (Rcompare_spec x y); split; intros;
    try reflexivity; try discriminate; lra.
Qed.

Lemma dgt_Fin_false (x y : R) : dgt (Fin x) (Fin y) = false <-> x <= y.
Proof.
  unfold dgt, dcompare. destruct (Rcompare_spec x y); split; intros;
    try reflexivity; try discriminate; lra.
Qed.

Lemma dge_Fin_false (x y : R) : dge (Fin x) (Fin y) = false <-> x < y.
Proof.
  unfold dge, dcompare. destruct (Rcompare_spec x y); split; intros;
    try reflexivity; try discriminate; lra.
Qed.

Lemma ddiv_Fin (x y : R) : y <> 0 -> ddiv (Fin x) (Fin y) = Fin (x / y).
Proof.
  intros H. unfold ddiv. destruct (Rcompare_spec y 0); try reflexivity.
  contradiction.
Qed.

Lemma ddiv_Fin_0 (x : R) : ddiv (Fin x) (Fin 0) = inf_of_sign x.
Proof. unfold ddiv. now rewrite Rcompare_Eq. Qed.

Lemma half_pi : ddiv M_PI (Fin 2) = Fin (PI / 2).
Proof. unfold M_PI. apply ddiv_Fin. lra. Qed.

Lemma neg_half_pi : ddiv (dneg M_PI) (Fin 2) = Fin (- PI / 2).
Proof. unfold M_PI. simpl dneg. apply ddiv_Fin. lra. Qed.

Lemma two_pi_Fin : two_pi = Fin (2 * PI).
Proof. reflexivity. Qed.

Lemma fudge_pos : 0 < 1 / 10 ^ 15.
Proof. apply Rdiv_lt_0_compat; [lra | apply pow_lt; lra]. Qed.

Lemma fudge_small : 1 / 10 ^ 15 < 1.
Proof.
  apply Rmult_lt_reg_r with (10 ^ 15); [apply pow_lt; lra | ].
  unfold Rdiv. rewrite Rmult_assoc, Rinv_l by (apply pow_nonzero; lra).
  lra.
Qed.

(** ** The clamp of phi (lines 178-187) *)

Lemma clamp_phi_low (p : double) :
  dlt p (Fin (- PI / 2)) = true ->
  clamp_phi p =
    ([Printf "  **Warning: phi < -pi/2 by %le rad.\n"
             [ADbl (dadd p (Fin (PI / 2)))];
      Printf "  ** Setting it to -pi/2\n" []],
     Returns (Fin (- PI / 2 + 1 / 10 ^ 15))).
Proof.
  intros H. unfold clamp_phi. rewrite neg_half_pi, half_pi, H.
  assert (Hle : dgt (Fin (- PI / 2 + 1 / 10 ^ 15)) (Fin (PI / 2)) = false).
  { apply dgt_Fin_false. pose proof PI2_1. pose proof fudge_small. lra. }
  cbv [bind printf ret app dadd fudge]. rewrite Hle. reflexivity.
Qed.

Lemma clamp_phi_high (p : double) :
  dgt p (Fin (PI / 2)) = true ->
  clamp_phi p =
    ([Printf "  **Warning: phi > pi/2 by %le rad.\n"
             [ADbl (dsub p (Fin (PI / 2)))];
      Printf "  ** Setting it to pi/2\n" []],
     Returns (Fin (PI / 2 - 1 / 10 ^ 15))).
Proof.
  intros H. unfold clamp_phi. rewrite neg_half_pi, half_pi.
  assert (Hlow : dlt p (Fin (- PI / 2)) = false).
  { destruct p as [x | | | ]; try reflexivity; try discriminate.
    apply dgt_Fin in H. apply dlt_Fin_false. pose proof PI_RGT_0. lra. }
  rewrite Hlow. cbv [bind printf ret app]. rewrite H.
  cbv [dsub dadd dneg fudge]. reflexivity.
Qed.

Lemma clamp_phi_inside (p : double) :
  dlt p (Fin (- PI / 2)) = false -> dgt p (Fin (PI / 2)) = false ->
  clamp_phi p = ([], Returns p).
Proof.
  intros H1 H2. unfold clamp_phi. rewrite neg_half_pi, half_pi, H1.
  cbv [bind ret app]. rewrite H2. reflexivity.
Qed.

Lemma dle_not_dgt (a b : double) : dle a b = true -> dgt a b = false.
Proof.
  unfold dgt, dle. destruct (dcompare a b) as [[ | | ] | ];
    try discriminate; reflexivity.
Qed.

Lemma dle_not_dlt (a b : double) : dle a b = true -> dlt b a = false.
Proof.
  destruct a as [x | | | ], b as [y | | | ]; try discriminate;
    try reflexivity.
  intros H. apply dle_Fin in H. apply dlt_Fin_false. lra.
Qed.

Lemma compute_clamp (Rref freq delta_t V_in V_dut : double)
  (w : list line) (ph : double) :
  clamp_phi (phi_raw (theta_of freq delta_t) V_in V_dut) = (w, Returns ph) ->
  compute Rref freq delta_t V_in V_dut =
    (w, Returns (quantities_at Rref freq delta_t V_in V_dut ph)).
Proof.
  intros H. unfold compute. cbv zeta. rewrite H. unfold bind, ret.
  rewrite app_nil_r. reflexivity.
Qed.

(** C2.  Whatever the inputs, [compute] returns (the clamp does not end the
    run).  When the raw phase is below -pi/2 (above pi/2) it prints the two
    advisory lines, the first one carrying the amount [phi + pi/2]
    ([phi - pi/2]) by which the phase is out of range, and goes on with
    [-pi/2 + 1e-15] ([pi/2 - 1e-15]), which lies strictly between -pi/2 and
    pi/2.  When the raw phase is inside [-pi/2, pi/2] nothing is printed
    and phi is the raw phase. *)
Theorem phi_clamp_spec (Rref freq delta_t V_in V_dut : double) :
  let p := phi_raw (theta_of freq delta_t) V_in V_dut in
  let q := quantities_at Rref freq delta_t V_in V_dut in
  (dlt p (Fin (- PI / 2)) = true ->
     compute Rref freq delta_t V_in V_dut =
       ([Printf "  **Warning: phi < -pi/2 by %le rad.\n"
                [ADbl (dadd p (Fin (PI / 2)))];
         Printf "  ** Setting it to -pi/2\n" []],
        Returns (q (Fin (- PI / 2 + 1 / 10 ^ 15))))
     /\ - PI / 2 < - PI / 2 + 1 / 10 ^ 15 < PI / 2)
  /\ (dgt p (Fin (PI / 2)) = true ->
     compute Rref freq delta_t V_in V_dut =
       ([Printf "  **Warning: phi > pi/2 by %le rad.\n"
                [ADbl (dsub p (Fin (PI / 2)))];
         Printf "  ** Setting it to pi/2\n" []],
        Returns (q (Fin (PI / 2 - 1 / 10 ^ 15))))
     /\ - PI / 2 < PI / 2 - 1 / 10 ^ 15 < PI / 2)
  /\ (dle (Fin (- PI / 2)) p = true -> dle p (Fin (PI / 2)) = true ->
     compute Rref freq delta_t V_in V_dut = ([], Returns (q p))).
Proof.
  intros p q. pose proof PI2_1. pose proof fudge_pos. pose proof fudge_small.
  repeat split.
  - apply compute_clamp, clamp_phi_low; assumption.
  - lra.
  - lra.
  - apply compute_clamp, clamp_phi_high; assumption.
  - lra.
  - lra.
  - intros. apply compute_clamp, clamp_phi_inside.
    + now apply dle_not_dlt.
    + now apply dle_not_dgt.
Qed.

(** The raw phase when [V_in - V_dut*cos(theta)] is positive: [atan2] is
    then the arc tangent of the quotient. *)
Lemma phi_raw_Fin_pos (t vi vd : R) :
  0 < vi - vd * cos t ->
  phi_raw (Fin t) (Fin vi) (Fin vd) =
    Fin (t - atan ((- vd * sin t) / (vi - vd * cos t))).
Proof.
  intros H. unfold phi_raw. cbv [dsin dcos dneg dmul dsub dadd datan2].
  rewrite Rcompare_Gt by lra. reflexivity.
Qed.

Lemma phi_clamp_spec_witness :
  let p := phi_raw (theta_of (Fin 1) (Fin (1 / 2))) (Fin 2) (Fin 1) in
  dgt p (Fin (PI / 2)) = true
  /\ compute (Fin 1000) (Fin 1) (Fin (1 / 2)) (Fin 2) (Fin 1) =
       ([Printf "  **Warning: phi > pi/2 by %le rad.\n"
                [ADbl (dsub p (Fin (PI / 2)))];
         Printf "  ** Setting it to pi/2\n" []],
        Returns (quantities_at (Fin 1000) (Fin 1) (Fin (1 / 2)) (Fin 2)
                   (Fin 1) (Fin (PI / 2 - 1 / 10 ^ 15)))).
Proof.
  intros p.
  assert (Hp : dgt p (Fin (PI / 2)) = true).
  { unfold p, theta_of. rewrite two_pi_Fin. cbv [dmul].
    replace (2 * PI * 1 * (1 / 2)) with PI by lra.
    rewrite phi_raw_Fin_pos by (rewrite cos_PI; lra).
    rewrite sin_PI. replace (- (1) * 0 / (2 - 1 * cos PI)) with 0 by
      (unfold Rdiv; ring).
    rewrite atan_0. apply dgt_Fin. pose proof PI_RGT_0. lra. }
  split; [exact Hp | ].
  exact (proj1 (proj1 (proj2
    (phi_clamp_spec (Fin 1000) (Fin 1) (Fin (1 / 2)) (Fin 2) (Fin 1))) Hp)).
Defined.

(** ** The inductive and the capacitive report (lines 197-205) *)

Lemma inf_of_sign_pos (x : R) : 0 < x -> inf_of_sign x = PInf.
Proof. intros. unfold inf_of_sign. now rewrite Rcompare_Gt. Qed.

Lemma inf_of_sign_neg (x : R) : x < 0 -> inf_of_sign x = NInf.
Proof. intros. unfold inf_of_sign. now rewrite Rcompare_Lt. Qed.

Lemma inf_of_sign_0 : inf_of_sign 0 = NaN.
Proof. unfold inf_of_sign. now rewrite Rcompare_Eq. Qed.

Lemma inf_of_sign_not_finite (x : R) : isfinite (inf_of_sign x) = false.
Proof. unfold inf_of_sign. now destruct (Rcompare x 0). Qed.





(** ** The impedance Z (line 189) *)

Lemma Z_of_Fin (r t vi vd : R) :
  0 < vi * vi - 2 * vi * vd * cos t + vd * vd ->
  Z_of (Fin r) (Fin t) (Fin vi) (Fin vd) =
    Fin (vd * r / sqrt (vi * vi - 2 * vi * vd * cos t + vd * vd)).
Proof.
  intros H. unfold Z_of. cbv [dmul dcos dsub dadd dneg dsqrt].
  fold (vi * vi - 2 * vi * vd * cos t).
  rewrite Rcompare_Gt by lra.
  apply ddiv_Fin. apply Rgt_not_eq. now apply sqrt_lt_R0.
Qed.

Lemma isnormal_finite (a : double) : isnormal a = true -> isfinite a = true.
Proof. destruct a; simpl; congruence. Qed.

Lemma eng_not_finite (value : double) (digits numeric : Z) (result : string)
  (rlen : Z) :
  isfinite value = false -> eng value digits numeric result rlen = Abort.
Proof.
  intros H. unfold eng. destruct (isnormal value) eqn:E; [ | reflexivity].
  apply isnormal_finite in E. congruence.
Qed.

(** With equal amplitudes and theta = 0 the square root of line 189 is
    zero, and Z is an infinity or a NaN. *)
Lemma ddiv_0_not_finite (n : double) : isfinite (ddiv n (Fin 0)) = false.
Proof.
  destruct n as [a | | | ]; try rewrite ddiv_Fin_0; unfold ddiv;
    rewrite ?Rcompare_Eq by reflexivity;
    auto using inf_of_sign_not_finite.
Qed.






(** ** A phase of exactly zero *)

(** [compute] always returns: no step of lines 172-192 can end the run. *)
Lemma clamp_phi_returns (p : double) :
  exists w ph, clamp_phi p = (w, Returns ph).
Proof.
  destruct (dlt p (Fin (- PI / 2))) eqn:E1.
  - rewrite (clamp_phi_low p E1). eauto.
  - destruct (dgt p (Fin (PI / 2))) eqn:E2.
    + rewrite (clamp_phi_high p E2). eauto.
    + rewrite (clamp_phi_inside p E1 E2). eauto.
Qed.

Lemma compute_returns (Rref freq delta_t V_in V_dut : double) :
  exists w ph,
    compute Rref freq delta_t V_in V_dut =
      (w, Returns (quantities_at Rref freq delta_t V_in V_dut ph)).
Proof.
  destruct (clamp_phi_returns (phi_raw (theta_of freq delta_t) V_in V_dut))
    as (w & ph & H).
  exists w, ph. now apply compute_clamp.
Qed.

Lemma Cs_of_zero_not_finite (freq : double) :
  isfinite (Cs_of (Fin 0) freq) = false.
Proof.
  unfold Cs_of. rewrite two_pi_Fin.
  destruct freq as [f | | | ]; cbv [dmul].
  - rewrite Rmult_0_r. apply ddiv_0_not_finite.
  - pose proof PI_RGT_0. rewrite inf_of_sign_pos by lra.
    rewrite inf_of_sign_0. reflexivity.
  - pose proof PI_RGT_0. rewrite inf_of_sign_neg by lra.
    replace (- 0) with 0 by ring. rewrite inf_of_sign_0. reflexivity.
  - reflexivity.
Qed.

Lemma Cs_of_NaN_not_finite (freq : double) :
  isfinite (Cs_of NaN freq) = false.
Proof. unfold Cs_of. now destruct (dmul two_pi freq). Qed.

(** C10.  When [compute] leaves a phase of exactly 0, the reactance
    X = Z*sin(phi) is exactly 0 (for a finite Z: a resistive reading), the
    test [phi > 0.0] fails, so the capacitive branch runs; there
    Cs = -1/(2 pi freq X) is a division by zero and is not finite, and
    [eng] on Cs fails its assertion: the report ends there, before it has
    printed anything.  The fudge of lines 181 and 186 is not applied, since
    no clamp took place. *)
Theorem zero_phase_breaks_Cs (Rref freq delta_t V_in V_dut : double)
  (w : list line) (q : quantities) (res : string) :
  compute Rref freq delta_t V_in V_dut = (w, Returns q) ->
  q_phi q = Fin 0 ->
  (isfinite (q_Z q) = true -> q_X q = Fin 0)
  /\ dgt (q_phi q) (Fin 0) = false
  /\ isfinite (Cs_of (q_X q) freq) = false
  /\ eng (Cs_of (q_X q) freq) 4 0 res 32 = Abort
  /\ report_reactive freq q res = ([], Aborted).
Proof.
  intros Hc Hphi.
  destruct (compute_returns Rref freq delta_t V_in V_dut) as (w' & ph & H).
  rewrite H in Hc. injection Hc as _ <-.
  unfold quantities_at in *. cbv [q_phi q_Z q_X] in *. subst ph.
  assert (Hgt : dgt (Fin 0) (Fin 0) = false) by (apply dgt_Fin_false; lra).
  assert (HX : forall z, dmul (Fin z) (dsin (Fin 0)) = Fin 0).
  { intros z. cbv [dsin dmul]. rewrite sin_0. f_equal. ring. }
  assert (HCs : isfinite
                  (Cs_of (dmul (Z_of Rref (theta_of freq delta_t) V_in V_dut)
                            (dsin (Fin 0))) freq) = false).
  { destruct (Z_of Rref (theta_of freq delta_t) V_in V_dut) as [z | | | ].
    - rewrite HX. apply Cs_of_zero_not_finite.
    - cbv [dsin dmul]. rewrite sin_0, inf_of_sign_0.
      apply Cs_of_NaN_not_finite.
    - cbv [dsin dmul]. rewrite sin_0. replace (- 0) with 0 by ring.
      rewrite inf_of_sign_0. apply Cs_of_NaN_not_finite.
    - apply Cs_of_NaN_not_finite. }
  pose proof (eng_not_finite _ 4%Z 0%Z res 32%Z HCs) as Heng.
  split.
  { destruct (Z_of Rref (theta_of freq delta_t) V_in V_dut) as [z | | | ];
      try discriminate. intros _. apply HX. }
  repeat split; try assumption.
  unfold report_reactive. cbv [q_phi q_X]. rewrite Hgt.
  unfold eng4. rewrite Heng. reflexivity.
Qed.

Lemma zero_phase_breaks_Cs_witness :
  let q := quantities_at (Fin 1000) (Fin 1000) (Fin 0) (Fin 2) (Fin 1)
             (Fin 0) in
  compute (Fin 1000) (Fin 1000) (Fin 0) (Fin 2) (Fin 1) = ([], Returns q)
  /\ q_phi q = Fin 0
  /\ isfinite (q_Z q) = true
  /\ q_X q = Fin 0
  /\ report_reactive (Fin 1000) q "" = ([], Aborted).
Proof.
  intros q.
  assert (Ht : theta_of (Fin 1000) (Fin 0) = Fin 0).
  { unfold theta_of. rewrite two_pi_Fin. cbv [dmul]. f_equal. ring. }
  assert (Hc : compute (Fin 1000) (Fin 1000) (Fin 0) (Fin 2) (Fin 1)
               = ([], Returns q)).
  { apply compute_clamp. rewrite Ht.
    rewrite phi_raw_Fin_pos by (rewrite cos_0; lra).
    rewrite sin_0.
    replace (0 - atan (- (1) * 0 / (2 - 1 * cos 0))) with 0.
    - apply clamp_phi_inside; [apply dlt_Fin_false | apply dgt_Fin_false];
        pose proof PI_RGT_0; lra.
    - replace (- (1) * 0 / (2 - 1 * cos 0)) with 0 by (unfold Rdiv; ring).
      rewrite atan_0. ring. }
  assert (HZ : isfinite (q_Z q) = true).
  { unfold q, quantities_at. cbv [q_Z]. rewrite Ht.
    rewrite Z_of_Fin by (rewrite cos_0; lra). reflexivity. }
  pose proof (zero_phase_breaks_Cs (Fin 1000) (Fin 1000) (Fin 0) (Fin 2)
                (Fin 1) [] q "" Hc eq_refl) as H.
  split; [exact Hc | ].
  split; [reflexivity | ].
  split; [exact HZ | ].
  split; [exact (proj1 H HZ) | exact (proj2 (proj2 (proj2 (proj2 H))))].
Defined.

(** ** Powers of ten and the decimal exponent *)

Lemma pow10_pos (n : Z) : 0 < powerRZ 10 n.
Proof. apply powerRZ_lt. lra. Qed.

Lemma pow10_add (n m : Z) :
  powerRZ 10 (n + m) = powerRZ 10 n * powerRZ 10 m.
Proof. apply powerRZ_add. lra. Qed.

Lemma pow10_le (n m : Z) : (n <= m)%Z -> powerRZ 10 n <= powerRZ 10 m.
Proof.
  intros H. rewrite !powerRZ_Rpower by lra.
  apply Rle_Rpower; [lra | now apply IZR_le].
Qed.

Lemma pow10_lt (n m : Z) : (n < m)%Z -> powerRZ 10 n < powerRZ 10 m.
Proof.
  intros H. rewrite !powerRZ_Rpower by lra.
  apply Rpower_lt; [lra | now apply IZR_lt].
Qed.

Lemma pow10_lt_inv (n m : Z) : powerRZ 10 n < powerRZ 10 m -> (n < m)%Z.
Proof.
  intros H. destruct (Z_lt_le_dec n m) as [Hlt | Hle]; [assumption | ].
  apply pow10_le in Hle. lra.
Qed.

(** A power of ten with a natural exponent is an integer. *)
Lemma pow10_IZR (n : Z) : (0 <= n)%Z -> powerRZ 10 n = IZR (10 ^ n).
Proof.
  intros H. rewrite <- (Z2Nat.id n H) at 1.
  rewrite <- pow_powerRZ, pow_IZR. now rewrite Z2Nat.id.
Qed.

Lemma ln_10_pos : 0 < ln 10.
Proof. rewrite <- ln_1. apply ln_increasing; lra. Qed.

Lemma ilog10_bounds (a : R) :
  0 < a -> powerRZ 10 (ilog10 a) <= a < powerRZ 10 (ilog10 a + 1).
Proof.
  intros Ha. pose proof ln_10_pos as H10.
  pose proof (Zfloor_bound (ln a / ln 10)) as [Hlo Hhi].
  fold (ilog10 a) in Hlo, Hhi.
  assert (Ea : a = Rpower 10 (ln a / ln 10)).
  { unfold Rpower. replace (ln a / ln 10 * ln 10) with (ln a) by
      (field; lra).
    now rewrite exp_ln. }
  rewrite !powerRZ_Rpower by lra. rewrite plus_IZR. split.
  - rewrite Ea at 2. apply Rle_Rpower; lra.
  - rewrite Ea at 1. apply Rpower_lt; lra.
Qed.

Lemma ilog10_unique (a : R) (k : Z) :
  powerRZ 10 k <= a < powerRZ 10 (k + 1) -> ilog10 a = k.
Proof.
  intros [Hlo Hhi].
  assert (Ha : 0 < a) by (pose proof (pow10_pos k); lra).
  destruct (ilog10_bounds a Ha) as [Hlo' Hhi'].
  assert (ilog10 a < k + 1)%Z by (apply pow10_lt_inv; lra).
  assert (k < ilog10 a + 1)%Z by (apply pow10_lt_inv; lra).
  lia.
Qed.

(** ** Rounding to [digits] significant digits (lines 100-106) *)

Lemma round_half_even_IZR (n : Z) : round_half_even (IZR n) = n.
Proof.
  unfold round_half_even. rewrite ZfloorZ.
  rewrite Rcompare_Lt by lra. reflexivity.
Qed.

Lemma round_half_up_bounds (s : R) :
  IZR (round_half_up s) - 1 / 2 <= s < IZR (round_half_up s) + 1 / 2.
Proof.
  unfold round_half_up. pose proof (Zfloor_bound (s + 1 / 2)). lra.
Qed.

Lemma round_half_up_unique (s : R) (n : Z) :
  IZR n - 1 / 2 <= s < IZR n + 1 / 2 -> round_half_up s = n.
Proof. intros H. unfold round_half_up. apply Zfloor_eq. lra. Qed.

(** What lines 103-104 leave in [display]. *)
Lemma modf_round (s : R) :
  0 < s ->
  (let (fract, display) := dmodf (Fin s) in
   if dge fract (Fin (1 / 2)) then dadd display (Fin 1) else display)
  = Fin (IZR (round_half_up s)).
Proof.
  intros Hs. unfold dmodf. rewrite Rcompare_Gt by lra.
  pose proof (Zfloor_bound s) as Hf.
  destruct (dge (Fin (s - IZR (Zfloor s))) (Fin (1 / 2))) eqn:E.
  - apply dge_Fin in E. cbv [dadd]. rewrite <- plus_IZR. do 2 f_equal.
    symmetry. apply round_half_up_unique. rewrite plus_IZR. lra.
  - apply dge_Fin_false in E. do 2 f_equal.
    symmetry. apply round_half_up_unique. lra.
Qed.

Lemma expof10_Fin (a : R) :
  0 < a -> lrint (dfloor (dlog10 (Fin a))) = ilog10 a.
Proof.
  intros Ha. unfold dlog10. rewrite Rcompare_Gt by lra.
  cbv [dfloor lrint]. apply round_half_even_IZR.
Qed.

Lemma eng_round_Fin (a : R) (digits : Z) :
  0 < a ->
  eng_round (Fin a) digits =
    (ilog10 a,
     Fin (IZR (round_half_up (a * powerRZ 10 (digits - 1 - ilog10 a)))
          * powerRZ 10 (ilog10 a - digits + 1))).
Proof.
  intros Ha. unfold eng_round. rewrite expof10_Fin by assumption.
  cbv [pow10]. cbv [dmul].
  set (s := a * powerRZ 10 (digits - 1 - ilog10 a)).
  assert (Hs : 0 < s).
  { apply Rmult_lt_0_compat; [assumption | apply pow10_pos]. }
  pose proof (modf_round s Hs) as H.
  destruct (dmodf (Fin s)) as [fract display]. rewrite H. reflexivity.
Qed.

(** ** Normal values *)

Lemma pow_base_IZR (b n : Z) : (0 <= n)%Z -> powerRZ (IZR b) n = IZR (b ^ n).
Proof.
  intros H. rewrite <- (Z2Nat.id n H) at 1.
  rewrite <- pow_powerRZ, pow_IZR. now rewrite Z2Nat.id.
Qed.

Lemma DBL_MIN_eq : DBL_MIN = / IZR (2 ^ 1022).
Proof.
  unfold DBL_MIN. change (-1022)%Z with (Z.opp 1022).
  rewrite powerRZ_neg'. now rewrite pow_base_IZR by lia.
Qed.

Lemma DBL_MAX_eq : DBL_MAX = IZR (2 ^ 1024 - 2 ^ 971).
Proof.
  unfold DBL_MAX. change (-52)%Z with (Z.opp 52). rewrite powerRZ_neg'.
  change 1023%Z with (52 + 971)%Z. rewrite powerRZ_add by lra.
  rewrite !pow_base_IZR by lia.
  change (2 ^ 1024 - 2 ^ 971)%Z with (2 * 2 ^ 52 * 2 ^ 971 - 2 ^ 971)%Z.
  rewrite minus_IZR, !mult_IZR.
  assert (IZR (2 ^ 52) <> 0) by (apply not_0_IZR; lia).
  field. assumption.
Qed.

Lemma DBL_MIN_pos : 0 < DBL_MIN.
Proof. unfold DBL_MIN. apply powerRZ_lt. lra. Qed.

Lemma isnormal_Fin (v : R) :
  isnormal (Fin v) = true <-> DBL_MIN <= Rabs v <= DBL_MAX.
Proof.
  unfold isnormal.
  destruct (Rcompare_spec (Rabs v) DBL_MIN);
    destruct (Rcompare_spec (Rabs v) DBL_MAX);
    split; intros; try reflexivity; try discriminate; lra.
Qed.

Lemma isnormal_inv (a : double) :
  isnormal a = true -> exists v, a = Fin v /\ DBL_MIN <= Rabs v <= DBL_MAX.
Proof.
  destruct a as [v | | | ]; try discriminate.
  intros H. exists v. split; [reflexivity | now apply isnormal_Fin].
Qed.

(** The doubles with a decimal exponent from -307 to 307 are normal. *)
Lemma decimal_range_normal (v : R) :
  powerRZ 10 (-307) <= Rabs v < powerRZ 10 308 -> isnormal (Fin v) = true.
Proof.
  intros [Hlo Hhi]. apply isnormal_Fin. split.
  - apply Rle_trans with (2 := Hlo). rewrite DBL_MIN_eq.
    change (-307)%Z with (Z.opp 307). rewrite powerRZ_neg'.
    rewrite pow_base_IZR by lia.
    apply Rinv_le_contravar; [apply IZR_lt; reflexivity | ].
    apply IZR_le. apply Z.leb_le. vm_compute. reflexivity.
  - apply Rlt_le. apply Rlt_le_trans with (1 := Hhi). rewrite DBL_MAX_eq.
    rewrite pow_base_IZR by lia.
    apply IZR_le. apply Z.leb_le. vm_compute. reflexivity.
Qed.

(** The decimal exponent of a normal double fits an [int] with room to
    spare. *)
Lemma normal_exponent_range (v : R) :
  isnormal (Fin v) = true -> (-308 <= ilog10 (Rabs v) <= 308)%Z.
Proof.
  intros H. apply isnormal_Fin in H. destruct H as [Hlo Hhi].
  pose proof DBL_MIN_pos.
  destruct (ilog10_bounds (Rabs v)) as [Elo Ehi]; [lra | ].
  assert (L : powerRZ 10 (-308) <= DBL_MIN).
  { rewrite DBL_MIN_eq. change (-308)%Z with (Z.opp 308).
    rewrite powerRZ_neg', pow_base_IZR by lia.
    apply Rinv_le_contravar; [apply IZR_lt; reflexivity | ].
    apply IZR_le. apply Z.leb_le. vm_compute. reflexivity. }
  assert (U : DBL_MAX < powerRZ 10 309).
  { rewrite DBL_MAX_eq, pow_base_IZR by lia.
    apply IZR_lt. apply Z.ltb_lt. vm_compute. reflexivity. }
  assert (- 308 < ilog10 (Rabs v) + 1)%Z by (apply pow10_lt_inv; lra).
  assert (ilog10 (Rabs v) < 309)%Z by (apply pow10_lt_inv; lra).
  lia.
Qed.

(** ** Sign and magnitude (lines 92-97) *)

Lemma eng_sign_Fin (v : R) : eng_sign (Fin v) = (sign_text v, Fin (Rabs v)).
Proof.
  unfold eng_sign, sign_text, dlt, dcompare.
  destruct (Rcompare_spec v 0); cbv [dneg]; f_equal; f_equal.
  - subst v. now rewrite Rabs_R0.
  - now rewrite Rabs_left.
  - rewrite Rabs_pos_eq; lra.
Qed.

Lemma eng_prepare_Fin (v : R) (digits : Z) :
  0 < Rabs v ->
  eng_prepare (Fin v) digits =
    eng_carry (sign_text v) (Fin (rounded (Rabs v) digits))
      (eng_align (ilog10 (Rabs v))) digits.
Proof.
  intros H. unfold eng_prepare. rewrite eng_sign_Fin.
  rewrite eng_round_Fin by assumption. reflexivity.
Qed.

Lemma scaled_range (a : R) (digits : Z) :
  0 < a ->
  powerRZ 10 (digits - 1) <= a * powerRZ 10 (digits - 1 - ilog10 a)
  < powerRZ 10 digits.
Proof.
  intros Ha. destruct (ilog10_bounds a Ha) as [Hlo Hhi].
  set (e := ilog10 a) in *.
  pose proof (pow10_pos (digits - 1 - e)) as Hp.
  assert (E1 : powerRZ 10 (digits - 1)
               = powerRZ 10 e * powerRZ 10 (digits - 1 - e)).
  { rewrite <- pow10_add. f_equal. lia. }
  assert (E2 : powerRZ 10 digits
               = powerRZ 10 (e + 1) * powerRZ 10 (digits - 1 - e)).
  { rewrite <- pow10_add. f_equal. lia. }
  rewrite E1, E2. split.
  - apply Rmult_le_compat_r; lra.
  - apply Rmult_lt_compat_r; lra.
Qed.

(** The rounded scaled magnitude has [digits] digits, or is [10^digits]. *)
Lemma round_half_up_digits (a : R) (digits : Z) :
  0 < a -> (1 <= digits)%Z ->
  (10 ^ (digits - 1)
   <= round_half_up (a * powerRZ 10 (digits - 1 - ilog10 a))
   <= 10 ^ digits)%Z.
Proof.
  intros Ha Hd. destruct (scaled_range a digits Ha) as [Hlo Hhi].
  set (s := a * powerRZ 10 (digits - 1 - ilog10 a)) in *.
  rewrite pow10_IZR in Hlo, Hhi by lia.
  pose proof (round_half_up_bounds s) as [Blo Bhi].
  split.
  - unfold round_half_up. apply Zfloor_lub. lra.
  - assert (IZR (round_half_up s) < IZR (10 ^ digits + 1)) by
      (rewrite plus_IZR; lra).
    apply lt_IZR in H. lia.
Qed.

Lemma rounded_range (a : R) (digits : Z) :
  0 < a -> (1 <= digits)%Z ->
  powerRZ 10 (ilog10 a) <= rounded a digits <= powerRZ 10 (ilog10 a + 1).
Proof.
  intros Ha Hd. unfold rounded.
  destruct (round_half_up_digits a digits Ha Hd) as [Hlo Hhi].
  apply IZR_le in Hlo, Hhi. rewrite <- !pow10_IZR in Hlo, Hhi by lia.
  set (e := ilog10 a) in *.
  pose proof (pow10_pos (e - digits + 1)) as Hp.
  assert (E1 : powerRZ 10 e
               = powerRZ 10 (digits - 1) * powerRZ 10 (e - digits + 1)).
  { rewrite <- pow10_add. f_equal. lia. }
  assert (E2 : powerRZ 10 (e + 1)
               = powerRZ 10 digits * powerRZ 10 (e - digits + 1)).
  { rewrite <- pow10_add. f_equal. lia. }
  rewrite E1, E2. split; apply Rmult_le_compat_r; lra.
Qed.

(** ** Decade alignment and carry (lines 109-122) *)

Lemma eng_align_spec (e : Z) :
  exists j : Z,
    eng_align e = (e - j)%Z /\ (eng_align e mod 3 = 0)%Z
    /\ ((0 < e /\ 0 <= j <= 2) \/ (e <= 0 /\ 1 <= j <= 3))%Z.
Proof.
  unfold eng_align. destruct (e >? 0)%Z eqn:E.
  - apply Z.gtb_lt in E. exists (Z.rem e 3).
    Z.quot_rem_to_equations. Z.div_mod_to_equations. lia.
  - assert (e <= 0)%Z by (destruct (Z.gtb_spec e 0); [discriminate | lia]).
    exists (3 - Z.rem (- e + 3) 3)%Z.
    Z.quot_rem_to_equations. Z.div_mod_to_equations. lia.
Qed.

Lemma pow10_small (j : Z) :
  (0 <= j <= 3)%Z ->
  (j = 0%Z /\ powerRZ 10 j = 1) \/ (j = 1%Z /\ powerRZ 10 j = 10)
  \/ (j = 2%Z /\ powerRZ 10 j = 100) \/ (j = 3%Z /\ powerRZ 10 j = 1000).
Proof.
  intros H.
  assert (C : j = 0%Z \/ j = 1%Z \/ j = 2%Z \/ j = 3%Z) by lia.
  destruct C as [-> | [-> | [-> | ->]]]; [left | right; left |
    right; right; left | right; right; right]; split; try reflexivity;
    simpl; lra.
Qed.

(** ** The prefix table (lines 62-72, 124-128) *)

Lemma PREFIX_END_eq : PREFIX_END = 24%Z.
Proof. reflexivity. Qed.

Lemma use_exponent_false (numeric expof10 : Z) :
  use_exponent numeric expof10 = false <->
  numeric = 0%Z /\ (-24 <= expof10 <= 24)%Z.
Proof.
  unfold use_exponent. rewrite PREFIX_END_eq. unfold PREFIX_START.
  rewrite !orb_false_iff, negb_false_iff, Z.eqb_eq, Z.ltb_ge.
  destruct (Z.gtb_spec expof10 24); intuition (try discriminate; try lia).
Qed.

Lemma prefix_at_defined (i : Z) :
  (0 <= i <= 16)%Z -> exists p, prefix_at i = Ok p.
Proof.
  intros H. unfold prefix_at.
  destruct (Z.ltb_spec i 0); [lia | ].
  destruct (nth_error prefix (Z.to_nat i)) as [p | ] eqn:E; [eauto | ].
  apply nth_error_None in E. simpl in E. lia.
Qed.

Lemma prefix_index_range (expof10 : Z) :
  (-24 <= expof10 <= 24)%Z ->
  (0 <= (expof10 - PREFIX_START) ÷ 3 <= 16)%Z.
Proof.
  intros H. unfold PREFIX_START. Z.quot_rem_to_equations. lia.
Qed.

Lemma eng_text_defined (numeric : Z) (s : eng_state) :
  exists text, eng_text numeric s = Ok text.
Proof.
  unfold eng_text. destruct (use_exponent numeric (es_expof10 s)) eqn:E;
    [eauto | ].
  apply use_exponent_false in E. destruct E as [_ E].
  destruct (prefix_at_defined _ (prefix_index_range _ E)) as [p Hp].
  rewrite Hp. eauto.
Qed.

(** [eng] on a normal value returns; its result is the formatted text cut
    to the buffer. *)
Lemma eng_normal (value : double) (digits numeric : Z) (result : string)
  (rlen : Z) :
  isnormal value = true ->
  exists text,
    eng_text numeric (eng_prepare value digits) = Ok text
    /\ eng value digits numeric result rlen = Ok (snprintf result rlen text).
Proof.
  intros H. destruct (eng_text_defined numeric (eng_prepare value digits))
    as [text Ht].
  exists text. split; [assumption | ]. unfold eng. now rewrite H, Ht.
Qed.

Lemma normal_decade (v : R) (k : Z) :
  (-307 <= k <= 307)%Z ->
  powerRZ 10 k <= Rabs v < powerRZ 10 (k + 1) -> isnormal (Fin v) = true.
Proof.
  intros Hk [Hlo Hhi]. apply decimal_range_normal. split.
  - apply Rle_trans with (2 := Hlo). apply pow10_le. lia.
  - apply Rlt_le_trans with (1 := Hhi). apply pow10_le. lia.
Qed.

(** ** Evaluating [eng] *)

Lemma eng_round_eval (a : R) (digits e D : Z) :
  powerRZ 10 e <= a < powerRZ 10 (e + 1) ->
  IZR D - 1 / 2 <= a * powerRZ 10 (digits - 1 - e) < IZR D + 1 / 2 ->
  eng_round (Fin a) digits = (e, Fin (IZR D * powerRZ 10 (e - digits + 1))).
Proof.
  intros He HD.
  assert (Ha : 0 < a) by (pose proof (pow10_pos e); lra).
  rewrite eng_round_Fin by assumption.
  rewrite (ilog10_unique a e He).
  now rewrite (round_half_up_unique _ D HD).
Qed.

(** A tie goes up: 2.5 at one digit becomes 3, where rounding to even
    would give 2. *)
Example eng_round_tie : eng_round (Fin (5 / 2)) 1 = (0%Z, Fin 3).
Proof.
  rewrite (eng_round_eval (5 / 2) 1 0 3) by (simpl; lra).
  do 2 f_equal. simpl. lra.
Qed.

Lemma eng_carry_1000 (sign : string) (r : R) (e digits : Z) :
  1000 <= r * powerRZ 10 (- e) ->
  eng_carry sign (Fin r) e digits =
    Eng_state sign (Fin (r * powerRZ 10 (- e) / 1000)) (e + 3) digits.
Proof.
  intros H. unfold eng_carry. cbv [pow10 dmul].
  apply dge_Fin in H. rewrite H. now rewrite ddiv_Fin by lra.
Qed.

Lemma eng_carry_100 (sign : string) (r : R) (e digits : Z) :
  100 <= r * powerRZ 10 (- e) < 1000 ->
  eng_carry sign (Fin r) e digits =
    Eng_state sign (Fin (r * powerRZ 10 (- e))) e (digits - 2).
Proof.
  intros [H1 H2]. unfold eng_carry. cbv [pow10 dmul].
  apply dge_Fin_false in H2. apply dge_Fin in H1. now rewrite H2, H1.
Qed.

Lemma eng_carry_10 (sign : string) (r : R) (e digits : Z) :
  10 <= r * powerRZ 10 (- e) < 100 ->
  eng_carry sign (Fin r) e digits =
    Eng_state sign (Fin (r * powerRZ 10 (- e))) e (digits - 1).
Proof.
  intros [H1 H2]. unfold eng_carry. cbv [pow10 dmul].
  assert (H3 : r * powerRZ 10 (- e) < 1000) by lra.
  apply dge_Fin_false in H2, H3. apply dge_Fin in H1.
  now rewrite H3, H2, H1.
Qed.

Lemma eng_carry_1 (sign : string) (r : R) (e digits : Z) :
  r * powerRZ 10 (- e) < 10 ->
  eng_carry sign (Fin r) e digits =
    Eng_state sign (Fin (r * powerRZ 10 (- e))) e digits.
Proof.
  intros H1. unfold eng_carry. cbv [pow10 dmul].
  assert (H2 : r * powerRZ 10 (- e) < 100) by lra.
  assert (H3 : r * powerRZ 10 (- e) < 1000) by lra.
  apply dge_Fin_false in H1, H2, H3. now rewrite H3, H2, H1.
Qed.

(** ["%.*f"] of a value that has no more than [prec] decimals. *)
Lemma fmt_f_exact (prec : Z) (x : R) (n : Z) :
  (0 <= prec)%Z -> 0 <= x -> x * powerRZ 10 prec = IZR n ->
  fmt_f prec (Fin x) = fixed prec n.
Proof.
  intros Hp Hx Hn. unfold fmt_f.
  destruct (Z.ltb_spec prec 0); [lia | ].
  rewrite Rabs_pos_eq, Hn, round_half_even_IZR by assumption.
  destruct (Rcompare_spec x 0); try reflexivity. lra.
Qed.

Lemma substring_all (s : string) (n : nat) :
  (String.length s <= n)%nat -> substring 0 n s = s.
Proof.
  revert n. induction s as [ | c s IH]; intros n H.
  - now destruct n.
  - destruct n as [ | n]; simpl in *; [lia | ].
    f_equal. apply IH. lia.
Qed.

(** A text shorter than the buffer is stored whole. *)
Lemma snprintf_fits (result : string) (rlen : Z) (text : string) :
  (Z.of_nat (String.length text) < rlen)%Z ->
  snprintf result rlen text = text.
Proof.
  intros H. unfold snprintf.
  destruct (Z.eqb_spec rlen 0); [lia | ].
  destruct (Z.ltb_spec rlen 0); [lia | ].
  apply substring_all. lia.
Qed.

(** [eng_prepare] at a positive [v] whose decade [e] and rounded digits [D]
    are known. *)
Lemma eng_prepare_pos (v : R) (digits e D : Z) :
  powerRZ 10 e <= v < powerRZ 10 (e + 1) ->
  IZR D - 1 / 2 <= v * powerRZ 10 (digits - 1 - e) < IZR D + 1 / 2 ->
  eng_prepare (Fin v) digits =
    eng_carry "" (Fin (IZR D * powerRZ 10 (e - digits + 1)))
      (eng_align e) digits.
Proof.
  intros He HD.
  assert (Hv : 0 < v) by (pose proof (pow10_pos e); lra).
  unfold eng_prepare. rewrite eng_sign_Fin.
  rewrite Rabs_pos_eq by lra. unfold sign_text. rewrite Rcompare_Gt by lra.
  now rewrite (eng_round_eval v digits e D He HD).
Qed.

(** [eng_prepare] at [- v]: the same state with the sign text ["-"]. *)
Lemma eng_prepare_neg (v : R) (digits : Z) :
  0 < v ->
  eng_prepare (Fin (- v)) digits =
    eng_carry "-" (Fin (rounded v digits)) (eng_align (ilog10 v)) digits
  /\ eng_prepare (Fin v) digits =
    eng_carry "" (Fin (rounded v digits)) (eng_align (ilog10 v)) digits.
Proof.
  intros Hv. split.
  - rewrite eng_prepare_Fin by (rewrite Rabs_Ropp, Rabs_pos_eq; lra).
    rewrite Rabs_Ropp, Rabs_pos_eq by lra.
    unfold sign_text. now rewrite Rcompare_Lt by lra.
  - rewrite eng_prepare_Fin by (rewrite Rabs_pos_eq; lra).
    rewrite Rabs_pos_eq by lra.
    unfold sign_text. now rewrite Rcompare_Gt by lra.
Qed.

Lemma eng_prepare_999960 :
  eng_prepare (Fin 999960) 3 = Eng_state "" (Fin 1) 6 3.
Proof.
  rewrite (eng_prepare_pos 999960 3 5 1000) by (simpl; lra).
  change (eng_align 5) with 3%Z.
  rewrite eng_carry_1000 by (simpl; lra).
  f_equal. f_equal. simpl. lra.
Qed.

Lemma normal_999960 : isnormal (Fin 999960) = true.
Proof.
  apply (normal_decade _ 5); [lia | ].
  rewrite Rabs_pos_eq by lra. simpl. lra.
Qed.

(** C4.  When the mantissa for the aligned exponent is 1000 or more,
    line 115 divides it by 1000 and adds 3 to the exponent.  999960 at 3
    digits rounds to 1000000, aligned to exponent 3 with mantissa 1000; the
    carry leaves mantissa 1 and exponent 6, and [eng] writes "1.00 M", or
    "1.00e6" in numeric mode, into any buffer that holds them. *)
Theorem carry_correction :
  (forall sign value expof10 digits,
     dge (dmul value (pow10 (- expof10))) (Fin 1000) = true ->
     eng_carry sign value expof10 digits =
       Eng_state sign (ddiv (dmul value (pow10 (- expof10))) (Fin 1000))
         (expof10 + 3) digits)
  /\ eng_round (Fin 999960) 3 = (5%Z, Fin 1000000)
  /\ eng_align 5 = 3%Z
  /\ dmul (Fin 1000000) (pow10 (- 3)) = Fin 1000
  /\ eng_prepare (Fin 999960) 3 = Eng_state "" (Fin 1) 6 3
  /\ (forall result rlen, (6 < rlen)%Z ->
        eng (Fin 999960) 3 0 result rlen = Ok "1.00 M"
        /\ forall numeric, numeric <> 0%Z ->
             eng (Fin 999960) 3 numeric result rlen = Ok "1.00e6").
Proof.
  split.
  { intros sign value expof10 digits H. unfold eng_carry. now rewrite H. }
  split.
  { rewrite (eng_round_eval 999960 3 5 1000) by (simpl; lra).
    do 2 f_equal. simpl. lra. }
  split; [reflexivity | ].
  split; [cbv [pow10 dmul]; f_equal; simpl; lra | ].
  split; [exact eng_prepare_999960 | ].
  intros result rlen Hr.
  assert (Hm : fmt_f (3 - 1) (Fin 1) = "1.00").
  { rewrite (fmt_f_exact (3 - 1) 1 100) by (simpl; lia || lra).
    reflexivity. }
  split.
  - unfold eng. rewrite normal_999960, eng_prepare_999960.
    unfold eng_text. cbv [es_sign es_value es_expof10 es_digits].
    change (use_exponent 0 6) with false. cbv iota.
    change (prefix_at ((6 - PREFIX_START) ÷ 3)) with (Ok "M").
    cbv iota. rewrite Hm. f_equal. now apply snprintf_fits.
  - intros numeric Hnum. unfold eng.
    rewrite normal_999960, eng_prepare_999960.
    unfold eng_text. cbv [es_sign es_value es_expof10 es_digits].
    assert (Hu : use_exponent numeric 6 = true).
    { unfold use_exponent. destruct (Z.eqb_spec numeric 0); [contradiction | ].
      reflexivity. }
    rewrite Hu, Hm. f_equal. now apply snprintf_fits.
Qed.

Lemma eng_at (v : R) (digits numeric : Z) (result : string) (rlen : Z)
  (s : eng_state) (text : string) :
  isnormal (Fin v) = true ->
  eng_prepare (Fin v) digits = s ->
  eng_text numeric s = Ok text ->
  eng (Fin v) digits numeric result rlen = Ok (snprintf result rlen text).
Proof. intros Hn Hs Ht. unfold eng. now rewrite Hn, Hs, Ht. Qed.

Lemma isnormal_opp (v : R) : isnormal (Fin (- v)) = isnormal (Fin v).
Proof. unfold isnormal. now rewrite Rabs_Ropp. Qed.

(** The sign text is carried along untouched and put in front. *)
Lemma eng_text_sign (numeric : Z) (value : double) (e digits : Z) :
  exists body,
    forall sign,
      eng_text numeric (eng_carry sign value e digits) = Ok (sign ++ body).
Proof.
  unfold eng_carry.
  destruct (dge (dmul value (pow10 (- e))) (Fin 1000));
    [ | destruct (dge (dmul value (pow10 (- e))) (Fin 100));
        [ | destruct (dge (dmul value (pow10 (- e))) (Fin 10))]];
    unfold eng_text; cbv [es_sign es_value es_expof10 es_digits];
    match goal with
    | |- context [use_exponent numeric ?x] =>
        destruct (use_exponent numeric x) eqn:E;
        [ eexists; intros; reflexivity
        | apply use_exponent_false in E; destruct E as [_ E];
          destruct (prefix_at_defined _ (prefix_index_range _ E)) as [p Hp];
          rewrite Hp; eexists; intros; reflexivity ]
    end.
Qed.

(** ** Sign preservation *)

(** [eng] at [- v] for a positive [v], as [eng_eval_pos] below. *)
Lemma eng_eval_neg (v : R) (digits numeric : Z) (result : string) (rlen : Z)
  (e D : Z) (s : eng_state) (text : string) :
  (-307 <= e <= 307)%Z ->
  powerRZ 10 e <= v < powerRZ 10 (e + 1) ->
  IZR D - 1 / 2 <= v * powerRZ 10 (digits - 1 - e) < IZR D + 1 / 2 ->
  eng_carry "-" (Fin (IZR D * powerRZ 10 (e - digits + 1))) (eng_align e)
    digits = s ->
  eng_text numeric s = Ok text ->
  eng (Fin (- v)) digits numeric result rlen
  = Ok (snprintf result rlen text).
Proof.
  intros He Hv HD Hs Ht.
  assert (Hpos : 0 < v) by (pose proof (pow10_pos e); lra).
  apply eng_at with (s := s); try assumption.
  - rewrite isnormal_opp. apply (normal_decade _ e He).
    now rewrite Rabs_pos_eq by lra.
  - rewrite (proj1 (eng_prepare_neg v digits Hpos)). unfold rounded.
    rewrite (ilog10_unique v e Hv).
    now rewrite (round_half_up_unique _ D HD).
Qed.

(** [eng] at a positive value, from the decade [e], the rounded digits [D]
    and the state that the carry step leaves. *)
Lemma eng_eval_pos (v : R) (digits numeric : Z) (result : string) (rlen : Z)
  (e D : Z) (s : eng_state) (text : string) :
  (-307 <= e <= 307)%Z ->
  powerRZ 10 e <= v < powerRZ 10 (e + 1) ->
  IZR D - 1 / 2 <= v * powerRZ 10 (digits - 1 - e) < IZR D + 1 / 2 ->
  eng_carry "" (Fin (IZR D * powerRZ 10 (e - digits + 1))) (eng_align e)
    digits = s ->
  eng_text numeric s = Ok text ->
  eng_prepare (Fin v) digits = s
  /\ eng (Fin v) digits numeric result rlen = Ok (snprintf result rlen text).
Proof.
  intros He Hv HD Hs Ht.
  assert (Hpos : 0 < v) by (pose proof (pow10_pos e); lra).
  assert (Hn : isnormal (Fin v) = true).
  { apply (normal_decade _ e He). now rewrite Rabs_pos_eq by lra. }
  assert (Hp : eng_prepare (Fin v) digits = s).
  { now rewrite (eng_prepare_pos v digits e D Hv HD). }
  split; [exact Hp | exact (eng_at v digits numeric result rlen s text
                              Hn Hp Ht)].
Qed.

Lemma fmt_f_exact_text (prec : Z) (x : R) (n : Z) (text : string) :
  (0 <= prec)%Z -> 0 <= x -> x * powerRZ 10 prec = IZR n ->
  fixed prec n = text -> fmt_f prec (Fin x) = text.
Proof. intros Hp Hx Hn <-. now apply fmt_f_exact. Qed.

(** C8, as the spec words it, fails when the text does not fit the buffer.
    At 40 digits in the 32 bytes that [main] provides, the results for 2
    and -2 both have 31 characters; at 4 digits in 6 bytes both have 5. *)
Lemma sign_prefix_cut :
  eng (Fin 2) 40 0 "" 32 = Ok "2.00000000000000000000000000000"
  /\ eng (Fin (-2)) 40 0 "" 32 = Ok "-2.0000000000000000000000000000"
  /\ "-2.0000000000000000000000000000"
     <> "-" ++ "2.00000000000000000000000000000"
  /\ eng (Fin 2) 4 0 "" 6 = Ok "2.000"
  /\ eng (Fin (-2)) 4 0 "" 6 = Ok "-2.00"
  /\ "-2.00" <> "-" ++ "2.000".
Proof.
  assert (Hm40 : fmt_f (40 - 1) (Fin 2)
                 = "2.000000000000000000000000000000000000000").
  { apply (fmt_f_exact_text _ _ 2000000000000000000000000000000000000000);
      try reflexivity; simpl; lia || lra. }
  assert (Hm4 : fmt_f (4 - 1) (Fin 2) = "2.000").
  { apply (fmt_f_exact_text _ _ 2000); try reflexivity; simpl; lia || lra. }
  assert (Hc : forall sign digits D,
            IZR D * powerRZ 10 (0 - digits + 1) = 2 ->
            eng_carry sign (Fin (IZR D * powerRZ 10 (0 - digits + 1)))
              (eng_align 0) digits = Eng_state sign (Fin 2) 0 digits).
  { intros sign digits D HD. change (eng_align 0) with (-3)%Z.
    rewrite HD. rewrite eng_carry_1000 by (simpl; lra).
    f_equal. f_equal. simpl. lra. }
  assert (Ht : forall sign digits m,
            fmt_f (digits - 1) (Fin 2) = m ->
            eng_text 0 (Eng_state sign (Fin 2) 0 digits)
            = Ok (sign ++ m ++ " " ++ "")).
  { intros sign digits m Hm. unfold eng_text.
    cbv [es_sign es_value es_expof10 es_digits]. now rewrite Hm. }
  change (Fin (-2)) with (Fin (- (2))).
  assert (E1 : eng (Fin 2) 40 0 "" 32
               = Ok "2.00000000000000000000000000000").
  { refine (proj2 (eng_eval_pos 2 40 0 "" 32 0
                     2000000000000000000000000000000000000000
                     _ _ _ _ _ (Hc "" 40%Z _ _) (Ht "" 40%Z _ Hm40)));
      try lia; simpl; lra. }
  assert (E2 : eng (Fin (- (2))) 40 0 "" 32
               = Ok "-2.0000000000000000000000000000").
  { refine (eng_eval_neg 2 40 0 "" 32 0
              2000000000000000000000000000000000000000
              _ _ _ _ _ (Hc "-" 40%Z _ _) (Ht "-" 40%Z _ Hm40));
      try lia; simpl; lra. }
  assert (E3 : eng (Fin 2) 4 0 "" 6 = Ok "2.000").
  { refine (proj2 (eng_eval_pos 2 4 0 "" 6 0 2000
                     _ _ _ _ _ (Hc "" 4%Z _ _) (Ht "" 4%Z _ Hm4)));
      try lia; simpl; lra. }
  assert (E4 : eng (Fin (- (2))) 4 0 "" 6 = Ok "-2.00").
  { refine (eng_eval_neg 2 4 0 "" 6 0 2000
              _ _ _ _ _ (Hc "-" 4%Z _ _) (Ht "-" 4%Z _ Hm4));
      try lia; simpl; lra. }
  rewrite E1, E2, E3, E4. repeat split; discriminate.
Qed.

Lemma eng_carry_sign (sign : string) (value : double) (e digits : Z) :
  es_sign (eng_carry sign value e digits) = sign.
Proof.
  unfold eng_carry.
  destruct (dge (dmul value (pow10 (- e))) (Fin 1000));
    [ | destruct (dge (dmul value (pow10 (- e))) (Fin 100));
        [ | destruct (dge (dmul value (pow10 (- e))) (Fin 10))]];
    reflexivity.
Qed.

(** C8, amended.  For a normal v > 0 the text [eng] formats for -v is "-"
    followed by the text it formats for v, which carries no sign; both
    texts pass through the same [snprintf], so the results are "-" followed
    by the result for v whenever the longer text fits the buffer. *)
Theorem sign_preserved (v : R) (digits numeric : Z) (result : string)
  (rlen : Z) :
  0 < v -> isnormal (Fin v) = true ->
  exists text,
    eng_text numeric (eng_prepare (Fin v) digits) = Ok text
    /\ es_sign (eng_prepare (Fin v) digits) = ""
    /\ eng (Fin v) digits numeric result rlen = Ok (snprintf result rlen text)
    /\ eng (Fin (- v)) digits numeric result rlen
       = Ok (snprintf result rlen ("-" ++ text))
    /\ ((Z.of_nat (String.length text) + 1 < rlen)%Z ->
        eng (Fin v) digits numeric result rlen = Ok text
        /\ eng (Fin (- v)) digits numeric result rlen = Ok ("-" ++ text)).
Proof.
  intros Hv Hn.
  destruct (eng_prepare_neg v digits Hv) as [Pneg Ppos].
  destruct (eng_text_sign numeric (Fin (rounded v digits))
              (eng_align (ilog10 v)) digits) as [body Hb].
  exists body.
  assert (Tpos : eng_text numeric (eng_prepare (Fin v) digits) = Ok body).
  { rewrite Ppos. exact (Hb ""). }
  assert (Tneg : eng_text numeric (eng_prepare (Fin (- v)) digits)
                 = Ok ("-" ++ body)).
  { rewrite Pneg. exact (Hb "-"). }
  assert (Epos := eng_at v digits numeric result rlen _ _ Hn eq_refl Tpos).
  assert (Hn' : isnormal (Fin (- v)) = true) by now rewrite isnormal_opp.
  assert (Eneg := eng_at (- v) digits numeric result rlen _ _ Hn' eq_refl
                    Tneg).
  split; [exact Tpos | ].
  split.
  { rewrite Ppos. apply eng_carry_sign. }
  split; [exact Epos | ].
  split; [exact Eneg | ].
  intros Hfit. rewrite Epos, Eneg.
  rewrite !snprintf_fits; [split; reflexivity | | ].
  - simpl String.length. lia.
  - lia.
Qed.

Lemma sign_preserved_witness :
  0 < 1 /\ isnormal (Fin 1) = true
  /\ exists text,
       eng (Fin 1) 3 0 "" 32 = Ok (snprintf "" 32 text)
       /\ eng (Fin (- (1))) 3 0 "" 32 = Ok (snprintf "" 32 ("-" ++ text)).
Proof.
  assert (Hv : 0 < 1) by lra.
  assert (Hn : isnormal (Fin 1) = true).
  { apply (normal_decade _ 0); [lia | ].
    rewrite Rabs_pos_eq by lra. simpl. lra. }
  split; [exact Hv | ]. split; [exact Hn | ].
  destruct (sign_preserved 1 3 0 "" 32 Hv Hn)
    as (text & _ & _ & Hpos & Hneg & _).
  exists text. split; [exact Hpos | exact Hneg].
Defined.

Lemma fmt_f_one (digits : Z) (n : Z) :
  (1 <= digits)%Z -> powerRZ 10 (digits - 1) = IZR n ->
  fmt_f (digits - 1) (Fin 1) = fixed (digits - 1) n.
Proof.
  intros Hd Hn. apply fmt_f_exact; [lia | lra | ]. rewrite <- Hn. ring.
Qed.

(** The ends of the prefix table, and one step beyond them. *)
Example eng_yocto :
  eng (Fin (1 / 10 ^ 24)) 3 0 "" 32 = Ok "1.00 y".
Proof.
  refine (proj2 (eng_eval_pos (1 / 10 ^ 24) 3 0 "" 32 (-24) 100
                   (Eng_state "" (Fin 1) (-24) 3) "1.00 y" _ _ _ _ _));
    try (simpl; lra); try lia.
  - change (eng_align (-24)) with (-27)%Z.
    rewrite eng_carry_1000 by (simpl; lra).
    f_equal. f_equal. simpl. lra.
  - unfold eng_text. cbv [es_sign es_value es_expof10 es_digits].
    rewrite (fmt_f_one 3 100) by (simpl; lia || lra). reflexivity.
Qed.

Example eng_yotta :
  eng (Fin (10 ^ 24)) 3 0 "" 32 = Ok "1.00 Y".
Proof.
  refine (proj2 (eng_eval_pos (10 ^ 24) 3 0 "" 32 24 100
                   (Eng_state "" (Fin 1) 24 3) "1.00 Y" _ _ _ _ _));
    try (simpl; lra); try lia.
  - change (eng_align 24) with 24%Z.
    rewrite eng_carry_1 by (simpl; lra).
    f_equal. f_equal. simpl. lra.
  - unfold eng_text. cbv [es_sign es_value es_expof10 es_digits].
    rewrite (fmt_f_one 3 100) by (simpl; lia || lra). reflexivity.
Qed.

Example eng_below_yocto :
  eng (Fin (1 / 10 ^ 27)) 3 0 "" 32 = Ok "1.00e-27".
Proof.
  refine (proj2 (eng_eval_pos (1 / 10 ^ 27) 3 0 "" 32 (-27) 100
                   (Eng_state "" (Fin 1) (-27) 3) "1.00e-27" _ _ _ _ _));
    try (simpl; lra); try lia.
  - change (eng_align (-27)) with (-30)%Z.
    rewrite eng_carry_1000 by (simpl; lra).
    f_equal. f_equal. simpl. lra.
  - unfold eng_text. cbv [es_sign es_value es_expof10 es_digits].
    rewrite (fmt_f_one 3 100) by (simpl; lia || lra). reflexivity.
Qed.

Example eng_above_yotta :
  eng (Fin (10 ^ 27)) 3 0 "" 32 = Ok "1.00e27".
Proof.
  refine (proj2 (eng_eval_pos (10 ^ 27) 3 0 "" 32 27 100
                   (Eng_state "" (Fin 1) 27 3) "1.00e27" _ _ _ _ _));
    try (simpl; lra); try lia.
  - change (eng_align 27) with 27%Z.
    rewrite eng_carry_1 by (simpl; lra).
    f_equal. f_equal. simpl. lra.
  - unfold eng_text. cbv [es_sign es_value es_expof10 es_digits].
    rewrite (fmt_f_one 3 100) by (simpl; lia || lra). reflexivity.
Qed.

Example eng_yotta_numeric :
  eng (Fin (10 ^ 24)) 3 1 "" 32 = Ok "1.00e24".
Proof.
  refine (proj2 (eng_eval_pos (10 ^ 24) 3 1 "" 32 24 100
                   (Eng_state "" (Fin 1) 24 3) "1.00e24" _ _ _ _ _));
    try (simpl; lra); try lia.
  - change (eng_align 24) with 24%Z.
    rewrite eng_carry_1 by (simpl; lra).
    f_equal. f_equal. simpl. lra.
  - unfold eng_text. cbv [es_sign es_value es_expof10 es_digits].
    rewrite (fmt_f_one 3 100) by (simpl; lia || lra). reflexivity.
Qed.

(** ** Prefix or exponent *)

(** C5, as the spec words it, fails when the text does not fit the buffer.
    2e-24 has the aligned exponent -24 and numeric mode is off, but neither
    the 31 characters stored at 40 digits in the 32 bytes that [main]
    provides, nor the 5 characters stored at 4 digits in 6 bytes, hold a
    "y". *)
Lemma yocto_prefix_cut :
  isnormal (Fin (2 / 10 ^ 24)) = true
  /\ es_expof10 (eng_prepare (Fin (2 / 10 ^ 24)) 40) = (-24)%Z
  /\ eng (Fin (2 / 10 ^ 24)) 40 0 "" 32
     = Ok "2.00000000000000000000000000000"
  /\ index 0 "y" "2.00000000000000000000000000000" = None
  /\ es_expof10 (eng_prepare (Fin (2 / 10 ^ 24)) 4) = (-24)%Z
  /\ eng (Fin (2 / 10 ^ 24)) 4 0 "" 6 = Ok "2.000"
  /\ index 0 "y" "2.000" = None.
Proof.
  assert (Hn : isnormal (Fin (2 / 10 ^ 24)) = true).
  { apply (normal_decade _ (-24)); [lia | ].
    rewrite Rabs_pos_eq by (simpl; lra). simpl. lra. }
  assert (Hm40 : fmt_f (40 - 1) (Fin 2)
                 = "2.000000000000000000000000000000000000000").
  { apply (fmt_f_exact_text _ _ 2000000000000000000000000000000000000000);
      try reflexivity; simpl; lia || lra. }
  assert (Hm4 : fmt_f (4 - 1) (Fin 2) = "2.000").
  { apply (fmt_f_exact_text _ _ 2000); try reflexivity; simpl; lia || lra. }
  assert (Hc : forall digits D,
            IZR D * powerRZ 10 (-24 - digits + 1) * powerRZ 10 27 = 2000 ->
            eng_carry "" (Fin (IZR D * powerRZ 10 (-24 - digits + 1)))
              (eng_align (-24)) digits = Eng_state "" (Fin 2) (-24) digits).
  { intros digits D HD. change (eng_align (-24)) with (-27)%Z.
    change (- -27)%Z with 27%Z in *.
    rewrite eng_carry_1000 by (change (- -27)%Z with 27%Z; lra).
    change (- -27)%Z with 27%Z. rewrite HD.
    f_equal. f_equal. lra. }
  assert (Ht : forall digits m,
            fmt_f (digits - 1) (Fin 2) = m ->
            eng_text 0 (Eng_state "" (Fin 2) (-24) digits)
            = Ok ("" ++ m ++ " " ++ "y")).
  { intros digits m Hm. unfold eng_text.
    cbv [es_sign es_value es_expof10 es_digits]. now rewrite Hm. }
  assert (He : (-307 <= -24 <= 307)%Z) by lia.
  assert (Hv : powerRZ 10 (-24) <= 2 / 10 ^ 24 < powerRZ 10 (-24 + 1)) by
    (simpl; lra).
  assert (HD40 : 2000000000000000000000000000000000000000 - 1 / 2
                 <= 2 / 10 ^ 24 * powerRZ 10 (40 - 1 - -24)
                 < 2000000000000000000000000000000000000000 + 1 / 2) by
    (simpl; lra).
  assert (HD4 : 2000 - 1 / 2 <= 2 / 10 ^ 24 * powerRZ 10 (4 - 1 - -24)
                < 2000 + 1 / 2) by (simpl; lra).
  assert (C40 := Hc 40%Z 2000000000000000000000000000000000000000%Z
                   ltac:(simpl; lra)).
  assert (C4 := Hc 4%Z 2000%Z ltac:(simpl; lra)).
  destruct (eng_eval_pos _ 40 0 "" 32 _ _ _ _ He Hv HD40 C40 (Ht 40%Z _ Hm40))
    as [P40 E40].
  destruct (eng_eval_pos _ 4 0 "" 6 _ _ _ _ He Hv HD4 C4 (Ht 4%Z _ Hm4))
    as [P4 E4].
  rewrite P40, E40, P4, E4. split; [exact Hn | ]. repeat split.
Qed.

(** C5, amended.  For a normal value [eng] formats one text and stores it
    through [snprintf], so the result is that text whenever it is shorter
    than [rlen].  With numeric mode off the text ends in " y" for the
    aligned exponent -24 and in " Y" for +24; for an exponent below -24 or
    above +24, or in numeric mode, the text is sign, mantissa, "e" and the
    exponent. *)
Theorem prefix_or_exponent (value : double) (digits numeric : Z)
  (result : string) (rlen : Z) :
  isnormal value = true ->
  let s := eng_prepare value digits in
  let mantissa := fmt_f (es_digits s - 1) (es_value s) in
  exists text,
    eng value digits numeric result rlen = Ok (snprintf result rlen text)
    /\ ((Z.of_nat (String.length text) < rlen)%Z ->
        eng value digits numeric result rlen = Ok text)
    /\ (numeric = 0%Z -> es_expof10 s = (-24)%Z ->
        text = es_sign s ++ mantissa ++ " y")
    /\ (numeric = 0%Z -> es_expof10 s = 24%Z ->
        text = es_sign s ++ mantissa ++ " Y")
    /\ (numeric <> 0%Z \/ (es_expof10 s < -24)%Z \/ (24 < es_expof10 s)%Z ->
        text = es_sign s ++ mantissa ++ "e" ++ fmt_d (es_expof10 s)).
Proof.
  intros Hn s mantissa.
  destruct (eng_normal value digits numeric result rlen Hn) as (text & Ht & He).
  fold s in Ht. exists text.
  split; [exact He | ].
  split; [intros Hfit; rewrite He; now rewrite snprintf_fits | ].
  unfold eng_text in Ht. fold mantissa in Ht.
  split; [ | split].
  - intros -> E. rewrite E in Ht.
    change (use_exponent 0 (-24)) with false in Ht. cbv iota in Ht.
    change (prefix_at ((-24 - PREFIX_START) ÷ 3)) with (Ok "y") in Ht.
    cbv iota in Ht. now injection Ht as <-.
  - intros -> E. rewrite E in Ht.
    change (use_exponent 0 24) with false in Ht. cbv iota in Ht.
    change (prefix_at ((24 - PREFIX_START) ÷ 3)) with (Ok "Y") in Ht.
    cbv iota in Ht. now injection Ht as <-.
  - intros H.
    assert (Hu : use_exponent numeric (es_expof10 s) = true).
    { destruct (use_exponent numeric (es_expof10 s)) eqn:E; [reflexivity | ].
      apply use_exponent_false in E. lia. }
    rewrite Hu in Ht. now injection Ht as <-.
Qed.

Lemma prefix_or_exponent_witness :
  isnormal (Fin (1 / 10 ^ 24)) = true
  /\ exists text,
       eng (Fin (1 / 10 ^ 24)) 3 0 "" 32 = Ok (snprintf "" 32 text)
       /\ ((Z.of_nat (String.length text) < 32)%Z ->
           eng (Fin (1 / 10 ^ 24)) 3 0 "" 32 = Ok text).
Proof.
  assert (Hn : isnormal (Fin (1 / 10 ^ 24)) = true).
  { apply (normal_decade _ (-24)); [lia | ].
    rewrite Rabs_pos_eq by (simpl; lra). simpl. lra. }
  split; [exact Hn | ].
  destruct (prefix_or_exponent (Fin (1 / 10 ^ 24)) 3 0 "" 32 Hn)
    as (text & He & Hfit & _).
  exists text. split; [exact He | exact Hfit].
Defined.

(** ** Enclosures of sine, cosine and arc tangent *)

Lemma cos_term_S (x : R) (i : nat) :
  cos_term x (S i)
  = - cos_term x i * (x * x) / ((INR (2 * i) + 1) * (INR (2 * i) + 2)).
Proof.
  unfold cos_term.
  replace (2 * S i)%nat with (S (S (2 * i))) by lia.
  generalize (2 * i)%nat as m. intros m.
  rewrite !fact_simpl, !mult_INR, !S_INR, <- !tech_pow_Rmult.
  pose proof (INR_fact_neq_0 m) as Hf. pose proof (pos_INR m) as Hp.
  revert Hf Hp.
  generalize (INR (fact m)) (INR m) (x ^ m) ((-1) ^ i).
  intros F I p s Hf Hp. field. repeat split; lra.
Qed.

Lemma sin_term_S (x : R) (i : nat) :
  sin_term x (S i)
  = - sin_term x i * (x * x) / ((INR (2 * i + 1) + 1) * (INR (2 * i + 1) + 2)).
Proof.
  unfold sin_term.
  replace (2 * S i + 1)%nat with (S (S (2 * i + 1))) by lia.
  generalize (2 * i + 1)%nat as m. intros m.
  rewrite !fact_simpl, !mult_INR, !S_INR, <- !tech_pow_Rmult.
  pose proof (INR_fact_neq_0 m) as Hf. pose proof (pos_INR m) as Hp.
  revert Hf Hp.
  generalize (INR (fact m)) (INR m) (x ^ m) ((-1) ^ i).
  intros F I p s Hf Hp. field. repeat split; lra.
Qed.

Lemma tsum_shift (f : nat -> R) (x2 : R) (d : nat -> R) :
  (forall i, d (S i) = d i + 2) ->
  (forall i, f (S i) = - f i * x2 / ((d i + 1) * (d i + 2))) ->
  forall n k, sum_f_R0 (fun i => f (k + i)%nat) n = tsum x2 (d k) (f k) n.
Proof.
  intros Hd Hf. induction n as [ | n IH]; intros k.
  - simpl. now rewrite Nat.add_0_r.
  - rewrite decomp_sum by lia. simpl pred. rewrite Nat.add_0_r.
    simpl tsum. f_equal.
    rewrite <- (Hf k), <- (Hd k), <- IH.
    apply sum_eq. intros i _. f_equal. lia.
Qed.

Lemma cos_approx_tsum (x : R) (n : nat) : cos_approx x n = tsum (x * x) 0 1 n.
Proof.
  unfold cos_approx.
  rewrite (sum_eq _ (fun i => cos_term x (0 + i)%nat)) by reflexivity.
  rewrite (tsum_shift (cos_term x) (x * x) (fun i => INR (2 * i))).
  - f_equal. unfold cos_term. simpl. field.
  - intros i. replace (2 * S i)%nat with (S (S (2 * i))) by lia.
    rewrite !S_INR. ring.
  - apply cos_term_S.
Qed.

Lemma sin_approx_tsum (x : R) (n : nat) : sin_approx x n = tsum (x * x) 1 x n.
Proof.
  unfold sin_approx.
  rewrite (sum_eq _ (fun i => sin_term x (0 + i)%nat)) by reflexivity.
  rewrite (tsum_shift (sin_term x) (x * x) (fun i => INR (2 * i + 1))).
  - f_equal. unfold sin_term. simpl. field.
  - intros i. replace (2 * S i + 1)%nat with (S (S (2 * i + 1))) by lia.
    rewrite !S_INR. ring.
  - apply sin_term_S.
Qed.

Lemma cos_lower (x : R) (n : nat) :
  -2 <= x <= 2 -> tsum (x * x) 0 1 (2 * n + 1) <= cos x.
Proof.
  intros [H1 H2]. rewrite <- cos_approx_tsum.
  now apply pre_cos_bound.
Qed.

Lemma cos_upper (x : R) (n : nat) :
  -2 <= x <= 2 -> cos x <= tsum (x * x) 0 1 (2 * (n + 1)).
Proof.
  intros [H1 H2]. rewrite <- cos_approx_tsum.
  now apply pre_cos_bound.
Qed.

Lemma sin_lower (x : R) (n : nat) :
  0 <= x <= 4 -> tsum (x * x) 1 x (2 * n + 1) <= sin x.
Proof.
  intros [H1 H2]. rewrite <- sin_approx_tsum. now apply pre_sin_bound.
Qed.

Lemma sin_upper (x : R) (n : nat) :
  0 <= x <= 4 -> sin x <= tsum (x * x) 1 x (2 * (n + 1)).
Proof.
  intros [H1 H2]. rewrite <- sin_approx_tsum. now apply pre_sin_bound.
Qed.

(** pi/2 between two decimals: the cosine changes sign there. *)
Lemma PI2_bounds : 1570796326 / 1000000000 < PI / 2 < 1570796327 / 1000000000.
Proof.
  pose proof PI2_1 as H1. split.
  - assert (Hc : 0 < cos (1570796326 / 1000000000)).
    { eapply Rlt_le_trans; [ | apply (cos_lower _ 4); lra].
      cbv [tsum Nat.mul Nat.add]. lra. }
    destruct (Rlt_le_dec (1570796326 / 1000000000) (PI / 2)) as [H | H];
      [assumption | exfalso].
    destruct H as [H | H].
    + pose proof (cos_lt_0 _ H). lra.
    + rewrite <- H, cos_PI2 in Hc. lra.
  - assert (Hc : cos (1570796327 / 1000000000) < 0).
    { eapply Rle_lt_trans; [apply (cos_upper _ 4); lra | ].
      cbv [tsum Nat.mul Nat.add]. lra. }
    destruct (Rlt_le_dec (PI / 2) (1570796327 / 1000000000)) as [H | H];
      [assumption | exfalso].
    pose proof (cos_ge_0 (1570796327 / 1000000000)). lra.
Qed.

(** Enclosures of sine and cosine between their partial sums at the ends
    of an enclosure of the argument. *)
Lemma sin_within (n : nat) (x lo hi c1 c2 : R) :
  0 <= lo -> hi <= 1 -> lo <= x <= hi ->
  c1 <= tsum (lo * lo) 1 lo (2 * n + 1) ->
  tsum (hi * hi) 1 hi (2 * (n + 1)) <= c2 ->
  c1 <= sin x <= c2.
Proof.
  intros Hlo Hhi [Hx1 Hx2] H1 H2. pose proof PI2_1 as Hp. split.
  - apply Rle_trans with (1 := H1).
    apply Rle_trans with (sin lo); [apply sin_lower; lra | ].
    apply sin_incr_1; lra.
  - apply Rle_trans with (2 := H2).
    apply Rle_trans with (sin hi); [ | apply sin_upper; lra].
    apply sin_incr_1; lra.
Qed.

Lemma cos_within (n : nat) (x lo hi c1 c2 : R) :
  0 <= lo -> hi <= 1 -> lo <= x <= hi ->
  c1 <= tsum (hi * hi) 0 1 (2 * n + 1) ->
  tsum (lo * lo) 0 1 (2 * (n + 1)) <= c2 ->
  c1 <= cos x <= c2.
Proof.
  intros Hlo Hhi [Hx1 Hx2] H1 H2. pose proof PI2_1 as Hp. split.
  - apply Rle_trans with (1 := H1).
    apply Rle_trans with (cos hi); [apply cos_lower; lra | ].
    apply cos_decr_1; lra.
  - apply Rle_trans with (2 := H2).
    apply Rle_trans with (cos lo); [ | apply cos_upper; lra].
    apply cos_decr_1; lra.
Qed.

Lemma atan_le (x y : R) : x <= y -> atan x <= atan y.
Proof.
  intros [H | ->]; [left; now apply atan_increasing | right; reflexivity].
Qed.

Lemma atan_within (n : nat) (u lo hi : R) :
  0 <= lo <= 1 -> hi <= 1 -> 0 <= u ->
  0 < tsum (lo * lo) 0 1 (2 * n + 1) ->
  tsum (lo * lo) 1 lo (2 * (n + 1)) <= u * tsum (lo * lo) 0 1 (2 * n + 1) ->
  u * tsum (hi * hi) 0 1 (2 * (n + 1)) <= tsum (hi * hi) 1 hi (2 * n + 1) ->
  0 <= hi ->
  lo <= atan u <= hi.
Proof.
  intros [Hlo Hlo1] Hhi Hu Hc H1 H2 Hhi0. pose proof PI2_1 as Hp. split.
  - rewrite <- (atan_tan lo) by lra. apply atan_le.
    assert (Hcl : tsum (lo * lo) 0 1 (2 * n + 1) <= cos lo) by
      (apply cos_lower; lra).
    assert (Hsl : sin lo <= tsum (lo * lo) 1 lo (2 * (n + 1))) by
      (apply sin_upper; lra).
    unfold tan. apply Rmult_le_reg_r with (cos lo); [lra | ].
    unfold Rdiv. rewrite Rmult_assoc, Rinv_l by lra. rewrite Rmult_1_r.
    apply Rle_trans with (1 := Hsl). apply Rle_trans with (1 := H1).
    apply Rmult_le_compat_l; assumption.
  - rewrite <- (atan_tan hi) by lra. apply atan_le.
    assert (Hch : cos hi <= tsum (hi * hi) 0 1 (2 * (n + 1))) by
      (apply cos_upper; lra).
    assert (Hsh : tsum (hi * hi) 1 hi (2 * n + 1) <= sin hi) by
      (apply sin_lower; lra).
    assert (Hcp : 0 < cos hi) by (apply cos_gt_0; lra).
    unfold tan. apply Rmult_le_reg_r with (cos hi); [lra | ].
    unfold Rdiv. rewrite Rmult_assoc, Rinv_l by lra. rewrite Rmult_1_r.
    apply Rle_trans with (2 := Hsh). apply Rle_trans with (2 := H2).
    apply Rmult_le_compat_l; assumption.
Qed.

Lemma sqrt_within (s lo hi : R) :
  0 <= lo -> 0 <= hi -> lo * lo <= s <= hi * hi -> lo <= sqrt s <= hi.
Proof.
  intros Hlo Hhi [H1 H2]. split.
  - rewrite <- (sqrt_square lo) by assumption. now apply sqrt_le_1_alt.
  - rewrite <- (sqrt_square hi) by assumption. now apply sqrt_le_1_alt.
Qed.

Lemma mul_within (x y a1 a2 b1 b2 c1 c2 : R) :
  0 <= a1 -> 0 <= b1 -> a1 <= x <= a2 -> b1 <= y <= b2 ->
  c1 <= a1 * b1 -> a2 * b2 <= c2 -> c1 <= x * y <= c2.
Proof.
  intros Ha Hb [Hx1 Hx2] [Hy1 Hy2] H1 H2. split.
  - apply Rle_trans with (1 := H1). apply Rmult_le_compat; lra.
  - apply Rle_trans with (2 := H2). apply Rmult_le_compat; lra.
Qed.

Lemma div_within (x y a1 a2 b1 b2 c1 c2 : R) :
  0 <= a1 -> 0 < b1 -> a1 <= x <= a2 -> b1 <= y <= b2 ->
  c1 * b2 <= a1 -> a2 <= c2 * b1 -> 0 <= c1 -> c1 <= x / y <= c2.
Proof.
  intros Ha Hb [Hx1 Hx2] [Hy1 Hy2] H1 H2 Hc1.
  assert (Hy : 0 < y) by lra.
  assert (Hc2 : 0 <= c2).
  { apply Rmult_le_reg_r with b1; [assumption | ]. lra. }
  split.
  - apply Rmult_le_reg_r with y; [assumption | ].
    unfold Rdiv. rewrite Rmult_assoc, Rinv_l by lra. rewrite Rmult_1_r.
    apply Rle_trans with (c1 * b2); [apply Rmult_le_compat_l; lra | lra].
  - apply Rmult_le_reg_r with y; [assumption | ].
    unfold Rdiv. rewrite Rmult_assoc, Rinv_l by lra. rewrite Rmult_1_r.
    apply Rle_trans with (c2 * b1); [lra | apply Rmult_le_compat_l; lra].
Qed.

(** ** The worked example of the source header *)

Ltac series := cbv [tsum Nat.mul Nat.add]; lra.

Lemma ex_theta_beta : ex_theta = PI / 2 - ex_beta.
Proof. unfold ex_theta, ex_beta. lra. Qed.

Lemma ex_beta_bounds :
  20734511503 / 100000000000 <= ex_beta <= 20734511517 / 100000000000.
Proof.
  unfold ex_beta. pose proof PI2_bounds. lra.
Qed.

Lemma ex_cos_theta :
  20586260866 / 100000000000 <= cos ex_theta <= 20586260881 / 100000000000.
Proof.
  rewrite ex_theta_beta, cos_shift.
  eapply (sin_within 2); [ | | exact ex_beta_bounds | series | series]; lra.
Qed.

Lemma ex_sin_theta :
  97858090431 / 100000000000 <= sin ex_theta <= 97858090435 / 100000000000.
Proof.
  rewrite ex_theta_beta, sin_shift.
  eapply (cos_within 2); [ | | exact ex_beta_bounds | series | series]; lra.
Qed.

Lemma ex_x_bounds :
  877330087272 / 100000000000 <= ex_x <= 877330087276 / 100000000000.
Proof.
  unfold ex_x. pose proof ex_cos_theta. lra.
Qed.

Lemma ex_w_bounds :
  17445161781 / 100000000000 <= 17827 / 100000 * sin ex_theta
  <= 17445161782 / 100000000000.
Proof.
  pose proof ex_sin_theta. lra.
Qed.

Lemma ex_u_bounds :
  1988437651 / 100000000000 <= ex_u <= 1988437652 / 100000000000.
Proof.
  unfold ex_u.
  eapply div_within;
    [ | | exact ex_w_bounds | exact ex_x_bounds | | | ]; lra.
Qed.

Lemma ex_atan_lo :
  1988175634 / 100000000000 <= atan (1988437651 / 100000000000)
  <= 1988175655 / 100000000000.
Proof.
  apply (atan_within 1); try lra; series.
Qed.

Lemma ex_atan_hi :
  1988175634 / 100000000000 <= atan (1988437652 / 100000000000)
  <= 1988175655 / 100000000000.
Proof.
  apply (atan_within 1); try lra; series.
Qed.

Lemma ex_alpha_bounds :
  1988175634 / 100000000000 <= atan ex_u <= 1988175655 / 100000000000.
Proof.
  split.
  - eapply Rle_trans; [apply ex_atan_lo | apply atan_le, ex_u_bounds].
  - eapply Rle_trans; [apply atan_le, ex_u_bounds | apply ex_atan_hi].
Qed.

Lemma ex_phi_eq : ex_phi = ex_theta + atan ex_u.
Proof.
  unfold ex_phi, ex_u.
  replace (- (17827 / 100000) * sin ex_theta / ex_x)
    with (- (17827 / 100000 * sin ex_theta / ex_x)) by (unfold Rdiv; ring).
  rewrite atan_opp. ring.
Qed.

Lemma ex_phi_gamma : ex_phi = PI / 2 - (ex_beta - atan ex_u).
Proof. rewrite ex_phi_eq, ex_theta_beta. ring. Qed.

Lemma ex_gamma_bounds :
  18746335848 / 100000000000 <= ex_beta - atan ex_u
  <= 18746335883 / 100000000000.
Proof.
  pose proof ex_alpha_bounds. pose proof PI2_bounds. unfold ex_beta. lra.
Qed.

Lemma ex_cos_phi :
  18636729732 / 100000000000 <= cos ex_phi <= 18636729767 / 100000000000.
Proof.
  rewrite ex_phi_gamma, cos_shift.
  eapply (sin_within 2); [ | | exact ex_gamma_bounds | series | series]; lra.
Qed.

Lemma ex_sin_phi :
  98248014247 / 100000000000 <= sin ex_phi <= 98248014255 / 100000000000.
Proof.
  rewrite ex_phi_gamma, sin_shift.
  eapply (cos_within 2); [ | | exact ex_gamma_bounds | series | series]; lra.
Qed.

Lemma ex_S_bounds :
  7700124157035 / 100000000000 <= ex_S <= 7700124157083 / 100000000000.
Proof.
  unfold ex_S. pose proof ex_cos_theta. lra.
Qed.

Lemma ex_sqrt_bounds :
  8775035131 / 1000000000 <= sqrt ex_S <= 8775035134 / 1000000000.
Proof.
  pose proof ex_S_bounds. apply sqrt_within; lra.
Qed.

Lemma ex_Z_bounds :
  665944980363 / 100000000000 <= ex_Z <= 665944980592 / 100000000000.
Proof.
  unfold ex_Z.
  eapply div_within;
    [ | | split; apply Rle_refl | exact ex_sqrt_bounds | | | ]; lra.
Qed.

Lemma ex_Resr_bounds :
  124110366154 / 100000000000 <= ex_Resr <= 12411036643 / 10000000000.
Proof.
  unfold ex_Resr.
  eapply mul_within;
    [ | | exact ex_Z_bounds | exact ex_cos_phi | | ]; lra.
Qed.

Lemma ex_X_bounds :
  654277719184 / 100000000000 <= ex_X <= 654277719463 / 100000000000.
Proof.
  unfold ex_X.
  eapply mul_within;
    [ | | exact ex_Z_bounds | exact ex_sin_phi | | ]; lra.
Qed.

Lemma ex_Q_bounds :
  527174109628 / 100000000000 <= ex_Q <= 527174111026 / 100000000000.
Proof.
  unfold ex_Q. pose proof ex_X_bounds as HX. rewrite Rabs_pos_eq by lra.
  eapply div_within;
    [ | | exact HX | exact ex_Resr_bounds | | | ]; lra.
Qed.

Lemma ex_two_pi_f_bounds :
  6283185304 / 1000000 <= 2 * PI * 1000 <= 6283185308 / 1000000.
Proof.
  pose proof PI2_bounds. lra.
Qed.

Lemma ex_Ls_bounds :
  104131533149 / 100000000000000 <= ex_Ls <= 104131533261 / 100000000000000.
Proof.
  unfold ex_Ls.
  eapply div_within;
    [ | | exact ex_X_bounds | exact ex_two_pi_f_bounds | | | ]; lra.
Qed.

Lemma ex_theta_bounds :
  13634512 / 10000000 < ex_theta < 13634513 / 10000000.
Proof. unfold ex_theta. pose proof PI2_bounds. lra. Qed.

Lemma ex_phi_bounds : 13833329 / 10000000 < ex_phi < 13833330 / 10000000.
Proof.
  rewrite ex_phi_eq. pose proof ex_alpha_bounds. unfold ex_theta.
  pose proof PI2_bounds. lra.
Qed.

Lemma ex_compute :
  compute (Fin (3278 / 10)) (Fin 1000) (Fin (217 / 1000000))
    (Fin (881 / 100)) (Fin (17827 / 100000))
  = ([], Returns (Quantities (Fin ex_theta) (Fin ex_phi) (Fin ex_Z)
                    (Fin ex_Resr) (Fin ex_X) (Fin ex_Q))).
Proof.
  pose proof ex_x_bounds as Hx. pose proof ex_phi_bounds as Hphi.
  pose proof ex_S_bounds as HS. pose proof ex_Resr_bounds as HR.
  pose proof PI2_bounds as Hpi.
  assert (Hraw : phi_raw (theta_of (Fin 1000) (Fin (217 / 1000000)))
                   (Fin (881 / 100)) (Fin (17827 / 100000)) = Fin ex_phi).
  { change (theta_of (Fin 1000) (Fin (217 / 1000000))) with (Fin ex_theta).
    rewrite phi_raw_Fin_pos by (fold ex_x; lra). reflexivity. }
  rewrite (compute_clamp _ _ _ _ _ [] (Fin ex_phi)).
  - unfold quantities_at.
    change (theta_of (Fin 1000) (Fin (217 / 1000000))) with (Fin ex_theta).
    rewrite Z_of_Fin by (fold ex_S; lra).
    fold ex_S. fold ex_Z. cbv [dcos dsin dmul dfabs].
    fold ex_Resr. fold ex_X. rewrite ddiv_Fin by lra. reflexivity.
  - rewrite Hraw.
    apply clamp_phi_inside; [apply dlt_Fin_false | apply dgt_Fin_false]; lra.
Qed.

(** ** The sample run of the source header *)

Lemma ex_inv_Q_bounds :
  18969065 / 100000000 <= 1 / ex_Q <= 189690651 / 1000000000.
Proof.
  eapply div_within;
    [ | | split; apply Rle_refl | exact ex_Q_bounds | | | ]; lra.
Qed.

Lemma ex_inv_Q2_bounds :
  1035982542 / 1000000000 <= 1 + 1 / ex_Q / ex_Q <= 1035982544 / 1000000000.
Proof.
  assert (H : 35982542 / 1000000000 <= 1 / ex_Q / ex_Q
              <= 35982544 / 1000000000).
  { eapply div_within;
      [ | | exact ex_inv_Q_bounds | exact ex_Q_bounds | | | ]; lra. }
  lra.
Qed.

Lemma ex_Lp_bounds :
  1078784504 / 1000000000000 <= ex_Lp <= 1078784508 / 1000000000000.
Proof.
  unfold ex_Lp.
  eapply mul_within;
    [ | | exact ex_Ls_bounds | exact ex_inv_Q2_bounds | | ]; lra.
Qed.

Lemma ex_Q2_bounds :
  28791254186 / 1000000000 <= 1 + ex_Q * ex_Q <= 28791254334 / 1000000000.
Proof.
  assert (H : 27791254186 / 1000000000 <= ex_Q * ex_Q
              <= 27791254334 / 1000000000).
  { eapply mul_within;
      [ | | exact ex_Q_bounds | exact ex_Q_bounds | | ]; lra. }
  lra.
Qed.

Lemma ex_Rp_bounds :
  3573293099 / 100000000 <= ex_Rp <= 35732931254 / 1000000000.
Proof.
  unfold ex_Rp.
  eapply mul_within;
    [ | | exact ex_Resr_bounds | exact ex_Q2_bounds | | ]; lra.
Qed.

(** [eng] with 4 digits and prefixes on a positive value known through an
    enclosure: [D] are its four rounded digits. *)
Lemma eng4_eval (v : R) (e D : Z) (s : eng_state) (text : string)
  (res : string) :
  (-307 <= e <= 307)%Z ->
  powerRZ 10 e <= v < powerRZ 10 (e + 1) ->
  IZR D - 1 / 2 <= v * powerRZ 10 (4 - 1 - e) < IZR D + 1 / 2 ->
  eng_carry "" (Fin (IZR D * powerRZ 10 (e - 4 + 1))) (eng_align e) 4 = s ->
  eng_text 0 s = Ok text ->
  (Z.of_nat (String.length text) < 32)%Z ->
  eng4 (Fin v) res = ([], Returns text).
Proof.
  intros He Hv HD Hs Ht Hlen. unfold eng4.
  rewrite (proj2 (eng_eval_pos v 4 0 res 32 e D s text He Hv HD Hs Ht)).
  now rewrite snprintf_fits.
Qed.

Ltac eng4_text d n :=
  unfold eng_text; cbv [es_sign es_value es_expof10 es_digits];
  rewrite (fmt_f_exact d _ n) by (simpl; lia || lra); reflexivity.

Lemma eng4_Rref (res : string) :
  eng4 (Fin (3278 / 10)) res = ([], Returns "327.8 ").
Proof.
  apply (eng4_eval _ 2 3278 (Eng_state "" (Fin (3278 / 10)) 0 (4 - 2)));
    try (simpl; lra); try lia.
  - change (eng_align 2) with 0%Z. rewrite eng_carry_100 by (simpl; lra).
    f_equal. f_equal. simpl. lra.
  - eng4_text (4 - 2 - 1)%Z 3278%Z.
  - simpl. lia.
Qed.

Lemma eng4_freq (res : string) :
  eng4 (Fin 1000) res = ([], Returns "1.000 k").
Proof.
  apply (eng4_eval _ 3 1000 (Eng_state "" (Fin 1) 3 4));
    try (simpl; lra); try lia.
  - change (eng_align 3) with 3%Z. rewrite eng_carry_1 by (simpl; lra).
    f_equal. f_equal. simpl. lra.
  - eng4_text (4 - 1)%Z 1000%Z.
  - simpl. lia.
Qed.

Lemma eng4_delta_t (res : string) :
  eng4 (Fin (217 / 1000000)) res = ([], Returns "217.0 u").
Proof.
  apply (eng4_eval _ (-4) 2170 (Eng_state "" (Fin 217) (-6) (4 - 2)));
    try (simpl; lra); try lia.
  - change (eng_align (-4)) with (-6)%Z.
    rewrite eng_carry_100 by (simpl; lra).
    f_equal. f_equal. simpl. lra.
  - eng4_text (4 - 2 - 1)%Z 2170%Z.
  - simpl. lia.
Qed.

Lemma eng4_V_in (res : string) :
  eng4 (Fin (881 / 100)) res = ([], Returns "8.810 ").
Proof.
  apply (eng4_eval _ 0 8810 (Eng_state "" (Fin (881 / 100)) 0 4));
    try (simpl; lra); try lia.
  - change (eng_align 0) with (-3)%Z. rewrite eng_carry_1000 by (simpl; lra).
    f_equal. f_equal. simpl. lra.
  - eng4_text (4 - 1)%Z 8810%Z.
  - simpl. lia.
Qed.

Lemma eng4_V_dut (res : string) :
  eng4 (Fin (17827 / 100000)) res = ([], Returns "178.3 m").
Proof.
  apply (eng4_eval _ (-1) 1783 (Eng_state "" (Fin (1783 / 10)) (-3) (4 - 2)));
    try (simpl; lra); try lia.
  - change (eng_align (-1)) with (-3)%Z.
    rewrite eng_carry_100 by (simpl; lra).
    f_equal. f_equal. simpl. lra.
  - eng4_text (4 - 2 - 1)%Z 1783%Z.
  - simpl. lia.
Qed.

Lemma eng4_Z (res : string) : eng4 (Fin ex_Z) res = ([], Returns "6.659 ").
Proof.
  pose proof ex_Z_bounds.
  apply (eng4_eval _ 0 6659 (Eng_state "" (Fin (6659 / 1000)) 0 4));
    try (simpl; lra); try lia.
  - change (eng_align 0) with (-3)%Z. rewrite eng_carry_1000 by (simpl; lra).
    f_equal. f_equal. simpl. lra.
  - eng4_text (4 - 1)%Z 6659%Z.
  - simpl. lia.
Qed.

Lemma eng4_Ls (res : string) : eng4 (Fin ex_Ls) res = ([], Returns "1.041 m").
Proof.
  pose proof ex_Ls_bounds.
  apply (eng4_eval _ (-3) 1041 (Eng_state "" (Fin (1041 / 1000)) (-3) 4));
    try (simpl; lra); try lia.
  - change (eng_align (-3)) with (-6)%Z.
    rewrite eng_carry_1000 by (simpl; lra).
    f_equal. f_equal. simpl. lra.
  - eng4_text (4 - 1)%Z 1041%Z.
  - simpl. lia.
Qed.

Lemma eng4_Lp (res : string) : eng4 (Fin ex_Lp) res = ([], Returns "1.079 m").
Proof.
  pose proof ex_Lp_bounds.
  apply (eng4_eval _ (-3) 1079 (Eng_state "" (Fin (1079 / 1000)) (-3) 4));
    try (simpl; lra); try lia.
  - change (eng_align (-3)) with (-6)%Z.
    rewrite eng_carry_1000 by (simpl; lra).
    f_equal. f_equal. simpl. lra.
  - eng4_text (4 - 1)%Z 1079%Z.
  - simpl. lia.
Qed.

Lemma eng4_Resr (res : string) :
  eng4 (Fin ex_Resr) res = ([], Returns "1.241 ").
Proof.
  pose proof ex_Resr_bounds.
  apply (eng4_eval _ 0 1241 (Eng_state "" (Fin (1241 / 1000)) 0 4));
    try (simpl; lra); try lia.
  - change (eng_align 0) with (-3)%Z. rewrite eng_carry_1000 by (simpl; lra).
    f_equal. f_equal. simpl. lra.
  - eng4_text (4 - 1)%Z 1241%Z.
  - simpl. lia.
Qed.

Lemma eng4_Rp (res : string) : eng4 (Fin ex_Rp) res = ([], Returns "35.73 ").
Proof.
  pose proof ex_Rp_bounds.
  apply (eng4_eval _ 1 3573 (Eng_state "" (Fin (3573 / 100)) 0 (4 - 1)));
    try (simpl; lra); try lia.
  - change (eng_align 1) with 0%Z. rewrite eng_carry_10 by (simpl; lra).
    f_equal. f_equal. simpl. lra.
  - eng4_text (4 - 1 - 1)%Z 3573%Z.
  - simpl. lia.
Qed.

Lemma eng4_X (res : string) : eng4 (Fin ex_X) res = ([], Returns "6.543 ").
Proof.
  pose proof ex_X_bounds.
  apply (eng4_eval _ 0 6543 (Eng_state "" (Fin (6543 / 1000)) 0 4));
    try (simpl; lra); try lia.
  - change (eng_align 0) with (-3)%Z. rewrite eng_carry_1000 by (simpl; lra).
    f_equal. f_equal. simpl. lra.
  - eng4_text (4 - 1)%Z 6543%Z.
  - simpl. lia.
Qed.

(** Lines 197-205 in the worked example: the inductive branch. *)
Lemma ex_report_reactive (res : string) :
  report_reactive (Fin 1000)
    (Quantities (Fin ex_theta) (Fin ex_phi) (Fin ex_Z) (Fin ex_Resr)
       (Fin ex_X) (Fin ex_Q)) res
  = ([Printf "  Ls: %sH\n" [AStr "1.041 m"];
      Printf "  Lp: %sH\n" [AStr "1.079 m"]], Returns "1.079 m").
Proof.
  pose proof PI2_bounds as Hpi. pose proof ex_Q_bounds as HQ.
  pose proof ex_phi_bounds as Hphi.
  unfold report_reactive. cbv [q_phi q_X q_Q].
  assert (Hgt : dgt (Fin ex_phi) (Fin 0) = true) by (apply dgt_Fin; lra).
  rewrite Hgt.
  assert (HLs : Ls_of (Fin ex_X) (Fin 1000) = Fin ex_Ls).
  { unfold Ls_of. rewrite two_pi_Fin. cbv [dmul].
    rewrite ddiv_Fin by lra. reflexivity. }
  assert (HLp : dmul (Fin ex_Ls) (one_plus_inv_Q2 (Fin ex_Q)) = Fin ex_Lp).
  { unfold one_plus_inv_Q2. rewrite (ddiv_Fin 1 ex_Q) by lra.
    rewrite ddiv_Fin by lra. reflexivity. }
  rewrite HLs, HLp, eng4_Ls. cbv [bind printf ret app].
  rewrite eng4_Lp. reflexivity.
Qed.

(** The run that the header of the source documents:
    [./comp_L -r 327.8 1e3 217e-6 8.81 0.17827].  Every text that [eng]
    produces is the one shown there; the arguments of the [%lf] directives
    are kept as values. *)
Theorem sample_run (res : string) :
  main_body (Fin (3278 / 10)) (Fin 1000) (Fin (217 / 1000000))
    (Fin (881 / 100)) (Fin (17827 / 100000)) res
  = ([Printf "Inputs:\n" [];
      Printf "  Rref: %sOhms\n" [AStr "327.8 "];
      Printf "  freq: %sHz\n" [AStr "1.000 k"];
      Printf "  delta_t: %sSec\n" [AStr "217.0 u"];
      Printf "  V_in: %sV\n" [AStr "8.810 "];
      Printf "  V_dut: %sV\n" [AStr "178.3 m"];
      Printf "Outputs:\n" [];
      Printf "  theta: %lf rad (%lf deg)\n"
        [ADbl (Fin ex_theta); ADbl (Fin (ex_theta * 360 / (2 * PI)))];
      Printf "  phi: %lf rad (%lf deg)\n"
        [ADbl (Fin ex_phi); ADbl (Fin (ex_phi * 360 / (2 * PI)))];
      Printf "  Z: %sOhms\n" [AStr "6.659 "];
      Printf "  Ls: %sH\n" [AStr "1.041 m"];
      Printf "  Lp: %sH\n" [AStr "1.079 m"];
      Printf "  Rs (Resr): %sOhms\n" [AStr "1.241 "];
      Printf "  Rp: %sOhms\n" [AStr "35.73 "];
      Printf "  X: %sOhms\n" [AStr "6.543 "];
      Printf "  Q: %lf\n" [ADbl (Fin ex_Q)]],
     Returns EXIT_SUCCESS).
Proof.
  pose proof PI2_bounds as Hpi. pose proof ex_Q_bounds as HQ.
  pose proof ex_phi_bounds as Hphi.
  unfold main_body.
  rewrite eng4_Rref. cbv [bind printf ret app].
  rewrite eng4_freq. cbv iota beta.
  rewrite eng4_delta_t. cbv iota beta.
  rewrite eng4_V_in. cbv iota beta.
  rewrite eng4_V_dut. cbv iota beta.
  rewrite ex_compute. cbv iota beta.
  cbv [q_theta q_phi q_Z q_Resr q_X q_Q].
  rewrite eng4_Z. cbv iota beta.
  rewrite ex_report_reactive. cbv iota beta.
  rewrite eng4_Resr. cbv iota beta.
  change (dmul (Fin ex_Resr) (dadd (Fin 1) (dmul (Fin ex_Q) (Fin ex_Q))))
    with (Fin ex_Rp).
  rewrite eng4_Rp. cbv iota beta.
  rewrite eng4_X. cbv iota beta.
  cbv [dmul two_pi M_PI]. rewrite !ddiv_Fin by lra. reflexivity.
Qed.

(** ["%.*f"] of a value that rounds to [n] at [prec] decimals. *)
Lemma fmt_f_round (prec : Z) (x : R) (n : Z) :
  (0 <= prec)%Z -> 0 <= x ->
  IZR n - 1 / 2 < x * powerRZ 10 prec < IZR n + 1 / 2 ->
  fmt_f prec (Fin x) = fixed prec n.
Proof.
  intros Hp Hx [H1 H2]. unfold fmt_f.
  destruct (Z.ltb_spec prec 0); [lia | ].
  rewrite Rabs_pos_eq by assumption.
  assert (Hr : round_half_even (x * powerRZ 10 prec) = n).
  { unfold round_half_even.
    pose proof (Zfloor_bound (x * powerRZ 10 prec)) as [F1 F2].
    set (f := Zfloor (x * powerRZ 10 prec)) in *.
    destruct (Rcompare_spec (x * powerRZ 10 prec - IZR f) (1 / 2)) as
      [E | E | E].
    - exfalso.
      assert (IZR n - 1 < IZR f < IZR n) by lra.
      destruct H0 as [A B]. rewrite <- minus_IZR in A.
      apply lt_IZR in A, B. lia.
    - assert (IZR n - 1 < IZR f < IZR n + 1) by lra.
      destruct H0 as [A B]. rewrite <- minus_IZR in A.
      rewrite <- plus_IZR in B. apply lt_IZR in A, B. lia.
    - assert (IZR n - 1 < IZR f + 1 < IZR n + 1) by lra.
      destruct H0 as [A B]. rewrite <- minus_IZR in A.
      rewrite <- !plus_IZR in B. rewrite <- plus_IZR in A.
      apply lt_IZR in A, B. lia. }
  rewrite Hr. destruct (Rcompare_spec x 0); try reflexivity. lra.
Qed.

(** The numbers that the [%lf] directives of the sample run print. *)
Lemma sample_run_numbers :
  fmt_f 6 (Fin ex_theta) = "1.363451"
  /\ fmt_f 6 (Fin (ex_theta * 360 / (2 * PI))) = "78.120000"
  /\ fmt_f 6 (Fin ex_phi) = "1.383333"
  /\ fmt_f 6 (Fin (ex_phi * 360 / (2 * PI))) = "79.259141"
  /\ fmt_f 6 (Fin ex_Q) = "5.271741".
Proof.
  pose proof PI2_bounds as Hpi. pose proof ex_Q_bounds as HQ.
  pose proof ex_phi_bounds as Hphi. pose proof ex_theta_bounds as Hth.
  pose proof ex_alpha_bounds as Hal.
  assert (Hdeg : ex_theta * 360 / (2 * PI) = 7812 / 100).
  { unfold ex_theta. field. lra. }
  assert (Hp9 : 1383332967 / 1000000000 <= ex_phi
                <= 1383332969 / 1000000000).
  { rewrite ex_phi_eq. unfold ex_theta. lra. }
  assert (Hpd : 792591406 / 10000000 <= ex_phi * 360 / (2 * PI)
                <= 792591409 / 10000000).
  { apply (div_within _ _ (1383332967 / 1000000000 * 360)
             (1383332969 / 1000000000 * 360)
             (4 * (1570796326 / 1000000000))
             (4 * (1570796327 / 1000000000))); lra. }
  repeat split.
  - rewrite (fmt_f_round 6 _ 1363451) by (simpl; lia || lra). reflexivity.
  - rewrite Hdeg.
    rewrite (fmt_f_exact 6 _ 78120000) by (simpl; lia || lra). reflexivity.
  - rewrite (fmt_f_round 6 _ 1383333) by (simpl; lia || lra). reflexivity.
  - rewrite (fmt_f_round 6 _ 79259141) by (simpl; lia || lra). reflexivity.
  - rewrite (fmt_f_round 6 _ 5271741) by (simpl; lia || lra). reflexivity.
Qed.
(** C1.  For Rref = 327.8, freq = 1000, delta_t = 217e-6, V_in = 8.81 and
    V_dut = 0.17827 no advisory is printed and, each to within half a unit
    of the last digit quoted, theta = 1.363451 rad, phi = 1.383333 rad,
    Z = 6.659 Ohms, Ls = 1.041e-3 H, Resr = 1.241 Ohms and Q = 5.2717;
    theta, phi and Z are the values of the formulas of lines 172, 173 and
    189; phi is positive and the inductive branch runs, printing Ls and
    Lp. *)
Theorem worked_example :
  let Rref := Fin (3278 / 10) in
  let freq := Fin 1000 in
  let delta_t := Fin (217 / 1000000) in
  let V_in := Fin (881 / 100) in
  let V_dut := Fin (17827 / 100000) in
  let q := Quantities (Fin ex_theta) (Fin ex_phi) (Fin ex_Z) (Fin ex_Resr)
             (Fin ex_X) (Fin ex_Q) in
  compute Rref freq delta_t V_in V_dut = ([], Returns q)
  /\ theta_of freq delta_t = Fin ex_theta
  /\ phi_raw (Fin ex_theta) V_in V_dut = Fin ex_phi
  /\ Z_of Rref (Fin ex_theta) V_in V_dut = Fin ex_Z
  /\ Ls_of (Fin ex_X) freq = Fin ex_Ls
  /\ Rabs (ex_theta - 1363451 / 1000000) < 5 / 10000000
  /\ Rabs (ex_phi - 1383333 / 1000000) < 5 / 10000000
  /\ Rabs (ex_Z - 6659 / 1000) < 5 / 10000
  /\ Rabs (ex_Ls - 1041 / 1000000) < 5 / 10000000
  /\ Rabs (ex_Resr - 1241 / 1000) < 5 / 10000
  /\ Rabs (ex_Q - 52717 / 10000) < 5 / 100000
  /\ dgt (Fin ex_phi) (Fin 0) = true
  /\ forall res,
       report_reactive freq q res
       = ([Printf "  Ls: %sH\n" [AStr "1.041 m"];
           Printf "  Lp: %sH\n" [AStr "1.079 m"]], Returns "1.079 m").
Proof.
  pose proof ex_theta_bounds. pose proof ex_phi_bounds.
  pose proof ex_Z_bounds. pose proof ex_Ls_bounds.
  pose proof ex_Resr_bounds. pose proof ex_Q_bounds.
  pose proof ex_x_bounds. pose proof ex_S_bounds.
  pose proof PI2_bounds.
  cbv zeta.
  split; [exact ex_compute | ].
  split; [reflexivity | ].
  split; [rewrite phi_raw_Fin_pos by (fold ex_x; lra); reflexivity | ].
  split; [rewrite Z_of_Fin by (fold ex_S; lra); reflexivity | ].
  split.
  { unfold Ls_of. rewrite two_pi_Fin. cbv [dmul].
    rewrite ddiv_Fin by lra. reflexivity. }
  split; [apply Rabs_def1; lra | ].
  split; [apply Rabs_def1; lra | ].
  split; [apply Rabs_def1; lra | ].
  split; [apply Rabs_def1; lra | ].
  split; [apply Rabs_def1; lra | ].
  split; [apply Rabs_def1; lra | ].
  split; [apply dgt_Fin; lra | ].
  exact ex_report_reactive.
Qed.

(** ** The echo of the inputs (lines 163-168) *)

Lemma eng_Ok_normal (value : double) (digits numeric : Z) (result : string)
  (rlen : Z) (text : string) :
  eng value digits numeric result rlen = Ok text -> isnormal value = true.
Proof.
  unfold eng. destruct (isnormal value); [reflexivity | discriminate].
Qed.

Lemma eng_never_undefined (value : double) (digits numeric : Z)
  (result : string) (rlen : Z) :
  eng value digits numeric result rlen <> Undefined.
Proof.
  destruct (isnormal value) eqn:E.
  - destruct (eng_normal value digits numeric result rlen E) as (t & _ & H).
    rewrite H. discriminate.
  - unfold eng. rewrite E. discriminate.
Qed.

(** X13.  [main] formats its five inputs before it computes anything: when
    one of them is not a normal number (a zero [delta_t], say, or the 0.0
    that [atof] gives for a text that is no number) the run is aborted by
    the assertion of [eng] before "Outputs:" is printed. *)
Lemma inputs_must_be_normal (Rref freq delta_t V_in V_dut : double)
  (res : string) :
  isnormal Rref && isnormal freq && isnormal delta_t && isnormal V_in
  && isnormal V_dut = false ->
  snd (main_body Rref freq delta_t V_in V_dut res) = Aborted
  /\ ~ In (Printf "Outputs:\n" [])
          (fst (main_body Rref freq delta_t V_in V_dut res)).
Proof.
  intros H. unfold main_body, eng4. cbv [bind call printf ret app fst snd].
  destruct (eng Rref 4 0 res 32) as [r1 | | ] eqn:E1; cbv iota beta;
    [ | now split; [ | simpl In; intuition discriminate]
      | now destruct (eng_never_undefined _ _ _ _ _ E1)].
  destruct (eng freq 4 0 r1 32) as [r2 | | ] eqn:E2; cbv iota beta;
    [ | now split; [ | simpl In; intuition discriminate]
      | now destruct (eng_never_undefined _ _ _ _ _ E2)].
  destruct (eng delta_t 4 0 r2 32) as [r3 | | ] eqn:E3; cbv iota beta;
    [ | now split; [ | simpl In; intuition discriminate]
      | now destruct (eng_never_undefined _ _ _ _ _ E3)].
  destruct (eng V_in 4 0 r3 32) as [r4 | | ] eqn:E4; cbv iota beta;
    [ | now split; [ | simpl In; intuition discriminate]
      | now destruct (eng_never_undefined _ _ _ _ _ E4)].
  destruct (eng V_dut 4 0 r4 32) as [r5 | | ] eqn:E5; cbv iota beta;
    [ | now split; [ | simpl In; intuition discriminate]
      | now destruct (eng_never_undefined _ _ _ _ _ E5)].
  apply eng_Ok_normal in E1, E2, E3, E4, E5.
  rewrite E1, E2, E3, E4, E5 in H. discriminate.
Qed.

(** ** The command line *)

Section Command.

Variable atof : string -> double.

Hypothesis atof_Rref : atof "327.8" = Fin (3278 / 10).
Hypothesis atof_freq : atof "1e3" = Fin 1000.
Hypothesis atof_delta_t : atof "217e-6" = Fin (217 / 1000000).
Hypothesis atof_V_in : atof "8.81" = Fin (881 / 100).
Hypothesis atof_V_dut : atof "0.17827" = Fin (17827 / 100000).

(** The command of the source header, [./comp_L -r 327.8 1e3 217e-6 8.81
    0.17827], runs [main_body] on the five parsed values. *)
Lemma main_sample_command (res : string) :
  main atof ["./comp_L"; "-r"; "327.8"; "1e3"; "217e-6"; "8.81"; "0.17827"]
    res
  = main_body (Fin (3278 / 10)) (Fin 1000) (Fin (217 / 1000000))
      (Fin (881 / 100)) (Fin (17827 / 100000)) res.
Proof.
  unfold main. cbn -[main_body].
  rewrite atof_Rref, atof_freq, atof_delta_t, atof_V_in, atof_V_dut.
  now destruct (main_body _ _ _ _ _ res).
Qed.

(** Without arguments [main] prints the usage on stderr and exits with
    [EXIT_FAILURE]. *)
Lemma main_usage (res : string) :
  main atof ["./comp_L"] res
  = ([Eprintf "usage: comp [-r resistor_val] freq delta_t V_in V_dut\n";
      Eprintf "  delta_t: time from V_dut to V_in zero crossings\n"],
     Exited EXIT_FAILURE).
Proof. reflexivity. Qed.

End Command.

(** * Further properties of [eng] and [main] *)

(** ** The assertion of [eng] (line 90) *)

(** X1.  [eng] has one way to fail, the assertion of line 90, and it fails
    exactly on the values that are not normal doubles: zero, a magnitude
    below [DBL_MIN] (a subnormal) or above [DBL_MAX], an infinity, a NaN;
    whatever [digits], [numeric], the buffer and [rlen] are. *)
Theorem eng_rejects_non_normal (value : double) (digits numeric : Z)
  (result : string) (rlen : Z) :
  (eng value digits numeric result rlen = Abort <-> isnormal value = false)
  /\ (isnormal value = true ->
      exists text, eng value digits numeric result rlen = Ok text)
  /\ (forall v : R,
        value = Fin v -> Rabs v < DBL_MIN \/ DBL_MAX < Rabs v ->
        eng value digits numeric result rlen = Abort)
  /\ eng (Fin 0) digits numeric result rlen = Abort
  /\ eng PInf digits numeric result rlen = Abort
  /\ eng NInf digits numeric result rlen = Abort
  /\ eng NaN digits numeric result rlen = Abort.
Proof.
  assert (H0 : isnormal (Fin 0) = false).
  { unfold isnormal. rewrite Rabs_R0.
    now rewrite Rcompare_Lt by apply DBL_MIN_pos. }
  split.
  { destruct (isnormal value) eqn:E.
    - destruct (eng_normal value digits numeric result rlen E)
        as (text & _ & H).
      rewrite H. split; discriminate.
    - unfold eng. rewrite E. now split. }
  split.
  { intros E.
    destruct (eng_normal value digits numeric result rlen E)
      as (text & _ & H).
    eauto. }
  split.
  { intros v -> H. unfold eng.
    destruct (isnormal (Fin v)) eqn:E; [ | reflexivity].
    apply isnormal_Fin in E. lra. }
  split; [unfold eng; now rewrite H0 | ].
  now repeat split.
Qed.

(** ** Rounding (lines 100-106) *)

Lemma pow10_3 : powerRZ 10 3 = 1000.
Proof. simpl. lra. Qed.

Lemma pow10_cancel (n : Z) : powerRZ 10 n * powerRZ 10 (- n) = 1.
Proof. rewrite <- pow10_add. now replace (n + - n)%Z with 0%Z by lia. Qed.

Lemma normal_pos (v : R) : isnormal (Fin v) = true -> 0 < Rabs v.
Proof.
  intros H. apply isnormal_Fin in H. pose proof DBL_MIN_pos. lra.
Qed.

(** The rounded magnitude is a [digits]-digit integer [N] times a power of
    ten, in its own decade. *)
Lemma rounded_digits (a : R) (digits : Z) :
  0 < a -> (1 <= digits)%Z ->
  exists N : Z,
    (10 ^ (digits - 1) <= N < 10 ^ digits)%Z
    /\ rounded a digits
       = IZR N * powerRZ 10 (ilog10 (rounded a digits) - digits + 1).
Proof.
  intros Ha Hd.
  destruct (round_half_up_digits a digits Ha Hd) as [Dlo Dhi].
  destruct (rounded_range a digits Ha Hd) as [Rlo Rhi].
  unfold rounded in *.
  set (e := ilog10 a) in *.
  set (D := round_half_up (a * powerRZ 10 (digits - 1 - e))) in *.
  assert (E10 : (10 ^ digits = 10 * 10 ^ (digits - 1))%Z).
  { replace digits with (Z.succ (digits - 1)) at 1 by lia.
    rewrite Z.pow_succ_r by lia. reflexivity. }
  assert (P : (0 < 10 ^ (digits - 1))%Z) by (apply Z.pow_pos_nonneg; lia).
  destruct (Z.eq_dec D (10 ^ digits)) as [Deq | Dne].
  - exists (10 ^ (digits - 1))%Z. split; [lia | ].
    assert (Er : IZR D * powerRZ 10 (e - digits + 1) = powerRZ 10 (e + 1)).
    { rewrite Deq, <- pow10_IZR, <- pow10_add by lia. f_equal. lia. }
    rewrite Er.
    rewrite (ilog10_unique (powerRZ 10 (e + 1)) (e + 1)).
    + rewrite <- pow10_IZR, <- pow10_add by lia. f_equal. lia.
    + split; [lra | apply pow10_lt; lia].
  - exists D. split; [lia | ].
    rewrite (ilog10_unique _ e); [reflexivity | ].
    split; [exact Rlo | ].
    assert (H : IZR D <= IZR (10 ^ digits - 1)) by (apply IZR_le; lia).
    rewrite minus_IZR, <- pow10_IZR in H by lia.
    pose proof (pow10_pos (e - digits + 1)) as Hp.
    assert (E2 : powerRZ 10 (e + 1)
                 = powerRZ 10 digits * powerRZ 10 (e - digits + 1)).
    { rewrite <- pow10_add. f_equal. lia. }
    rewrite E2. apply Rmult_lt_compat_r; lra.
Qed.

Lemma rounded_error (a : R) (digits : Z) :
  0 < a ->
  Rabs (rounded a digits - a) <= powerRZ 10 (ilog10 a - digits + 1) / 2.
Proof.
  intros Ha. unfold rounded. set (e := ilog10 a).
  set (s := a * powerRZ 10 (digits - 1 - e)).
  pose proof (round_half_up_bounds s) as HD.
  pose proof (pow10_pos (e - digits + 1)) as Hp.
  assert (Es : a = s * powerRZ 10 (e - digits + 1)).
  { unfold s. rewrite Rmult_assoc, <- pow10_add.
    replace (digits - 1 - e + (e - digits + 1))%Z with 0%Z by lia.
    simpl. ring. }
  rewrite Es at 1. rewrite <- Rmult_minus_distr_r, Rabs_mult.
  rewrite (Rabs_pos_eq (powerRZ 10 (e - digits + 1))) by lra.
  unfold Rdiv. rewrite (Rmult_comm (powerRZ 10 (e - digits + 1)) (/ 2)).
  apply Rmult_le_compat_r; [lra | ].
  apply Rabs_le. lra.
Qed.

Lemma rounded_exact (N k digits : Z) :
  (1 <= digits)%Z -> (10 ^ (digits - 1) <= N < 10 ^ digits)%Z ->
  ilog10 (IZR N * powerRZ 10 k) = (k + digits - 1)%Z
  /\ round_half_up (IZR N * powerRZ 10 k
                    * powerRZ 10 (digits - 1 - (k + digits - 1))) = N.
Proof.
  intros Hd [Nlo Nhi].
  pose proof (pow10_pos k) as Hp.
  assert (Lo : powerRZ 10 (digits - 1) <= IZR N).
  { rewrite pow10_IZR by lia. now apply IZR_le. }
  assert (Hi : IZR N < powerRZ 10 digits).
  { rewrite pow10_IZR by lia. now apply IZR_lt. }
  split.
  - apply ilog10_unique.
    replace (k + digits - 1)%Z with (digits - 1 + k)%Z by lia.
    replace (digits - 1 + k + 1)%Z with (digits + k)%Z by lia.
    rewrite !pow10_add.
    split; [apply Rmult_le_compat_r | apply Rmult_lt_compat_r]; lra.
  - apply round_half_up_unique.
    rewrite Rmult_assoc, <- pow10_add.
    replace (k + (digits - 1 - (k + digits - 1)))%Z with 0%Z by lia.
    simpl. lra.
Qed.

Lemma eng_round_of_digits (r : R) (N k digits : Z) :
  (1 <= digits)%Z -> (10 ^ (digits - 1) <= N < 10 ^ digits)%Z ->
  r = IZR N * powerRZ 10 k ->
  eng_round (Fin r) digits = ((k + digits - 1)%Z, Fin r).
Proof.
  intros Hd HN ->.
  assert (P : (0 < 10 ^ (digits - 1))%Z) by (apply Z.pow_pos_nonneg; lia).
  assert (Ha : 0 < IZR N * powerRZ 10 k).
  { apply Rmult_lt_0_compat; [apply IZR_lt; lia | apply pow10_pos]. }
  destruct (rounded_exact N k digits Hd HN) as [Ie ED].
  rewrite eng_round_Fin by assumption. rewrite Ie, ED.
  now replace (k + digits - 1 - digits + 1)%Z with k by lia.
Qed.

(** Lines 114-118 only rescale: mantissa times ten to the exponent is the
    value that came in. *)
Lemma eng_carry_value (sign : string) (r : R) (A digits : Z) :
  exists m,
    es_value (eng_carry sign (Fin r) A digits) = Fin m
    /\ m * powerRZ 10 (es_expof10 (eng_carry sign (Fin r) A digits)) = r.
Proof.
  pose proof (pow10_cancel A) as HA.
  destruct (Rle_lt_dec 1000 (r * powerRZ 10 (- A))) as [H1 | H1].
  { rewrite eng_carry_1000 by assumption. cbv [es_value es_expof10].
    eexists. split; [reflexivity | ].
    rewrite pow10_add, pow10_3.
    transitivity (r * (powerRZ 10 A * powerRZ 10 (- A))); [field | ].
    rewrite HA. ring. }
  assert (E : r * powerRZ 10 (- A) * powerRZ 10 A = r).
  { transitivity (r * (powerRZ 10 A * powerRZ 10 (- A))); [ring | ].
    rewrite HA. ring. }
  destruct (Rle_lt_dec 100 (r * powerRZ 10 (- A))) as [H2 | H2].
  { rewrite eng_carry_100 by lra. cbv [es_value es_expof10]. eauto. }
  destruct (Rle_lt_dec 10 (r * powerRZ 10 (- A))) as [H3 | H3].
  { rewrite eng_carry_10 by lra. cbv [es_value es_expof10]. eauto. }
  rewrite eng_carry_1 by lra. cbv [es_value es_expof10]. eauto.
Qed.

(** ** Mantissa, exponent and digit count (lines 109-122) *)

Lemma normal_50 : isnormal (Fin 50) = true.
Proof.
  apply (normal_decade _ 1); [lia | ].
  rewrite Rabs_pos_eq by lra. simpl. lra.
Qed.

(** The state that lines 109-122 leave for a rounded magnitude [r] in the
    decade of [e] (or at its upper end, when the rounding went up to
    [10^(e+1)]): the mantissa, the exponent and the digit count. *)
Lemma eng_carry_cases (sign : string) (r : R) (e digits : Z) :
  powerRZ 10 e <= r <= powerRZ 10 (e + 1) ->
  let s := eng_carry sign (Fin r) (eng_align e) digits in
  exists m : R,
    es_value s = Fin m
    /\ m * powerRZ 10 (es_expof10 s) = r
    /\ (es_expof10 s mod 3 = 0)%Z
    /\ ((1 <= m < 10 /\ es_digits s = digits)
        \/ (10 <= m < 100 /\ es_digits s = (digits - 1)%Z)
        \/ (100 <= m < 1000 /\ es_digits s = (digits - 2)%Z)
        \/ (m = 10 /\ es_digits s = digits /\ es_expof10 s = e
            /\ (e <= 0)%Z /\ (e mod 3 = 0)%Z /\ r = powerRZ 10 (e + 1))).
Proof.
  intros [Hlo Hhi] s.
  destruct (eng_carry_value sign r (eng_align e) digits) as (m & Hm & Hv).
  fold s in Hm, Hv. exists m.
  split; [exact Hm | ]. split; [exact Hv | ].
  destruct (eng_align_spec e) as (j & Ej & Hmod & Hj).
  assert (Hj' : (0 <= j <= 3)%Z) by lia.
  set (u := r * powerRZ 10 (- e)).
  assert (Hu : 1 <= u <= 10).
  { pose proof (pow10_pos (- e)) as Hp. unfold u.
    pose proof (pow10_cancel e) as E1.
    assert (E2 : powerRZ 10 (e + 1) * powerRZ 10 (- e) = 10).
    { rewrite <- pow10_add. replace (e + 1 + - e)%Z with 1%Z by lia.
      simpl. lra. }
    assert (powerRZ 10 e * powerRZ 10 (- e) <= r * powerRZ 10 (- e)) by
      (apply Rmult_le_compat_r; lra).
    assert (r * powerRZ 10 (- e) <= powerRZ 10 (e + 1) * powerRZ 10 (- e))
      by (apply Rmult_le_compat_r; lra).
    lra. }
  assert (Em : r * powerRZ 10 (- eng_align e) = u * powerRZ 10 j).
  { rewrite Ej. replace (- (e - j))%Z with (- e + j)%Z by lia.
    rewrite pow10_add. unfold u. ring. }
  assert (Hr : u = 10 -> r = powerRZ 10 (e + 1)).
  { intros U. rewrite pow10_add. simpl (powerRZ 10 1).
    pose proof (pow10_cancel e) as E1. unfold u in U.
    transitivity (r * (powerRZ 10 e * powerRZ 10 (- e))); [rewrite E1; ring | ].
    transitivity (r * powerRZ 10 (- e) * powerRZ 10 e); [ring | ].
    rewrite U. ring. }
  assert (Hm3 : ((eng_align e + 3) mod 3 = 0)%Z).
  { replace (eng_align e + 3)%Z with (eng_align e + 1 * 3)%Z by lia.
    now rewrite Z.mod_add by lia. }
  assert (Hq : j = 3%Z -> (e <= 0)%Z /\ (e mod 3 = 0)%Z
                          /\ (eng_align e + 3)%Z = e).
  { intros ->. split; [lia | ]. split; [ | lia].
    replace e with (eng_align e + 1 * 3)%Z at 1 by lia.
    now rewrite Z.mod_add by lia. }
  unfold s in *. clear s.
  destruct (Rle_lt_dec 1000 (r * powerRZ 10 (- eng_align e))) as [H1 | H1].
  { rewrite eng_carry_1000 in * by assumption.
    cbv [es_value es_expof10 es_digits] in *.
    injection Hm as <-. rewrite Em in *. split; [exact Hm3 | ].
    destruct (pow10_small j Hj') as [[-> P] | [[-> P] | [[-> P] | [-> P]]]];
      rewrite P in *; try lra.
    - left. split; [lra | reflexivity].
    - destruct (Req_dec u 10) as [U | U].
      + right; right; right. destruct Hq as (Q1 & Q2 & Q3); [reflexivity | ].
        repeat split; try assumption; try lra; now apply Hr.
      + left. split; [lra | reflexivity]. }
  destruct (Rle_lt_dec 100 (r * powerRZ 10 (- eng_align e))) as [H2 | H2].
  { rewrite eng_carry_100 in * by lra.
    cbv [es_value es_expof10 es_digits] in *.
    injection Hm as <-. split; [exact Hmod | ].
    right; right; left. split; [lra | reflexivity]. }
  destruct (Rle_lt_dec 10 (r * powerRZ 10 (- eng_align e))) as [H3 | H3].
  { rewrite eng_carry_10 in * by lra.
    cbv [es_value es_expof10 es_digits] in *.
    injection Hm as <-. split; [exact Hmod | ].
    right; left. split; [lra | reflexivity]. }
  rewrite eng_carry_1 in * by lra.
  cbv [es_value es_expof10 es_digits] in *.
  injection Hm as <-. split; [exact Hmod | ].
  left. split; [ | reflexivity]. rewrite Em in *.
  destruct (pow10_small j Hj') as [[-> P] | [[-> P] | [[-> P] | [-> P]]]];
    rewrite P in *; lra.
Qed.

Lemma mid_range_normal (v : R) :
  powerRZ 10 (-290) <= Rabs v <= powerRZ 10 290 -> isnormal (Fin v) = true.
Proof.
  intros [Hlo Hhi]. apply decimal_range_normal. split.
  - apply Rle_trans with (2 := Hlo). apply pow10_le. lia.
  - apply Rle_lt_trans with (1 := Hhi). apply pow10_lt. lia.
Qed.

(** X5.  What [eng] displays is the value, to [digits] digits.  For a
    magnitude between 1e-290 and 1e290 and 1 to 15 digits, at the final
    [if] the exponent is a multiple of 3, the mantissa [m] lies between
    [1 - 1e-12] and 1000, and [m * 10^expof10] differs from the magnitude
    by no more than half a unit of the last digit asked for and one part
    in 10^12: [|m 10^E - |v|| <= |v| (10^(1-digits)/2 + 1e-12)].  The
    allowance of 1e-12 covers what the round-off of lines 101, 106 and 114
    adds in the compiled program. *)
Theorem eng_accuracy (v : R) (digits : Z) :
  powerRZ 10 (-290) <= Rabs v <= powerRZ 10 290 ->
  (1 <= digits <= 15)%Z ->
  let s := eng_prepare (Fin v) digits in
  exists m : R,
    es_value s = Fin m
    /\ (es_expof10 s mod 3 = 0)%Z
    /\ 1 - powerRZ 10 (-12) <= m < 1000
    /\ Rabs (m * powerRZ 10 (es_expof10 s) - Rabs v)
       <= Rabs v * (powerRZ 10 (1 - digits) / 2 + powerRZ 10 (-12)).
Proof.
  intros Hr Hd s. pose proof (mid_range_normal v Hr) as Hn.
  pose proof (normal_pos v Hn) as Ha.
  assert (Hd1 : (1 <= digits)%Z) by lia.
  unfold s. rewrite eng_prepare_Fin by assumption.
  destruct (eng_carry_cases (sign_text v) (rounded (Rabs v) digits)
              (ilog10 (Rabs v)) digits (rounded_range _ _ Ha Hd1))
    as (m & Hm & Hv & Hmod & Hc).
  cbv zeta in Hm, Hv, Hmod, Hc.
  set (c := eng_carry _ _ _ _) in *.
  pose proof (pow10_pos (-12)) as H12.
  exists m. split; [exact Hm | ]. split; [exact Hmod | ].
  split.
  { destruct Hc as [H | [H | [H | H]]]; lra. }
  rewrite Hv.
  apply Rle_trans with (1 := rounded_error (Rabs v) digits Ha).
  destruct (ilog10_bounds (Rabs v) Ha) as [Ilo _].
  replace (ilog10 (Rabs v) - digits + 1)%Z
    with (ilog10 (Rabs v) + (1 - digits))%Z by lia.
  rewrite pow10_add. pose proof (pow10_pos (1 - digits)) as Hp.
  apply Rle_trans with (Rabs v * (powerRZ 10 (1 - digits) / 2)).
  - unfold Rdiv. rewrite <- Rmult_assoc.
    apply Rmult_le_compat_r; [lra | ].
    apply Rmult_le_compat_r; lra.
  - apply Rmult_le_compat_l; lra.
Qed.

Lemma eng_accuracy_witness :
  powerRZ 10 (-290) <= Rabs 50 <= powerRZ 10 290
  /\ exists m : R,
       es_value (eng_prepare (Fin 50) 4) = Fin m
       /\ 1 - powerRZ 10 (-12) <= m < 1000.
Proof.
  assert (Hr : powerRZ 10 (-290) <= Rabs 50 <= powerRZ 10 290).
  { rewrite Rabs_pos_eq by lra. split.
    - apply Rle_trans with (powerRZ 10 0); [apply pow10_le; lia | simpl; lra].
    - apply Rle_trans with (powerRZ 10 2); [simpl; lra | apply pow10_le; lia]. }
  assert (Hd : (1 <= 4 <= 15)%Z) by lia.
  split; [exact Hr | ].
  destruct (eng_accuracy 50 4 Hr Hd) as (m & Hm & _ & Hb & _).
  exists m. split; [exact Hm | exact Hb].
Defined.

(** The state at the final [if] of [eng]: a mantissa [m] with [k + 1]
    integer digits, which is the [digits]-digit integer [N] with the point
    moved, and the digit count that is left. *)
Lemma eng_prepare_shape (v : R) (digits : Z) :
  isnormal (Fin v) = true -> (1 <= digits)%Z ->
  let s := eng_prepare (Fin v) digits in
  exists (m : R) (k N : Z),
    es_value s = Fin m
    /\ (0 <= k <= 2)%Z
    /\ powerRZ 10 k <= m < powerRZ 10 (k + 1)
    /\ (10 ^ (digits - 1) <= N < 10 ^ digits)%Z
    /\ m * powerRZ 10 (digits - 1 - k) = IZR N
    /\ (es_digits s = (digits - k)%Z
        \/ (es_digits s = digits /\ k = 1%Z /\ m = 10
            /\ (ilog10 (Rabs v) <= 0)%Z /\ (ilog10 (Rabs v) mod 3 = 0)%Z
            /\ rounded (Rabs v) digits
               = powerRZ 10 (ilog10 (Rabs v) + 1))).
Proof.
  intros Hn Hd s. pose proof (normal_pos v Hn) as Ha.
  unfold s. rewrite eng_prepare_Fin by assumption.
  destruct (eng_carry_cases (sign_text v) (rounded (Rabs v) digits)
              (ilog10 (Rabs v)) digits (rounded_range _ _ Ha Hd))
    as (m & Hm & Hv & Hmod & Hc).
  cbv zeta in Hm, Hv, Hmod, Hc.
  set (c := eng_carry _ _ _ _) in *.
  destruct (rounded_digits (Rabs v) digits Ha Hd) as (N & HN & Hr).
  set (r := rounded (Rabs v) digits) in *.
  assert (K : exists k : Z,
             (0 <= k <= 2)%Z /\ powerRZ 10 k <= m < powerRZ 10 (k + 1)
             /\ (es_digits c = (digits - k)%Z
                 \/ (es_digits c = digits /\ k = 1%Z /\ m = 10
                     /\ (ilog10 (Rabs v) <= 0)%Z
                     /\ (ilog10 (Rabs v) mod 3 = 0)%Z
                     /\ r = powerRZ 10 (ilog10 (Rabs v) + 1)))).
  { destruct Hc as [[H E] | [[H E] | [[H E] | H]]].
    - exists 0%Z. simpl. rewrite E. repeat split; lia || lra.
    - exists 1%Z. simpl. rewrite E. repeat split; lia || lra.
    - exists 2%Z. simpl. rewrite E. repeat split; lia || lra.
    - destruct H as (H0 & H1 & _ & H2 & H3 & H4).
      exists 1%Z. simpl.
      split; [lia | ]. split; [lra | ].
      right. repeat split; assumption. }
  destruct K as (k & Hk & Hmk & Hdk).
  exists m, k, N.
  split; [exact Hm | ]. split; [exact Hk | ]. split; [exact Hmk | ].
  split; [exact HN | ]. split; [ | exact Hdk].
  pose proof (pow10_pos (es_expof10 c)) as HpE.
  assert (Ie : ilog10 r = (es_expof10 c + k)%Z).
  { apply ilog10_unique. rewrite <- Hv.
    assert (P1 : powerRZ 10 (es_expof10 c + k)
                 = powerRZ 10 k * powerRZ 10 (es_expof10 c)).
    { rewrite <- pow10_add. f_equal. lia. }
    assert (P2 : powerRZ 10 (es_expof10 c + k + 1)
                 = powerRZ 10 (k + 1) * powerRZ 10 (es_expof10 c)).
    { rewrite <- pow10_add. f_equal. lia. }
    rewrite P1, P2.
    split; [apply Rmult_le_compat_r | apply Rmult_lt_compat_r]; lra. }
  rewrite Ie in Hr.
  assert (Em : m = r * powerRZ 10 (- es_expof10 c)).
  { rewrite <- Hv, Rmult_assoc, pow10_cancel. ring. }
  rewrite Em, Hr, !Rmult_assoc, <- !pow10_add.
  replace (es_expof10 c + k - digits + 1
           + (- es_expof10 c + (digits - 1 - k)))%Z with 0%Z by lia.
  simpl. ring.
Qed.

(** The state at the final [if] of [eng] for a rounded magnitude [r] that
    lies inside the decade of [e]: the exponent is [e] less its remainder
    [j] modulo 3, the mantissa is [r] with the point moved, and [j] digits
    are taken off. *)
Lemma eng_carry_decade (sign : string) (r : R) (e digits : Z) :
  powerRZ 10 e <= r < powerRZ 10 (e + 1) ->
  let s := eng_carry sign (Fin r) (eng_align e) digits in
  let j := (e mod 3)%Z in
  es_value s = Fin (r * powerRZ 10 (j - e))
  /\ es_expof10 s = (e - j)%Z
  /\ es_digits s = (digits - j)%Z.
Proof.
  intros [Hlo Hhi] s j.
  destruct (eng_carry_cases sign r e digits) as (m & Hm & Hv & Hmod & Hc);
    [lra | ].
  fold s in Hm, Hv, Hmod, Hc.
  pose proof (pow10_pos (es_expof10 s)) as HpE.
  assert (K : exists k : Z,
             (0 <= k <= 2)%Z /\ powerRZ 10 k <= m < powerRZ 10 (k + 1)
             /\ es_digits s = (digits - k)%Z).
  { destruct Hc as [[H E] | [[H E] | [[H E] | H]]].
    - exists 0%Z. simpl. rewrite E. repeat split; lia || lra.
    - exists 1%Z. simpl. rewrite E. repeat split; lia || lra.
    - exists 2%Z. simpl. rewrite E. repeat split; lia || lra.
    - exfalso. destruct H as (_ & _ & _ & _ & _ & H). lra. }
  destruct K as (k & Hk & Hmk & Hdk).
  assert (Ie : ilog10 r = (es_expof10 s + k)%Z).
  { apply ilog10_unique. rewrite <- Hv.
    assert (P1 : powerRZ 10 (es_expof10 s + k)
                 = powerRZ 10 k * powerRZ 10 (es_expof10 s)).
    { rewrite <- pow10_add. f_equal. lia. }
    assert (P2 : powerRZ 10 (es_expof10 s + k + 1)
                 = powerRZ 10 (k + 1) * powerRZ 10 (es_expof10 s)).
    { rewrite <- pow10_add. f_equal. lia. }
    rewrite P1, P2.
    split; [apply Rmult_le_compat_r | apply Rmult_lt_compat_r]; lra. }
  rewrite (ilog10_unique r e) in Ie by lra.
  assert (Ek : k = j) by (unfold j; Z.div_mod_to_equations; lia).
  assert (EE : es_expof10 s = (e - j)%Z) by lia.
  split; [ | split; [exact EE | lia]].
  rewrite Hm. f_equal.
  replace (j - e)%Z with (- es_expof10 s)%Z by lia.
  rewrite <- Hv, Rmult_assoc, pow10_cancel. ring.
Qed.

(** The same for the value [N * 10^k] of a [digits]-digit integer [N],
    which the rounding of lines 100-106 leaves as it is. *)
Lemma eng_prepare_decimal (N k digits : Z) :
  (1 <= digits)%Z -> (10 ^ (digits - 1) <= N < 10 ^ digits)%Z ->
  let s := eng_prepare (Fin (IZR N * powerRZ 10 k)) digits in
  let j := ((k + digits - 1) mod 3)%Z in
  es_value s = Fin (IZR N * powerRZ 10 (j + 1 - digits))
  /\ es_expof10 s = (k + digits - 1 - j)%Z
  /\ es_digits s = (digits - j)%Z.
Proof.
  intros Hd HN s j.
  assert (P : (0 < 10 ^ (digits - 1))%Z) by (apply Z.pow_pos_nonneg; lia).
  set (a := IZR N * powerRZ 10 k).
  assert (Ha : 0 < a).
  { apply Rmult_lt_0_compat; [apply IZR_lt; lia | apply pow10_pos]. }
  destruct (rounded_exact N k digits Hd HN) as [Ie _]. fold a in Ie.
  destruct (ilog10_bounds a Ha) as [Ilo Ihi]. rewrite Ie in Ilo, Ihi.
  assert (Es : s = eng_carry "" (Fin a) (eng_align (k + digits - 1)) digits).
  { unfold s, eng_prepare. rewrite eng_sign_Fin, Rabs_pos_eq by (fold a; lra).
    fold a. rewrite (eng_round_of_digits a N k digits Hd HN eq_refl).
    f_equal. unfold sign_text.
    destruct (Rcompare_spec a 0); reflexivity || lra. }
  destruct (eng_carry_decade "" a (k + digits - 1) digits (conj Ilo Ihi))
    as (Hv & HE & HD).
  rewrite <- Es in Hv, HE, HD. fold j in Hv, HE, HD.
  split; [ | split; assumption].
  rewrite Hv. f_equal. unfold a. rewrite Rmult_assoc, <- pow10_add.
  do 2 f_equal. lia.
Qed.

(** X2.  A decimal number is displayed as it is.  For a [digits]-digit
    integer [N] that is no power of ten (up to 12 digits) and a decimal
    exponent [e = k + digits - 1] between -290 and 290, [eng] of
    [N * 10^k] reaches its final [if] with the exponent [e - j], where
    [j = e mod 3], and with the digit count [digits - j]; and when
    [j < digits], ["%.*f"] prints the mantissa as the digits of [N], none
    of them changed, with the point after the first [j + 1]. *)
Theorem eng_decimal_exact (N k digits : Z) :
  (1 <= digits <= 12)%Z -> (10 ^ (digits - 1) < N < 10 ^ digits)%Z ->
  (-290 <= k + digits - 1 <= 290)%Z ->
  let s := eng_prepare (Fin (IZR N * powerRZ 10 k)) digits in
  let j := ((k + digits - 1) mod 3)%Z in
  es_expof10 s = (k + digits - 1 - j)%Z
  /\ es_digits s = (digits - j)%Z
  /\ ((j < digits)%Z ->
      fmt_f (es_digits s - 1) (es_value s) = fixed (digits - 1 - j) N).
Proof.
  intros Hd HN _ s j.
  assert (Hd1 : (1 <= digits)%Z) by lia.
  assert (HN1 : (10 ^ (digits - 1) <= N < 10 ^ digits)%Z) by lia.
  destruct (eng_prepare_decimal N k digits Hd1 HN1) as (Hv & HE & HD).
  fold s in Hv, HE, HD. fold j in Hv, HE, HD.
  split; [exact HE | ]. split; [exact HD | ].
  intros Hj. rewrite Hv, HD.
  replace (digits - j - 1)%Z with (digits - 1 - j)%Z by lia.
  assert (P : (0 < 10 ^ (digits - 1))%Z) by (apply Z.pow_pos_nonneg; lia).
  apply fmt_f_exact; [lia | | ].
  - apply Rmult_le_pos; [apply IZR_le; lia | ].
    pose proof (pow10_pos (j + 1 - digits)). lra.
  - rewrite Rmult_assoc, <- pow10_add.
    replace (j + 1 - digits + (digits - 1 - j))%Z with 0%Z by lia.
    simpl. ring.
Qed.

Lemma eng_decimal_exact_witness :
  (10 ^ (4 - 1) < 3278 < 10 ^ 4)%Z
  /\ es_expof10 (eng_prepare (Fin (IZR 3278 * powerRZ 10 (-1))) 4) = 0%Z
  /\ fmt_f (es_digits (eng_prepare (Fin (IZR 3278 * powerRZ 10 (-1))) 4) - 1)
       (es_value (eng_prepare (Fin (IZR 3278 * powerRZ 10 (-1))) 4))
     = "327.8".
Proof.
  assert (Hd : (1 <= 4 <= 12)%Z) by lia.
  assert (HN : (10 ^ (4 - 1) < 3278 < 10 ^ 4)%Z) by (simpl; lia).
  assert (He : (-290 <= -1 + 4 - 1 <= 290)%Z) by lia.
  assert (Hj : (((-1 + 4 - 1) mod 3) < 4)%Z) by reflexivity.
  destruct (eng_decimal_exact 3278 (-1) 4 Hd HN He) as (HE & _ & HF).
  split; [exact HN | ]. split; [exact HE | exact (HF Hj)].
Defined.

Lemma zeros_snoc (n : nat) : zeros n ++ "0" = zeros (S n).
Proof. induction n as [ | n IH]; [reflexivity | ]. simpl. now rewrite IH. Qed.

Lemma pow10_Z_succ (p : Z) : (0 <= p)%Z -> (10 ^ (p + 1) = 10 * 10 ^ p)%Z.
Proof.
  intros H. replace (p + 1)%Z with (Z.succ p) by lia.
  now rewrite Z.pow_succ_r.
Qed.

(** ["%.*f"] of 10 with [p >= 1] decimals. *)
Lemma fmt_f_ten (p : Z) :
  (1 <= p)%Z -> fmt_f p (Fin 10) = "10." ++ zeros (Z.to_nat p).
Proof.
  intros Hp.
  rewrite (fmt_f_exact p 10 (10 ^ (p + 1))); [ | lia | lra | ].
  - unfold fixed. destruct (Z.eqb_spec p 0); [lia | ].
    assert (P : (0 < 10 ^ p)%Z) by (apply Z.pow_pos_nonneg; lia).
    rewrite pow10_Z_succ by lia.
    rewrite Z.div_mul, Z.mod_mul by lia.
    change (dec 10) with "10". change (dec 0) with "0".
    change (String.length "0") with 1%nat.
    destruct (Z.to_nat p) as [ | k] eqn:E; [lia | ].
    replace (S k - 1)%nat with k by lia.
    change ("10" ++ "." ++ zeros k ++ "0") with ("10." ++ (zeros k ++ "0")).
    now rewrite zeros_snoc.
  - rewrite <- pow10_IZR by lia. rewrite pow10_add. simpl (powerRZ 10 1).
    ring.
Qed.

(** X7.  One digit too many after a round-up to ten.  Take a decade [e]
    that is a multiple of 3, from -288 to 0, 3 to 9 digits, and a magnitude
    that the rounding takes up to [10^(e+1)]: one from
    [10^(e+1) (1 - 0.49 * 10^-digits)] to [10^(e+1) (1 - 1e-11)].  The
    mantissa 10 then comes out of the carry of lines 115-118, which leaves
    [digits] alone, where lines 119-122 would have taken one digit off:
    the exponent is [e], the digit count is still [digits], and the
    mantissa text is "10." and [digits - 1] zeros, one significant digit
    more than asked for (9.9996 at 4 digits gives "10.000"). *)
Theorem eng_round_up_extra_digit (v : R) (e digits : Z) :
  (-288 <= e <= 0)%Z -> (e mod 3 = 0)%Z -> (3 <= digits <= 9)%Z ->
  powerRZ 10 (e + 1) * (1 - 49 / 100 * powerRZ 10 (- digits)) <= Rabs v
  <= powerRZ 10 (e + 1) * (1 - powerRZ 10 (-11)) ->
  let s := eng_prepare (Fin v) digits in
  es_expof10 s = e
  /\ es_digits s = digits
  /\ fmt_f (es_digits s - 1) (es_value s)
     = "10." ++ zeros (Z.to_nat (digits - 1)).
Proof.
  intros He3 He Hd [Hlo0 Hhi0] s.
  set (a := Rabs v) in *.
  pose proof (pow10_pos (e - digits + 1)) as Hp.
  pose proof (pow10_pos (digits - 1 - e)) as Hp'.
  pose proof (pow10_pos (e + 1)) as Hp1.
  pose proof (pow10_pos (-11)) as Hp11.
  assert (E1 : powerRZ 10 (e + 1)
               = powerRZ 10 digits * powerRZ 10 (e - digits + 1)).
  { rewrite <- pow10_add. f_equal. lia. }
  assert (E0 : powerRZ 10 e
               = powerRZ 10 (digits - 1) * powerRZ 10 (e - digits + 1)).
  { rewrite <- pow10_add. f_equal. lia. }
  assert (E10 : powerRZ 10 digits = 10 * powerRZ 10 (digits - 1)).
  { replace digits with (1 + (digits - 1))%Z at 1 by lia.
    rewrite pow10_add. simpl (powerRZ 10 1). ring. }
  assert (Em : powerRZ 10 (e + 1) * powerRZ 10 (- digits)
               = powerRZ 10 (e - digits + 1)).
  { rewrite <- pow10_add. f_equal. lia. }
  assert (Hpd : 1 <= powerRZ 10 (digits - 1)).
  { change 1 with (powerRZ 10 0). apply pow10_le. lia. }
  assert (Hhi : a < powerRZ 10 (e + 1)) by nra.
  assert (Hlo : powerRZ 10 (e + 1) - powerRZ 10 (e - digits + 1) / 2 <= a).
  { apply Rle_trans with (2 := Hlo0). rewrite <- Em. nra. }
  assert (Ha : 0 < a).
  { apply Rlt_le_trans with (2 := Hlo). rewrite E1, E10. nra. }
  assert (Ie : ilog10 a = e).
  { apply ilog10_unique. split; [ | exact Hhi].
    apply Rle_trans with (2 := Hlo). rewrite E1, E0, E10. nra. }
  assert (Ec : powerRZ 10 (e - digits + 1) * powerRZ 10 (digits - 1 - e) = 1).
  { rewrite <- pow10_add.
    now replace (e - digits + 1 + (digits - 1 - e))%Z with 0%Z by lia. }
  assert (ED : round_half_up (a * powerRZ 10 (digits - 1 - e))
               = (10 ^ digits)%Z).
  { apply round_half_up_unique. rewrite <- pow10_IZR by lia.
    assert (S1 : powerRZ 10 (e + 1) * powerRZ 10 (digits - 1 - e)
                 = powerRZ 10 digits).
    { rewrite E1, Rmult_assoc, Ec. ring. }
    assert (S2 : a * powerRZ 10 (digits - 1 - e)
                 < powerRZ 10 (e + 1) * powerRZ 10 (digits - 1 - e)).
    { apply Rmult_lt_compat_r; lra. }
    assert (S3 : (powerRZ 10 (e + 1) - powerRZ 10 (e - digits + 1) / 2)
                 * powerRZ 10 (digits - 1 - e)
                 <= a * powerRZ 10 (digits - 1 - e)).
    { apply Rmult_le_compat_r; lra. }
    rewrite Rmult_minus_distr_r, S1 in S3. unfold Rdiv in S3.
    replace (powerRZ 10 (e - digits + 1) * / 2 * powerRZ 10 (digits - 1 - e))
      with (powerRZ 10 (e - digits + 1) * powerRZ 10 (digits - 1 - e) / 2)
      in S3 by (unfold Rdiv; ring).
    rewrite Ec in S3. lra. }
  assert (Er : rounded a digits = powerRZ 10 (e + 1)).
  { unfold rounded. rewrite Ie, ED, <- pow10_IZR by lia.
    now rewrite <- E1. }
  assert (Es : s = Eng_state (sign_text v) (Fin 10) e digits).
  { unfold s. rewrite eng_prepare_Fin by assumption. fold a.
    rewrite Er, Ie.
    assert (Al : eng_align e = (e - 3)%Z).
    { unfold eng_align. destruct (Z.gtb_spec e 0); [lia | ].
      Z.quot_rem_to_equations. Z.div_mod_to_equations. lia. }
    rewrite Al.
    assert (V : powerRZ 10 (e + 1) * powerRZ 10 (- (e - 3)) = 10000).
    { rewrite <- pow10_add. replace (e + 1 + - (e - 3))%Z with 4%Z by lia.
      simpl. ring. }
    rewrite eng_carry_1000 by lra. rewrite V.
    f_equal; [f_equal; lra | lia]. }
  rewrite Es. cbv [es_expof10 es_digits es_value].
  split; [reflexivity | ]. split; [reflexivity | ].
  apply fmt_f_ten. lia.
Qed.

Lemma eng_round_up_extra_digit_witness :
  powerRZ 10 (0 + 1) * (1 - 49 / 100 * powerRZ 10 (- 4))
  <= Rabs (99996 / 10000) <= powerRZ 10 (0 + 1) * (1 - powerRZ 10 (-11))
  /\ es_digits (eng_prepare (Fin (99996 / 10000)) 4) = 4%Z
  /\ fmt_f (es_digits (eng_prepare (Fin (99996 / 10000)) 4) - 1)
       (es_value (eng_prepare (Fin (99996 / 10000)) 4)) = "10.000".
Proof.
  assert (He3 : (-288 <= 0 <= 0)%Z) by lia.
  assert (He : (0 mod 3 = 0)%Z) by reflexivity.
  assert (Hd : (3 <= 4 <= 9)%Z) by lia.
  assert (Hr : powerRZ 10 (0 + 1) * (1 - 49 / 100 * powerRZ 10 (- 4))
               <= Rabs (99996 / 10000)
               <= powerRZ 10 (0 + 1) * (1 - powerRZ 10 (-11))).
  { rewrite Rabs_pos_eq by lra. simpl. lra. }
  destruct (eng_round_up_extra_digit (99996 / 10000) 0 4 He3 He Hd Hr)
    as (_ & HD & HF).
  split; [exact Hr | ]. split; [exact HD | exact HF].
Defined.

(** ["%.*f"] with a negative precision prints six decimals. *)
Lemma fmt_f_default (prec n : Z) :
  (prec < 0)%Z -> (0 <= n)%Z ->
  fmt_f prec (Fin (IZR n)) = dec n ++ ".000000".
Proof.
  intros Hp Hn. unfold fmt_f.
  destruct (Z.ltb_spec prec 0); [ | lia].
  assert (H0 : 0 <= IZR n) by now apply IZR_le.
  rewrite Rabs_pos_eq by assumption.
  rewrite (pow10_IZR 6), <- mult_IZR, round_half_even_IZR by lia.
  assert (S : (match Rcompare (IZR n) 0 with Lt => "-" | _ => "" end) = "").
  { destruct (Rcompare_spec (IZR n) 0); try reflexivity. lra. }
  rewrite S. unfold fixed. change (6 =? 0)%Z with false. cbv iota.
  rewrite Z.div_mul, Z.mod_mul by lia. reflexivity.
Qed.

(** X8.  One digit and six decimals.  With [digits = 1] and a decade [e]
    that is not a multiple of 3 the mantissa has two or three integer
    digits, lines 119-122 leave a digit count of 0 or -1, and [printf] gets
    a negative precision, which it takes as omitted.  For a magnitude from
    1.6 to 9.4 times [10^e], [e] between -290 and 290, the mantissa text is
    the rounded leading digit [D], one or two zeros, and six zero decimals
    (50 at 1 digit gives "50.000000"). *)
Theorem eng_one_digit_six_decimals (v : R) (e : Z) :
  (-290 <= e <= 290)%Z -> (e mod 3 <> 0)%Z ->
  16 / 10 * powerRZ 10 e <= Rabs v <= 94 / 10 * powerRZ 10 e ->
  let s := eng_prepare (Fin v) 1 in
  let j := (e mod 3)%Z in
  exists D : Z,
    (2 <= D <= 9)%Z
    /\ es_expof10 s = (e - j)%Z
    /\ es_digits s = (1 - j)%Z
    /\ fmt_f (es_digits s - 1) (es_value s) = dec (D * 10 ^ j) ++ ".000000".
Proof.
  intros _ He [Hlo Hhi] s j.
  set (a := Rabs v) in *.
  pose proof (pow10_pos e) as Hp.
  assert (Ha : 0 < a) by nra.
  assert (E1 : powerRZ 10 (e + 1) = 10 * powerRZ 10 e).
  { rewrite pow10_add. simpl (powerRZ 10 1). ring. }
  assert (Ie : ilog10 a = e).
  { apply ilog10_unique. rewrite E1. split; nra. }
  set (D := round_half_up (a * powerRZ 10 (1 - 1 - e))).
  assert (Hu : 16 / 10 <= a * powerRZ 10 (1 - 1 - e) <= 94 / 10).
  { replace (1 - 1 - e)%Z with (- e)%Z by lia.
    pose proof (pow10_pos (- e)) as Hn. pose proof (pow10_cancel e) as Hc.
    split.
    - apply Rle_trans with (16 / 10 * powerRZ 10 e * powerRZ 10 (- e));
        [rewrite Rmult_assoc, Hc; lra | apply Rmult_le_compat_r; lra].
    - apply Rle_trans with (94 / 10 * powerRZ 10 e * powerRZ 10 (- e));
        [apply Rmult_le_compat_r; lra | rewrite Rmult_assoc, Hc; lra]. }
  assert (HD : (2 <= D <= 9)%Z).
  { pose proof (round_half_up_bounds (a * powerRZ 10 (1 - 1 - e))) as B.
    fold D in B.
    assert (1 < IZR D < 10) by lra.
    assert (1 < D < 10)%Z by (split; apply lt_IZR; lra). lia. }
  assert (Er : rounded a 1 = IZR D * powerRZ 10 e).
  { unfold rounded. rewrite Ie. fold D.
    now replace (e - 1 + 1)%Z with e by lia. }
  assert (Hr : powerRZ 10 e <= rounded a 1 < powerRZ 10 (e + 1)).
  { rewrite Er, E1.
    assert (2 <= IZR D <= 9) by (split; apply IZR_le; lia).
    split; nra. }
  assert (Hj : (j = 1 \/ j = 2)%Z).
  { unfold j in *. Z.div_mod_to_equations. lia. }
  destruct (eng_carry_decade (sign_text v) (rounded a 1) e 1 Hr)
    as (Hv & HE & Hdg).
  fold j in Hv, HE, Hdg.
  assert (Es : s = eng_carry (sign_text v) (Fin (rounded a 1))
                     (eng_align e) 1).
  { unfold s. rewrite eng_prepare_Fin by assumption. fold a.
    now rewrite Ie. }
  rewrite <- Es in Hv, HE, Hdg.
  exists D. split; [exact HD | ]. split; [exact HE | ].
  split; [exact Hdg | ].
  assert (Em : rounded a 1 * powerRZ 10 (j - e) = IZR (D * 10 ^ j)).
  { rewrite Er, Rmult_assoc, <- pow10_add, mult_IZR.
    replace (e + (j - e))%Z with j by lia.
    now rewrite pow10_IZR by lia. }
  rewrite Hv, Em, Hdg.
  apply fmt_f_default; [lia | ].
  apply Z.mul_nonneg_nonneg; [lia | apply Z.pow_nonneg; lia].
Qed.

Lemma eng_one_digit_six_decimals_witness :
  16 / 10 * powerRZ 10 1 <= Rabs 50 <= 94 / 10 * powerRZ 10 1
  /\ exists D : Z,
       es_digits (eng_prepare (Fin 50) 1) = (1 - 1 mod 3)%Z
       /\ fmt_f (es_digits (eng_prepare (Fin 50) 1) - 1)
            (es_value (eng_prepare (Fin 50) 1))
          = dec (D * 10 ^ (1 mod 3)) ++ ".000000".
Proof.
  assert (He : (-290 <= 1 <= 290)%Z) by lia.
  assert (Hm : (1 mod 3 <> 0)%Z) by discriminate.
  assert (Hr : 16 / 10 * powerRZ 10 1 <= Rabs 50 <= 94 / 10 * powerRZ 10 1).
  { rewrite Rabs_pos_eq by lra. simpl. lra. }
  split; [exact Hr | ].
  destruct (eng_one_digit_six_decimals 50 1 He Hm Hr)
    as (D & _ & _ & HD & HF).
  exists D. split; [exact HD | exact HF].
Defined.

(** Lines 115-122 leave the aligned exponent or add 3 to it. *)
Lemma eng_carry_expof10 (sign : string) (value : double) (A digits : Z) :
  es_expof10 (eng_carry sign value A digits) = A
  \/ es_expof10 (eng_carry sign value A digits) = (A + 3)%Z.
Proof.
  unfold eng_carry.
  destruct (dge (dmul value (pow10 (- A))) (Fin 1000));
    [right; reflexivity | ].
  destruct (dge (dmul value (pow10 (- A))) (Fin 100)); [left; reflexivity | ].
  destruct (dge (dmul value (pow10 (- A))) (Fin 10)); left; reflexivity.
Qed.

(** X23.  The exponent and the prefix index.  For every normal value and
    every digit count from -1000 to 1000, [eng] reaches its final [if]
    with an exponent that is a multiple of 3: lines 109-112 make it one,
    and the carry adds 3 or nothing, whatever the mantissa is.  Whenever
    the prefix branch is taken the index [(expof10 - PREFIX_START)/3] is
    within 0..16 and [prefix] has an entry there: line 128 never reads
    outside the table. *)
Theorem eng_exponent_index (value : double) (digits : Z) :
  isnormal value = true -> (-1000 <= digits <= 1000)%Z ->
  let s := eng_prepare value digits in
  (es_expof10 s mod 3 = 0)%Z
  /\ (forall numeric : Z,
        use_exponent numeric (es_expof10 s) = false ->
        (0 <= (es_expof10 s - PREFIX_START) ÷ 3 <= 16)%Z
        /\ exists p : string,
             prefix_at ((es_expof10 s - PREFIX_START) ÷ 3) = Ok p).
Proof.
  intros _ _ s. split.
  - unfold s, eng_prepare.
    destruct (eng_sign value) as [sign a].
    destruct (eng_round a digits) as [e r].
    destruct (eng_align_spec e) as (j & Ej & Hmod & _).
    destruct (eng_carry_expof10 sign r (eng_align e) digits) as [E | E];
      rewrite E; [exact Hmod | ].
    replace (eng_align e + 3)%Z with (eng_align e + 1 * 3)%Z by lia.
    now rewrite Z.mod_add by lia.
  - intros numeric E. apply use_exponent_false in E. destruct E as [_ E].
    split; [now apply prefix_index_range | ].
    apply prefix_at_defined. now apply prefix_index_range.
Qed.

Lemma eng_exponent_index_witness :
  isnormal (Fin 50) = true
  /\ (es_expof10 (eng_prepare (Fin 50) 4) mod 3 = 0)%Z.
Proof.
  assert (Hd : (-1000 <= 4 <= 1000)%Z) by lia.
  split; [exact normal_50 | ].
  exact (proj1 (eng_exponent_index (Fin 50) 4 normal_50 Hd)).
Defined.

(** ** The buffer (lines 125-127 and 145) *)

Lemma substring_length (s : string) (n : nat) :
  String.length (substring 0 n s) = Nat.min n (String.length s).
Proof.
  revert n. induction s as [ | c s IH]; intros [ | n]; simpl; try reflexivity.
  now rewrite IH.
Qed.

Lemma substring_prefix (s : string) (n : nat) :
  String.prefix (substring 0 n s) s = true.
Proof.
  revert n. induction s as [ | c s IH]; intros [ | n]; simpl; try reflexivity.
  destruct (ascii_dec c c) as [_ | H]; [apply IH | now destruct H].
Qed.

(** X10.  [eng] stores its text through [snprintf(result, rlen, ...)]:
    with [rlen = 0] the buffer is left as it was; with [rlen > 0] the
    result is the first [rlen - 1] characters of the text, all of it when
    it is shorter, so that with the terminating NUL no more than [rlen]
    bytes are written. *)
Theorem eng_fits_buffer (value : double) (digits numeric : Z)
  (result : string) (rlen : Z) (r : string) :
  (0 <= rlen)%Z ->
  eng value digits numeric result rlen = Ok r ->
  exists text,
    eng_text numeric (eng_prepare value digits) = Ok text
    /\ (rlen = 0%Z -> r = result)
    /\ ((0 < rlen)%Z ->
        (Z.of_nat (String.length r) < rlen)%Z
        /\ String.prefix r text = true
        /\ String.length r
           = Nat.min (Z.to_nat (rlen - 1)) (String.length text)).
Proof.
  intros Hr He.
  pose proof (eng_Ok_normal _ _ _ _ _ _ He) as Hn.
  destruct (eng_normal value digits numeric result rlen Hn)
    as (text & Ht & E).
  rewrite E in He. injection He as <-.
  exists text. split; [exact Ht | ].
  unfold snprintf. split.
  - intros ->. reflexivity.
  - intros Hpos.
    destruct (Z.eqb_spec rlen 0); [lia | ].
    destruct (Z.ltb_spec rlen 0); [lia | ].
    rewrite substring_length.
    split; [lia | ]. split; [apply substring_prefix | reflexivity].
Qed.

Lemma eng_fits_buffer_witness :
  exists r : string,
    eng (Fin 50) 3 0 "" 4 = Ok r
    /\ (Z.of_nat (String.length r) < 4)%Z.
Proof.
  destruct (eng_normal (Fin 50) 3 0 "" 4 normal_50) as (text & _ & He).
  exists (snprintf "" 4 text). split; [exact He | ].
  assert (Hr : (0 <= 4)%Z) by lia.
  assert (Hp : (0 < 4)%Z) by lia.
  destruct (eng_fits_buffer (Fin 50) 3 0 "" 4 _ Hr He) as (t & _ & _ & H).
  exact (proj1 (H Hp)).
Defined.

Lemma append_length (s1 s2 : string) :
  String.length (s1 ++ s2) = (String.length s1 + String.length s2)%nat.
Proof. induction s1 as [ | c s1 IH]; simpl; [reflexivity | now rewrite IH]. Qed.

(** The 4-digit integers, laid out with 1, 2 or 3 decimals, take 5
    characters; checked on each of them. *)
Lemma fixed_4_digits (p N : Z) :
  (1 <= p <= 3)%Z -> (1000 <= N < 10000)%Z ->
  String.length (fixed p N) = 5%nat.
Proof.
  intros Hp HN.
  assert (H : forallb (fun n =>
                         let N := (1000 + Z.of_nat n)%Z in
                         (String.length (fixed 1 N) =? 5)%nat
                         && (String.length (fixed 2 N) =? 5)%nat
                         && (String.length (fixed 3 N) =? 5)%nat)
                      (seq 0 (Z.to_nat 9000)) = true)
    by (vm_compute; reflexivity).
  rewrite forallb_forall in H.
  specialize (H (Z.to_nat (N - 1000))). cbv zeta in H.
  rewrite Z2Nat.id in H by lia.
  replace (1000 + (N - 1000))%Z with N in H by lia.
  assert (In (Z.to_nat (N - 1000)) (seq 0 (Z.to_nat 9000))) as Hin
    by (apply in_seq; lia).
  apply H in Hin. apply andb_prop in Hin. destruct Hin as [Hin H3].
  apply andb_prop in Hin. destruct Hin as [H1 H2].
  apply Nat.eqb_eq in H1, H2, H3.
  assert (C : p = 1%Z \/ p = 2%Z \/ p = 3%Z) by lia.
  destruct C as [-> | [-> | ->]]; assumption.
Qed.

(** The decimal exponents that a double can have take at most 4
    characters; checked on each of them. *)
Lemma fmt_d_exponent (E : Z) :
  (-330 <= E <= 330)%Z -> (String.length (fmt_d E) <= 4)%nat.
Proof.
  intros HE.
  assert (H : forallb (fun n =>
                         (String.length (fmt_d (Z.of_nat n - 330)) <=? 4)%nat)
                      (seq 0 (Z.to_nat 661)) = true)
    by (vm_compute; reflexivity).
  rewrite forallb_forall in H.
  specialize (H (Z.to_nat (E + 330))). rewrite Z2Nat.id in H by lia.
  replace (E + 330 - 330)%Z with E in H by lia.
  apply Nat.leb_le. apply H. apply in_seq. lia.
Qed.

Lemma prefix_at_length (i : Z) (p : string) :
  prefix_at i = Ok p -> (String.length p <= 1)%nat.
Proof.
  unfold prefix_at. destruct (i <? 0)%Z; [discriminate | ].
  destruct (nth_error prefix (Z.to_nat i)) as [s | ] eqn:E; [ | discriminate].
  intros H. injection H as <-. apply nth_error_In in E.
  unfold prefix in E. simpl in E.
  repeat (destruct E as [<- | E]; [simpl; lia | ]). contradiction.
Qed.

Lemma sign_text_length (v : R) : (String.length (sign_text v) <= 1)%nat.
Proof. unfold sign_text. destruct (Rcompare v 0); simpl; lia. Qed.

(** The final exponent of a normal value stays within the decimal range
    of a double. *)
Lemma eng_prepare_exponent_range (v : R) (digits : Z) :
  isnormal (Fin v) = true -> (1 <= digits)%Z ->
  (-311 <= es_expof10 (eng_prepare (Fin v) digits) <= 309)%Z.
Proof.
  intros Hn Hd. pose proof (normal_pos v Hn) as Ha.
  pose proof (normal_exponent_range v Hn) as He.
  rewrite eng_prepare_Fin by assumption.
  destruct (rounded_range (Rabs v) digits Ha Hd) as [Rlo Rhi].
  destruct (eng_carry_cases (sign_text v) (rounded (Rabs v) digits)
              (ilog10 (Rabs v)) digits (conj Rlo Rhi))
    as (m & _ & Hv & _ & Hc).
  cbv zeta in Hv, Hc. set (c := eng_carry _ _ _ _) in *.
  assert (Hm : 1 <= m < 1000) by (destruct Hc as [H | [H | [H | H]]]; lra).
  pose proof (pow10_pos (es_expof10 c)) as Hp.
  assert (L : powerRZ 10 (es_expof10 c) < powerRZ 10 (ilog10 (Rabs v) + 2)).
  { apply Rle_lt_trans with (powerRZ 10 (ilog10 (Rabs v) + 1));
      [nra | apply pow10_lt; lia]. }
  assert (U : powerRZ 10 (ilog10 (Rabs v)) < powerRZ 10 (es_expof10 c + 3)).
  { rewrite (pow10_add _ 3), pow10_3. nra. }
  apply pow10_lt_inv in L, U. lia.
Qed.

(** X11.  The 32 bytes of [res] in [main] always suffice.  At 4 digits the
    text of a normal value has at most 12 characters (a sign, a mantissa
    of at most 6 characters, then "e" and an exponent of at most 4
    characters, or a space and a prefix), so [eng] returns it whole,
    whatever the buffer held before. *)
Theorem eng4_never_truncates (value : double) (res : string) :
  isnormal value = true ->
  exists text,
    eng_text 0 (eng_prepare value 4) = Ok text
    /\ (String.length text <= 12)%nat
    /\ eng value 4 0 res 32 = Ok text
    /\ eng4 value res = ([], Returns text).
Proof.
  intros Hn. destruct (isnormal_inv value Hn) as (v & -> & _).
  assert (Hd : (1 <= 4)%Z) by lia.
  destruct (eng_normal (Fin v) 4 0 res 32 Hn) as (text & Ht & He).
  exists text. split; [exact Ht | ].
  assert (Hlen : (String.length text <= 12)%nat).
  { pose proof (eng_prepare_exponent_range v 4 Hn Hd) as HE.
    destruct (eng_prepare_shape v 4 Hn Hd)
      as (m & k & N & Hm & Hk & Hmk & HN & EN & Hdk).
    cbv zeta in Hm, Hdk.
    assert (Hs : es_sign (eng_prepare (Fin v) 4) = sign_text v).
    { rewrite eng_prepare_Fin by now apply normal_pos.
      apply eng_carry_sign. }
    set (s := eng_prepare (Fin v) 4) in *.
    assert (Hman : (String.length (fmt_f (es_digits s - 1) (es_value s))
                    <= 6)%nat).
    { rewrite Hm. destruct Hdk as [Hdk | (Hdk & _ & -> & _)]; rewrite Hdk.
      - replace (4 - k - 1)%Z with (4 - 1 - k)%Z by lia.
        rewrite (fmt_f_exact (4 - 1 - k) m N); [ | lia | | exact EN].
        + rewrite fixed_4_digits; [lia | lia | exact HN].
        + pose proof (pow10_pos k). lra.
      - rewrite fmt_f_ten by lia. simpl. lia. }
    pose proof (sign_text_length v) as Hsl.
    unfold eng_text in Ht. rewrite Hs in Ht.
    destruct (use_exponent 0 (es_expof10 s)).
    - injection Ht as <-. rewrite !append_length.
      pose proof (fmt_d_exponent (es_expof10 s) ltac:(lia)). simpl. lia.
    - destruct (prefix_at ((es_expof10 s - PREFIX_START) ÷ 3)) as [p | | ]
        eqn:Ep; try discriminate.
      injection Ht as <-. rewrite !append_length.
      pose proof (prefix_at_length _ _ Ep). simpl. lia. }
  split; [exact Hlen | ].
  assert (E : eng (Fin v) 4 0 res 32 = Ok text).
  { rewrite He. f_equal. apply snprintf_fits. lia. }
  split; [exact E | ]. unfold eng4. now rewrite E.
Qed.

Lemma eng4_never_truncates_witness :
  isnormal (Fin 50) = true
  /\ exists text : string,
       eng (Fin 50) 4 0 "" 32 = Ok text /\ (String.length text <= 12)%nat.
Proof.
  split; [exact normal_50 | ].
  destruct (eng4_never_truncates (Fin 50) "" normal_50)
    as (text & _ & Hl & He & _).
  exists text. split; [exact He | exact Hl].
Defined.

(** ** The arguments of [main] (lines 147-161) *)

(** X12.  The command line (lines 147-161).  With four arguments [main]
    runs on [Rref = 992.3] and the four values; with six arguments of
    which the first begins with "-r" ([strncmp] compares two characters
    only) it takes [Rref] from the second and the four values from the
    rest; in every other case it prints the usage on stderr and exits with
    [EXIT_FAILURE], having computed nothing. *)
Theorem main_arguments (atof : string -> double) (argv : list string)
  (res : string) :
  main atof argv res
  = match List.length argv with
    | 5%nat =>
        main_body (Fin (9923 / 10)) (atof (nth 1 argv ""))
          (atof (nth 2 argv "")) (atof (nth 3 argv ""))
          (atof (nth 4 argv "")) res
    | 7%nat =>
        if is_dash_r (nth 1 argv "") then
          main_body (atof (nth 2 argv "")) (atof (nth 3 argv ""))
            (atof (nth 4 argv "")) (atof (nth 5 argv ""))
            (atof (nth 6 argv "")) res
        else usage
    | _ => usage
    end
  /\ (forall s : string, is_dash_r ("-r" ++ s) = true).
Proof.
  split.
  - unfold main. set (n := List.length argv).
    destruct (Z.eqb_spec (Z.of_nat n) 7) as [E7 | N7].
    + assert (E : n = 7%nat) by lia. rewrite E.
      destruct (is_dash_r (nth 1 argv "")); [ | reflexivity].
      cbn -[main_body]. now destruct (main_body _ _ _ _ _ res).
    + cbv [bind ret].
      destruct (Z.eqb_spec (Z.of_nat n - Z.of_nat 1) 4) as [E5 | N5].
      * assert (E : n = 5%nat) by lia. rewrite E.
        cbn -[main_body]. now destruct (main_body _ _ _ _ _ res).
      * cbn [negb].
        do 8 (destruct n as [ | n]; [reflexivity || lia | ]).
        reflexivity.
  - intros s. unfold is_dash_r. now destruct s.
Qed.

(** ** How a run ends (lines 163-211) *)

Lemma inputs_must_be_normal_witness :
  snd (main_body (Fin 1000) (Fin 1000) (Fin 0) (Fin 2) (Fin 1) "") = Aborted.
Proof.
  assert (H : isnormal (Fin 1000) && isnormal (Fin 1000) && isnormal (Fin 0)
              && isnormal (Fin 2) && isnormal (Fin 1) = false).
  { assert (H0 : isnormal (Fin 0) = false).
    { unfold isnormal. rewrite Rabs_R0.
      now rewrite Rcompare_Lt by apply DBL_MIN_pos. }
    rewrite H0. now rewrite !andb_false_r. }
  exact (proj1 (inputs_must_be_normal (Fin 1000) (Fin 1000) (Fin 0) (Fin 2)
                  (Fin 1) "" H)).
Defined.

Lemma eng_cases (value : double) (digits numeric : Z) (result : string)
  (rlen : Z) :
  (isnormal value = true
   /\ exists text, eng value digits numeric result rlen = Ok text)
  \/ (isnormal value = false
      /\ eng value digits numeric result rlen = Abort).
Proof.
  destruct (isnormal value) eqn:E.
  - left. split; [reflexivity | ].
    destruct (eng_normal value digits numeric result rlen E) as (t & _ & H).
    eauto.
  - right. split; [reflexivity | ]. unfold eng. now rewrite E.
Qed.

Ltac eng_step :=
  match goal with
  | |- context [eng ?v 4 0 ?r 32] =>
      let N := fresh "N" in
      let E := fresh "E" in
      let t := fresh "t" in
      destruct (eng_cases v 4 0 r 32) as [[N [t E]] | [N E]];
      rewrite E, N; cbv iota beta; cbn [andb];
      [ | split; [reflexivity | discriminate]]
  end.

(** X14.  How lines 163-211 end.  The assertion of [eng] is all that can
    stop them: the run returns [EXIT_SUCCESS] exactly when the eleven
    values it formats (the five inputs, Z, the pair Ls, Lp or Cs, Cp, then
    Resr, Rp and X) are all normal doubles, and is aborted otherwise.  A
    run that returns has printed 16 lines and the warnings of the clamp. *)
Theorem main_body_outcome (Rref freq delta_t V_in V_dut : double)
  (res : string) :
  exists (w : list line) (q : quantities),
    compute Rref freq delta_t V_in V_dut = (w, Returns q)
    /\ snd (main_body Rref freq delta_t V_in V_dut res)
       = (if forallb isnormal (formatted Rref freq delta_t V_in V_dut q)
          then Returns EXIT_SUCCESS else Aborted)
    /\ (snd (main_body Rref freq delta_t V_in V_dut res)
        = Returns EXIT_SUCCESS ->
        List.length (fst (main_body Rref freq delta_t V_in V_dut res))
        = (16 + List.length w)%nat).
Proof.
  destruct (compute_returns Rref freq delta_t V_in V_dut) as (w & ph & Hc).
  set (q := quantities_at Rref freq delta_t V_in V_dut ph) in *.
  exists w, q. split; [exact Hc | ].
  unfold main_body, report_reactive, eng4, formatted. rewrite Hc.
  cbv [bind call printf ret fst snd]. cbn [forallb app].
  do 6 eng_step.
  destruct (dgt (q_phi q) (Fin 0)); cbn [forallb app];
    do 5 eng_step;
    (split; [reflexivity | ]); intros _;
    simpl; rewrite ?length_app; simpl; lia.
Qed.

(** ** The impedance (lines 172-207) *)

(** A run of [compute] that prints no warning left the phase as line 173
    computed it. *)
Lemma compute_unclamped (Rref freq delta_t V_in V_dut : double)
  (q : quantities) :
  compute Rref freq delta_t V_in V_dut = ([], Returns q) ->
  let phi := phi_raw (theta_of freq delta_t) V_in V_dut in
  q = quantities_at Rref freq delta_t V_in V_dut phi
  /\ dlt phi (Fin (- PI / 2)) = false /\ dgt phi (Fin (PI / 2)) = false.
Proof.
  intros H phi.
  destruct (dlt phi (Fin (- PI / 2))) eqn:E1.
  { rewrite (compute_clamp _ _ _ _ _ _ _ (clamp_phi_low phi E1)) in H.
    discriminate. }
  destruct (dgt phi (Fin (PI / 2))) eqn:E2.
  { rewrite (compute_clamp _ _ _ _ _ _ _ (clamp_phi_high phi E2)) in H.
    discriminate. }
  rewrite (compute_clamp _ _ _ _ _ _ _ (clamp_phi_inside phi E1 E2)) in H.
  injection H as <-. now repeat split.
Qed.

Lemma sqrt_sum_pos (x y : R) : x <> 0 \/ y <> 0 -> 0 < sqrt (x * x + y * y).
Proof. intros H. apply sqrt_lt_R0. nra. Qed.

(** [atan(t)] is the angle of the point [(1, t)]. *)
Lemma atan_polar (t : R) :
  sqrt (1 + t * t) * cos (atan t) = 1 /\ sqrt (1 + t * t) * sin (atan t) = t.
Proof.
  rewrite cos_atan, sin_atan. unfold Rsqr.
  assert (0 < sqrt (1 + t * t)) by (apply sqrt_lt_R0; nra).
  split; field; lra.
Qed.

Lemma sqrt_sum_factor (x y : R) :
  x <> 0 -> sqrt (x * x + y * y) = Rabs x * sqrt (1 + y / x * (y / x)).
Proof.
  intros Hx. rewrite <- sqrt_Rsqr_abs, <- sqrt_mult_alt by apply Rle_0_sqr.
  f_equal. unfold Rsqr. field. assumption.
Qed.

(** [atan2(y, x)] is the angle of the point [(x, y)]. *)
Lemma datan2_polar (x y : R) :
  x <> 0 \/ y <> 0 ->
  exists alpha : R,
    datan2 (Fin y) (Fin x) = Fin alpha
    /\ sqrt (x * x + y * y) * cos alpha = x
    /\ sqrt (x * x + y * y) * sin alpha = y.
Proof.
  intros H. unfold datan2.
  destruct (Rcompare_spec x 0) as [Hx | Hx | Hx].
  - subst x. replace (0 * 0 + y * y) with (Rsqr y) by (unfold Rsqr; ring).
    rewrite sqrt_Rsqr_abs.
    destruct (Rcompare_spec y 0) as [Hy | Hy | Hy].
    + destruct H; contradiction.
    + exists (- PI / 2). split; [reflexivity | ].
      replace (- PI / 2) with (- (PI / 2)) by field.
      rewrite cos_neg, sin_neg, cos_PI2, sin_PI2, Rabs_left by assumption.
      split; ring.
    + exists (PI / 2). split; [reflexivity | ].
      rewrite cos_PI2, sin_PI2, Rabs_pos_eq by lra. split; ring.
  - destruct (atan_polar (y / x)) as [Hc Hs].
    assert (Hf := sqrt_sum_factor x y ltac:(lra)).
    rewrite Rabs_left in Hf by assumption.
    destruct (Rcompare y 0).
    + exists (atan (y / x) + PI). split; [reflexivity | ].
      rewrite neg_cos, neg_sin, Hf. split.
      * transitivity (x * (sqrt (1 + y / x * (y / x)) * cos (atan (y / x))));
          [ring | rewrite Hc; ring].
      * transitivity (x * (sqrt (1 + y / x * (y / x)) * sin (atan (y / x))));
          [ring | rewrite Hs; field; lra].
    + exists (atan (y / x) - PI). split; [reflexivity | ].
      rewrite cos_minus, sin_minus, cos_PI, sin_PI, Hf. split.
      * transitivity (x * (sqrt (1 + y / x * (y / x)) * cos (atan (y / x))));
          [ring | rewrite Hc; ring].
      * transitivity (x * (sqrt (1 + y / x * (y / x)) * sin (atan (y / x))));
          [ring | rewrite Hs; field; lra].
    + exists (atan (y / x) + PI). split; [reflexivity | ].
      rewrite neg_cos, neg_sin, Hf. split.
      * transitivity (x * (sqrt (1 + y / x * (y / x)) * cos (atan (y / x))));
          [ring | rewrite Hc; ring].
      * transitivity (x * (sqrt (1 + y / x * (y / x)) * sin (atan (y / x))));
          [ring | rewrite Hs; field; lra].
  - destruct (atan_polar (y / x)) as [Hc Hs].
    assert (Hf := sqrt_sum_factor x y ltac:(lra)).
    rewrite Rabs_pos_eq in Hf by lra.
    exists (atan (y / x)). split; [reflexivity | ].
    rewrite Hf. split.
    + rewrite Rmult_assoc, Hc. ring.
    + rewrite Rmult_assoc, Hs. field. lra.
Qed.

Lemma theta_of_Fin (f dt : R) :
  theta_of (Fin f) (Fin dt) = Fin (2 * PI * f * dt).
Proof. unfold theta_of. rewrite two_pi_Fin. reflexivity. Qed.

(** The radicand of line 189 is the squared length of the phasor
    [V_in - V_dut e^(j theta)]. *)
Lemma radicand_eq (t vi vd : R) :
  vi * vi - 2 * vi * vd * cos t + vd * vd
  = (vi - vd * cos t) * (vi - vd * cos t)
    + (- vd * sin t) * (- vd * sin t).
Proof.
  pose proof (sin2_cos2 t) as H. unfold Rsqr in H.
  transitivity (vi * vi - 2 * vi * vd * cos t
                + vd * vd * (sin t * sin t + cos t * cos t));
    [rewrite H | ]; ring.
Qed.

(** X15.  When no warning is printed (the phase was not clamped), the
    series impedance [Resr + j X] of lines 172-191 is the one of the
    voltage divider: [(Resr + j X) (V_in - V_dut e^(j theta))
    = Rref V_dut e^(j theta)], in its real and its imaginary part, to
    within [Rref V_dut / 10^9]; and Z is positive.  This for [V_dut] no
    more than 99% of [V_in], which keeps the subtraction of line 189 away
    from cancellation, and for magnitudes between 1e-100 and 1e100. *)
Theorem divider_equation (Rref freq delta_t V_in V_dut : R)
  (q : quantities) :
  let theta := 2 * PI * freq * delta_t in
  compute (Fin Rref) (Fin freq) (Fin delta_t) (Fin V_in) (Fin V_dut)
  = ([], Returns q) ->
  powerRZ 10 (-100) <= Rref <= powerRZ 10 100 ->
  powerRZ 10 (-100) <= V_dut -> V_in <= powerRZ 10 100 ->
  100 * V_dut <= 99 * V_in ->
  Rabs freq <= powerRZ 10 100 -> Rabs delta_t <= powerRZ 10 100 ->
  exists Z Resr X : R,
    q_Z q = Fin Z /\ 0 < Z /\ q_Resr q = Fin Resr /\ q_X q = Fin X
    /\ Rabs (Resr * (V_in - V_dut * cos theta) + X * (V_dut * sin theta)
             - Rref * (V_dut * cos theta)) <= Rref * V_dut / 10 ^ 9
    /\ Rabs (X * (V_in - V_dut * cos theta) - Resr * (V_dut * sin theta)
             - Rref * (V_dut * sin theta)) <= Rref * V_dut / 10 ^ 9.
Proof.
  intros theta Hc [HR _] Hvd _ Hratio _ _.
  pose proof (pow10_pos (-100)) as Hp.
  assert (HR0 : 0 < Rref) by lra. assert (Hv0 : 0 < V_dut) by lra.
  assert (Htol : 0 <= Rref * V_dut / 10 ^ 9).
  { apply Rmult_le_pos; [nra | ].
    apply Rlt_le, Rinv_0_lt_compat, pow_lt. lra. }
  destruct (compute_unclamped _ _ _ _ _ _ Hc) as (Hq & _ & _).
  rewrite theta_of_Fin in Hq. fold theta in Hq.
  assert (Hx0 : 0 < V_in - V_dut * cos theta).
  { pose proof (COS_bound theta) as [_ Hcos].
    assert (V_dut * cos theta <= V_dut * 1) by
      (apply Rmult_le_compat_l; lra).
    lra. }
  set (x := V_in - V_dut * cos theta) in *.
  set (y := - V_dut * sin theta) in *.
  assert (Hne : x <> 0 \/ y <> 0) by (left; lra).
  destruct (datan2_polar x y Hne) as (alpha & Ha & Hx & Hy).
  pose proof (sqrt_sum_pos x y Hne) as Hrho.
  assert (Ephi : phi_raw (Fin theta) (Fin V_in) (Fin V_dut)
                 = Fin (theta - alpha)).
  { unfold phi_raw. cbv [dsin dcos dneg dmul dsub dadd].
    fold (V_in - V_dut * cos theta). fold x y. rewrite Ha. reflexivity. }
  assert (EZ : Z_of (Fin Rref) (Fin theta) (Fin V_in) (Fin V_dut)
               = Fin (V_dut * Rref / sqrt (x * x + y * y))).
  { unfold x, y. rewrite <- radicand_eq. apply Z_of_Fin.
    rewrite radicand_eq. fold x y. nra. }
  set (rho := sqrt (x * x + y * y)) in *.
  rewrite Ephi in Hq. subst q. unfold quantities_at.
  rewrite theta_of_Fin. fold theta. rewrite EZ.
  cbv [q_Z q_Resr q_X dmul dcos dsin].
  eexists. eexists. eexists.
  split; [reflexivity | ].
  split; [apply Rdiv_lt_0_compat; nra | ].
  split; [reflexivity | ]. split; [reflexivity | ].
  rewrite cos_minus, sin_minus.
  pose proof (sin2_cos2 alpha) as H1. unfold Rsqr in H1.
  clearbody rho.
  assert (Es : V_dut * sin theta = - (rho * sin alpha)) by
    (unfold y in Hy; lra).
  rewrite <- Hx. clear Hx Hy EZ Ephi Ha Hne Hc Hx0. clearbody theta.
  assert (E1 : V_dut * Rref / rho * (cos theta * cos alpha
                                    + sin theta * sin alpha)
               * (rho * cos alpha)
               + V_dut * Rref / rho * (sin theta * cos alpha
                                      - cos theta * sin alpha)
                 * (V_dut * sin theta)
               = Rref * (V_dut * cos theta)).
  { rewrite Es.
    transitivity (Rref * (V_dut * cos theta)
                  * (sin alpha * sin alpha + cos alpha * cos alpha));
      [field; lra | rewrite H1; ring]. }
  assert (E2 : V_dut * Rref / rho * (sin theta * cos alpha
                                    - cos theta * sin alpha)
               * (rho * cos alpha)
               - V_dut * Rref / rho * (cos theta * cos alpha
                                      + sin theta * sin alpha)
                 * (V_dut * sin theta)
               = Rref * (V_dut * sin theta)).
  { rewrite Es. apply Rminus_diag_uniq.
    transitivity (Rref * (V_dut * sin theta)
                  * (sin alpha * sin alpha + cos alpha * cos alpha)
                  + Rref * (rho * sin alpha));
      [field; lra | rewrite H1, Es; ring]. }
  rewrite E1, E2.
  unfold Rminus. rewrite !Rplus_opp_r, Rabs_R0. split; exact Htol.
Qed.

Lemma divider_equation_witness :
  100 * (17827 / 100000) <= 99 * (881 / 100)
  /\ exists Z Resr X : R,
       0 < Z
       /\ Rabs (Resr * (881 / 100 - 17827 / 100000 * cos ex_theta)
                + X * (17827 / 100000 * sin ex_theta)
                - 3278 / 10 * (17827 / 100000 * cos ex_theta))
          <= 3278 / 10 * (17827 / 100000) / 10 ^ 9.
Proof.
  assert (P0 : powerRZ 10 (-100) <= 1 / 10).
  { apply Rle_trans with (powerRZ 10 (-1)); [apply pow10_le; lia | ].
    simpl. lra. }
  assert (P1 : 1000 <= powerRZ 10 100).
  { apply Rle_trans with (powerRZ 10 3); [simpl; lra | apply pow10_le; lia]. }
  assert (HR : powerRZ 10 (-100) <= 3278 / 10 <= powerRZ 10 100) by lra.
  assert (Hvd : powerRZ 10 (-100) <= 17827 / 100000) by lra.
  assert (Hvi : 881 / 100 <= powerRZ 10 100) by lra.
  assert (Hratio : 100 * (17827 / 100000) <= 99 * (881 / 100)) by lra.
  assert (Hf : Rabs 1000 <= powerRZ 10 100) by
    (rewrite Rabs_pos_eq by lra; lra).
  assert (Ht : Rabs (217 / 1000000) <= powerRZ 10 100) by
    (rewrite Rabs_pos_eq by lra; lra).
  split; [exact Hratio | ].
  destruct (divider_equation (3278 / 10) 1000 (217 / 1000000)
              (881 / 100) (17827 / 100000) _ ex_compute HR Hvd Hvi Hratio
              Hf Ht)
    as (Z & Resr & X & _ & HZ & _ & _ & H & _).
  exists Z, Resr, X. split; [exact HZ | exact H].
Defined.


(** A reading half a period early: theta = -pi, the raw phase is -pi and is
    clamped to -pi/2 + 1e-15. *)
Lemma early_reading :
  phi_raw (theta_of (Fin 1) (Fin (-1 / 2))) (Fin 2) (Fin 1) = Fin (- PI)
  /\ (exists z : R,
        Z_of (Fin 1000) (theta_of (Fin 1) (Fin (-1 / 2))) (Fin 2) (Fin 1)
        = Fin z /\ 0 < z)
  /\ exists w : list line,
       compute (Fin 1000) (Fin 1) (Fin (-1 / 2)) (Fin 2) (Fin 1)
       = (w, Returns (quantities_at (Fin 1000) (Fin 1) (Fin (-1 / 2))
                        (Fin 2) (Fin 1) (Fin (- PI / 2 + 1 / 10 ^ 15)))).
Proof.
  pose proof PI_RGT_0 as Hpi.
  assert (Et : theta_of (Fin 1) (Fin (-1 / 2)) = Fin (- PI)).
  { rewrite theta_of_Fin. f_equal. lra. }
  assert (Ec : cos (- PI) = -1) by (rewrite cos_neg, cos_PI; lra).
  assert (Es : sin (- PI) = 0) by (rewrite sin_neg, sin_PI; lra).
  assert (Er : phi_raw (Fin (- PI)) (Fin 2) (Fin 1) = Fin (- PI)).
  { rewrite phi_raw_Fin_pos by (rewrite Ec; lra).
    rewrite Es. replace (- (1) * 0 / (2 - 1 * cos (- PI))) with 0 by
      (unfold Rdiv; ring).
    rewrite atan_0. f_equal. ring. }
  rewrite Et. split; [exact Er | ]. split.
  - rewrite Z_of_Fin by (rewrite Ec; lra). eexists. split; [reflexivity | ].
    apply Rdiv_lt_0_compat; [lra | ].
    apply sqrt_lt_R0. rewrite Ec. lra.
  - eexists. apply compute_clamp. rewrite Et, Er.
    apply clamp_phi_low. apply dlt_Fin. lra.
Qed.



(** Sine and cosine of the fudge of lines 181 and 186. *)
Lemma fudge_trig :
  0 < sin (1 / 10 ^ 15) < 1 / 10 ^ 15 /\ 1 / 2 <= cos (1 / 10 ^ 15).
Proof.
  pose proof fudge_pos as H0. pose proof fudge_small as H1.
  pose proof PI_RGT_0 as Hpi. pose proof PI2_1 as Hp2.
  split; [split | ].
  - apply sin_gt_0; lra.
  - now apply sin_lt_x.
  - apply Rle_trans with (2 := cos_lower (1 / 10 ^ 15) 0 ltac:(lra)).
    cbv [tsum Nat.mul Nat.add]. nra.
Qed.

(** X17.  After a clamp, on either side, with Z between 1e-290 and
    1e290: two warning lines are printed, Resr is positive (the fudge of
    lines 181 and 186 keeps the divisor of line 192 away from zero) and Q
    is more than 10^14, whatever was measured. *)
Theorem clamped_quality_bound (Rref freq delta_t V_in V_dut : double)
  (p z : R) :
  phi_raw (theta_of freq delta_t) V_in V_dut = Fin p ->
  p < - PI / 2 \/ PI / 2 < p ->
  Z_of Rref (theta_of freq delta_t) V_in V_dut = Fin z ->
  powerRZ 10 (-290) <= z <= powerRZ 10 290 ->
  exists (w : list line) (q : quantities) (Resr Q : R),
    compute Rref freq delta_t V_in V_dut = (w, Returns q)
    /\ List.length w = 2%nat
    /\ q_Resr q = Fin Resr
    /\ 0 < Resr
    /\ q_Q q = Fin Q
    /\ 10 ^ 14 < Q.
Proof.
  intros Hp Hout Hz [Hzlo _].
  assert (Hpos : 0 < z) by (pose proof (pow10_pos (-290)); lra).
  destruct fudge_trig as [[Hs0 Hs1] Hc].
  set (eps := 1 / 10 ^ 15) in *.
  assert (Hne : z * sin eps <> 0) by nra.
  assert (HQ : 10 ^ 14 < cos eps / sin eps).
  { apply Rmult_lt_reg_r with (sin eps); [assumption | ].
    replace (cos eps / sin eps * sin eps) with (cos eps) by (field; lra).
    assert (10 ^ 14 * sin eps < 10 ^ 14 * eps) by
      (apply Rmult_lt_compat_l; lra).
    unfold eps in *. lra. }
  assert (Hcase :
    exists (w : list line) (ph : R),
      clamp_phi (Fin p) = (w, Returns (Fin ph)) /\ List.length w = 2%nat
      /\ cos ph = sin eps /\ Rabs (sin ph) = cos eps).
  { destruct Hout as [Hlow | Hhigh].
    - eexists. exists (- PI / 2 + eps).
      split; [apply clamp_phi_low; apply dlt_Fin; lra | ].
      split; [reflexivity | ].
      replace (- PI / 2 + eps) with (- (PI / 2 - eps)) by field.
      rewrite cos_neg, sin_neg, cos_shift, sin_shift, Rabs_Ropp.
      split; [reflexivity | apply Rabs_pos_eq; lra].
    - eexists. exists (PI / 2 - eps).
      split; [apply clamp_phi_high; apply dgt_Fin; lra | ].
      split; [reflexivity | ].
      rewrite cos_shift, sin_shift.
      split; [reflexivity | apply Rabs_pos_eq; lra]. }
  destruct Hcase as (w & ph & Hcl & Hlen & Ecos & Esin).
  rewrite <- Hp in Hcl.
  pose proof (compute_clamp Rref freq delta_t V_in V_dut w (Fin ph) Hcl)
    as Hcomp.
  exists w, (quantities_at Rref freq delta_t V_in V_dut (Fin ph)).
  exists (z * sin eps), (cos eps / sin eps).
  split; [exact Hcomp | ]. split; [exact Hlen | ].
  unfold quantities_at. rewrite Hz. cbv [q_Resr q_Q dmul dcos dsin dfabs].
  rewrite Ecos. rewrite ddiv_Fin by assumption.
  split; [reflexivity | ]. split; [nra | ].
  split; [ | exact HQ].
  f_equal. rewrite Rabs_mult, Esin, (Rabs_pos_eq z) by lra.
  field. lra.
Qed.

(** The impedance of the early reading is 1000/3. *)
Lemma early_reading_Z :
  Z_of (Fin 1000) (theta_of (Fin 1) (Fin (-1 / 2))) (Fin 2) (Fin 1)
  = Fin (1000 / 3).
Proof.
  assert (Et : theta_of (Fin 1) (Fin (-1 / 2)) = Fin (- PI)).
  { rewrite theta_of_Fin. f_equal. lra. }
  assert (Ec : cos (- PI) = -1) by (rewrite cos_neg, cos_PI; lra).
  rewrite Et, Z_of_Fin by (rewrite Ec; lra).
  rewrite Ec. f_equal.
  replace (2 * 2 - 2 * 2 * 1 * -1 + 1 * 1) with (3 * 3) by ring.
  rewrite sqrt_square by lra. field.
Qed.

Lemma clamped_quality_bound_witness :
  powerRZ 10 (-290) <= 1000 / 3 <= powerRZ 10 290
  /\ exists (w : list line) (q : quantities) (Q : R),
       compute (Fin 1000) (Fin 1) (Fin (-1 / 2)) (Fin 2) (Fin 1)
       = (w, Returns q)
       /\ q_Q q = Fin Q /\ 10 ^ 14 < Q.
Proof.
  destruct early_reading as (Hp & _ & _).
  pose proof PI_RGT_0 as Hpi.
  assert (Hout : - PI < - PI / 2 \/ PI / 2 < - PI) by (left; lra).
  assert (Hz : powerRZ 10 (-290) <= 1000 / 3 <= powerRZ 10 290).
  { split.
    - apply Rle_trans with (powerRZ 10 0); [apply pow10_le; lia | simpl; lra].
    - apply Rle_trans with (powerRZ 10 3); [simpl; lra | apply pow10_le; lia]. }
  split; [exact Hz | ].
  destruct (clamped_quality_bound _ _ _ _ _ (- PI) (1000 / 3) Hp Hout
              early_reading_Z Hz)
    as (w & q & Resr & Q & Hc & _ & _ & _ & HQ & Hb).
  exists w, q, Q. split; [exact Hc | ]. split; [exact HQ | exact Hb].
Defined.












(** ** The powers of ten (lines 101, 106 and 114) *)


Lemma pow10_overflow (n : Z) :
  (309 <= n)%Z -> isnormal (pow10 n) = false.
Proof.
  intros H. unfold pow10, isnormal.
  pose proof (pow10_pos n). rewrite Rabs_pos_eq by lra.
  assert (U : DBL_MAX < powerRZ 10 309).
  { rewrite DBL_MAX_eq, pow_base_IZR by lia.
    apply IZR_lt. apply Z.ltb_lt. vm_compute. reflexivity. }
  assert (powerRZ 10 309 <= powerRZ 10 n) by (apply pow10_le; lia).
  rewrite (Rcompare_Gt (powerRZ 10 n) DBL_MAX) by lra.
  now destruct (Rcompare (powerRZ 10 n) DBL_MIN).
Qed.



(** C3.  The value [10^-306], formatted with 4 digits.  It is a normal
    double and passes line 90; line 100 finds the decimal exponent -306,
    and line 101 asks [pow] for [10^(4-1+306) = 10^309], which is above
    [DBL_MAX].  In the compiled program that call overflows to +inf, the
    value becomes +inf and the result is "infe-306": the value is not
    rounded to 4 digits there. *)
Theorem eng_round_factor_overflows :
  isnormal (Fin (powerRZ 10 (-306))) = true
  /\ fst (eng_round (snd (eng_sign (Fin (powerRZ 10 (-306))))) 4)
     = (-306)%Z
  /\ DBL_MAX < powerRZ 10 (4 - 1 - -306)
  /\ isnormal (pow10 (4 - 1 - -306)) = false.
Proof.
  pose proof (pow10_pos (-306)) as Hp.
  assert (Hn : isnormal (Fin (powerRZ 10 (-306))) = true).
  { apply (normal_decade _ (-306)); [lia | ].
    rewrite Rabs_pos_eq by lra.
    split; [lra | apply pow10_lt; lia]. }
  split; [exact Hn | ]. split.
  - rewrite eng_sign_Fin. cbv [snd]. rewrite Rabs_pos_eq by lra.
    rewrite eng_round_Fin by assumption. cbv [fst].
    apply ilog10_unique. split; [lra | apply pow10_lt; lia].
  - split; [ | apply pow10_overflow; lia].
    change (4 - 1 - -306)%Z with 309%Z.
    rewrite DBL_MAX_eq, pow_base_IZR by lia.
    apply IZR_lt. apply Z.ltb_lt. vm_compute. reflexivity.
Qed.
